(** * agent-commander: the NDJSON codec, the output stream processor and
    the agent controller, embedded in Rocq.

    Rust [String]s and [&str]s are modelled as lists of [char]s, a [char]
    being a Unicode scalar value (a [Z]).  [serde_json] is modelled from its
    own source (src/de.rs, src/ser.rs, src/value) with its default
    features; an [f64] is kept as its IEEE 754 bit pattern, with the
    arithmetic the parser does rounded exactly, and the [ryu] output of
    the serializer is given by the result its algorithm computes. *)

From Stdlib Require Import ZArith List Lia Bool Btauto.
From Stdlib Require Import Ascii String.
Import ListNotations.

Local Open Scope Z_scope.
Set Warnings "-register-all".


(** ** Text *)

Definition char := Z.
Definition str := list char.

(** A literal written as an ASCII Rocq string. *)
Definition s2l (s : String.string) : str :=
  map (fun a => Z.of_nat (Ascii.nat_of_ascii a)) (String.list_ascii_of_string s).

Fixpoint str_eqb (a b : str) : bool :=
  match a, b with
  | [], [] => true
  | x :: a', y :: b' => (x =? y) && str_eqb a' b'
  | _, _ => false
  end.

Definition is_empty (s : str) : bool :=
  match s with [] => true | _ => false end.

(** [str::starts_with(c)] for a [char] pattern. *)
Definition starts_with (c : char) (s : str) : bool :=
  match s with x :: _ => x =? c | [] => false end.

(** [str::contains(&str)]. *)
Fixpoint is_prefix (p s : str) : bool :=
  match p, s with
  | [], _ => true
  | x :: p', y :: s' => (x =? y) && is_prefix p' s'
  | _ :: _, [] => false
  end.

Fixpoint contains (s p : str) : bool :=
  is_prefix p s || match s with [] => false | _ :: s' => contains s' p end.

(** [char::is_whitespace]: the Unicode White_Space property. *)
Definition is_whitespace (c : char) : bool :=
  ((9 <=? c) && (c <=? 13)) || (c =? 32) || (c =? 133) || (c =? 160)
  || (c =? 5760) || ((8192 <=? c) && (c <=? 8202)) || (c =? 8232)
  || (c =? 8233) || (c =? 8239) || (c =? 8287) || (c =? 12288).

Fixpoint trim_start (s : str) : str :=
  match s with
  | c :: s' => if is_whitespace c then trim_start s' else s
  | [] => []
  end.

Definition trim_end (s : str) : str := rev (trim_start (rev s)).

(** [str::trim]. *)
Definition trim (s : str) : str := trim_end (trim_start s).

(** [str::split(sep)] for a [char] separator: never empty. *)
Fixpoint split_char (sep : char) (s : str) : list str :=
  match s with
  | [] => [[]]
  | c :: s' =>
      if c =? sep then [] :: split_char sep s'
      else match split_char sep s' with
           | h :: r => (c :: h) :: r
           | [] => [[c]]
           end
  end.

(** [str::lines]: [split_inclusive('\n')], each line losing its ["\n"] and
    then a ["\r"] before it; an unterminated last line keeps a ["\r"]. *)
Definition strip_cr (l : str) : str :=
  match rev l with 13 :: r => rev r | _ => l end.

Fixpoint lines_of (segs : list str) : list str :=
  match segs with
  | [] => []
  | [l] => if is_empty l then [] else [l]
  | l :: segs' => strip_cr l :: lines_of segs'
  end.

Definition lines (s : str) : list str := lines_of (split_char 10 s).

(** ** IEEE 754 binary64 *)

(** An [f64] as its 64-bit pattern: sign bit 63, biased exponent in bits
    52..62, fraction in bits 0..51.  Arithmetic is rounded to nearest,
    ties to even, computed exactly on the rational values. *)
Module F64.

Definition sign (x : Z) : bool := Z.testbit x 63.
Definition biased_exponent (x : Z) : Z := Z.land (Z.shiftr x 52) 2047.
Definition fraction (x : Z) : Z := Z.land x (2 ^ 52 - 1).

Definition is_finite (x : Z) : bool := negb (biased_exponent x =? 2047).
Definition is_infinite (x : Z) : bool := (biased_exponent x =? 2047) && (fraction x =? 0).

(** [x == 0.0]: both zeros. *)
Definition is_zero (x : Z) : bool := Z.land x (2 ^ 63 - 1) =? 0.

Definition zero : Z := 0.
Definition infinity : Z := 2047 * 2 ^ 52.

(** Unary [-]: flips the sign bit. *)
Definition neg (x : Z) : Z := Z.lxor x (2 ^ 63).

(** The magnitude of a finite [x] as [M * 2 ^ E]. *)
Definition scaled (x : Z) : Z * Z :=
  if biased_exponent x =? 0 then (fraction x, -1074)
  else (fraction x + 2 ^ 52, biased_exponent x - 1075).

(** The magnitude of a finite [x] as a fraction [n / d], [d > 0]. *)
Definition ratio (x : Z) : Z * Z :=
  let '(m, e) := scaled x in
  if 0 <=? e then (m * 2 ^ e, 1) else (m, 2 ^ (- e)).

(** [floor (log2 (n / d))] for [n, d > 0]. *)
Definition log2_ratio (n d : Z) : Z :=
  let l := Z.log2 n - Z.log2 d in
  let ge := if 0 <=? l then d * 2 ^ l <=? n else d <=? n * 2 ^ (- l) in
  if ge then l else l - 1.

(** The [f64] nearest to [n / d] ([n >= 0], [d > 0]), ties to even, with
    the sign [negative]; infinity past the largest finite value. *)
Definition round (negative : bool) (n d : Z) : Z :=
  let s := if negative then 2 ^ 63 else 0 in
  if n <=? 0 then s
  else
    let e := Z.max (log2_ratio n d - 52) (-1074) in
    let '(num, den) := if 0 <=? e then (n, d * 2 ^ e) else (n * 2 ^ (- e), d) in
    let q := num / den in
    let r := num mod den in
    let m := if (den <? 2 * r) || ((2 * r =? den) && Z.odd q) then q + 1 else q in
    let '(m, e) := if m =? 2 ^ 53 then (2 ^ 52, e + 1) else (m, e) in
    if 971 <? e then s + infinity
    else if m <? 2 ^ 52 then s + m
    else s + (e + 1075) * 2 ^ 52 + (m - 2 ^ 52).

(** [u as f64] for a [u64]. *)
Definition of_u64 (u : Z) : Z := round false u 1.

(** [a * b] and [a / b] for finite [a] and [b], [b] non-zero for [/]. *)
Definition mul (a b : Z) : Z :=
  let '(n1, d1) := ratio a in
  let '(n2, d2) := ratio b in
  round (xorb (sign a) (sign b)) (n1 * n2) (d1 * d2).

Definition div (a b : Z) : Z :=
  let '(n1, d1) := ratio a in
  let '(n2, d2) := ratio b in
  round (xorb (sign a) (sign b)) (n1 * d2) (d1 * n2).

(** The literal [1eN]. *)
Definition lit_pow10 (i : Z) : Z := round false (10 ^ i) 1.

End F64.

(** ** serde_json *)

Module Json.

(** [serde_json::Value]; a [Number] is [N::PosInt] or [N::NegInt], the
    integer it holds, or [N::Float], here [Float] with the bits of its
    [f64]; [Map<String, Value>] is a [BTreeMap], kept here as its entry
    list in key order. *)
Inductive Value : Type :=
| Null
| Bool (b : bool)
| Number (n : Z)
| Float (x : Z)
| String (s : str)
| Array (l : list Value)
| Object (m : list (str * Value)).

Definition is_null (v : Value) : bool :=
  match v with Null => true | _ => false end.

Section ValueInd.
Variable P : Value -> Prop.
Hypothesis HNull : P Null.
Hypothesis HBool : forall b, P (Bool b).
Hypothesis HNumber : forall n, P (Number n).
Hypothesis HFloat : forall x, P (Float x).
Hypothesis HString : forall s, P (String s).
Hypothesis HArray : forall l, Forall P l -> P (Array l).
Hypothesis HObject : forall m, Forall (fun kv => P (snd kv)) m -> P (Object m).

Fixpoint Value_ind' (v : Value) : P v :=
  match v with
  | Null => HNull
  | Bool b => HBool b
  | Number n => HNumber n
  | Float x => HFloat x
  | String s => HString s
  | Array l =>
      HArray l ((fix go (l : list Value) : Forall P l :=
                   match l with
                   | [] => Forall_nil _
                   | x :: l' => Forall_cons _ (Value_ind' x) (go l')
                   end) l)
  | Object m =>
      HObject m ((fix go (m : list (str * Value)) :
                     Forall (fun kv => P (snd kv)) m :=
                   match m with
                   | [] => Forall_nil _
                   | kv :: m' => Forall_cons _ (Value_ind' (snd kv)) (go m')
                   end) m)
  end.
End ValueInd.

(** [Ord for String]: lexicographic on the UTF-8 bytes, which is the
    lexicographic order on scalar values. *)
Fixpoint str_compare (a b : str) : comparison :=
  match a, b with
  | [], [] => Eq
  | [], _ :: _ => Lt
  | _ :: _, [] => Gt
  | x :: a', y :: b' =>
      match Z.compare x y with Eq => str_compare a' b' | c => c end
  end.

(** [BTreeMap::insert]: replaces the value of an existing key. *)
Fixpoint map_insert (k : str) (v : Value) (m : list (str * Value))
  : list (str * Value) :=
  match m with
  | [] => [(k, v)]
  | (k', v') :: m' =>
      match str_compare k k' with
      | Lt => (k, v) :: m
      | Eq => (k, v) :: m'
      | Gt => (k', v') :: map_insert k v m'
      end
  end.

Definition u64_max : Z := 2 ^ 64 - 1.
Definition i64_min : Z := - 2 ^ 63.

Fixpoint keys_sorted (ks : list str) : Prop :=
  match ks with
  | [] => True
  | k :: ks' => Forall (fun k' => str_compare k k' = Lt) ks' /\ keys_sorted ks'
  end.

Definition is_scalar_value (c : char) : Prop :=
  0 <= c <= 1114111 /\ ~ (55296 <= c <= 57343).

(** The values a Rust program can hold: integers in [i64]/[u64] range,
    finite [f64]s ([Number::from_f64] refuses the others), strings of
    scalar values, map keys in strictly increasing order. *)
Fixpoint wf (v : Value) : Prop :=
  match v with
  | Null | Bool _ => True
  | Number n => i64_min <= n <= u64_max
  | Float x => 0 <= x < 2 ^ 64 /\ F64.is_finite x = true
  | String s => Forall is_scalar_value s
  | Array l => (fix go l := match l with [] => True | x :: l' => wf x /\ go l' end) l
  | Object m =>
      keys_sorted (map fst m) /\
      (fix go m := match m with
                   | [] => True
                   | (k, x) :: m' => Forall is_scalar_value k /\ wf x /\ go m'
                   end) m
  end.

(** Nesting depth: the number of open brackets on the deepest path. *)
Fixpoint depth (v : Value) : nat :=
  match v with
  | Array l => S (fold_right (fun x d => Nat.max (depth x) d) 0%nat l)
  | Object m => S (fold_right (fun kv d => Nat.max (depth (snd kv)) d) 0%nat m)
  | _ => 0%nat
  end.

(** *** Serializer (ser.rs) *)

Definition is_nil {A : Type} (l : list A) : bool :=
  match l with [] => true | _ => false end.

Definition hex_digit (n : Z) : char := if n <? 10 then 48 + n else 87 + n.

(** [format_escaped_str_contents]: the [ESCAPE] table. *)
Definition escape_char (c : char) : str :=
  if c =? 34 then [92; 34]
  else if c =? 92 then [92; 92]
  else if c =? 8 then [92; 98]
  else if c =? 9 then [92; 116]
  else if c =? 10 then [92; 110]
  else if c =? 12 then [92; 102]
  else if c =? 13 then [92; 114]
  else if c <? 32 then [92; 117; 48; 48; hex_digit (c / 16); hex_digit (c mod 16)]
  else [c].

Definition format_escaped_str (s : str) : str :=
  34 :: flat_map escape_char s ++ [34].

(** [itoa]: decimal digits of a non-negative integer. *)
Fixpoint nat_digits (fuel : nat) (n : Z) (acc : str) : str :=
  match fuel with
  | O => acc
  | S f =>
      let acc' := (48 + n mod 10) :: acc in
      if n <? 10 then acc' else nat_digits f (n / 10) acc'
  end.

Definition udigits (n : Z) : str := nat_digits (S (Z.to_nat (Z.log2 n))) n [].

Definition itoa (n : Z) : str := if n <? 0 then 45 :: udigits (- n) else udigits n.

(** *** ryu *)

(** [10 ^ p] as a fraction [n / d]. *)
Definition pow10_ratio (p : Z) : Z * Z := if 0 <=? p then (10 ^ p, 1) else (1, 10 ^ (- p)).
Definition pow2_ratio (p : Z) : Z * Z := if 0 <=? p then (2 ^ p, 1) else (1, 2 ^ (- p)).

(** The multiples [k * 10 ^ p] in the interval [[lo, hi] * 2 ^ e2] (bounds
    included when [accept]): the least and the greatest [k]. *)
Definition k_range (accept : bool) (lo hi e2 p : Z) : Z * Z :=
  let '(an, ad) := pow2_ratio e2 in
  let '(bn, bd) := pow10_ratio p in
  let den := ad * bn in
  let l := lo * an * bd in
  let h := hi * an * bd in
  if accept then ((l + den - 1) / den, h / den) else (l / den + 1, (h - 1) / den).

(** The largest [p <= p0] with such a multiple. *)
Fixpoint shortest (fuel : nat) (accept : bool) (lo hi e2 p : Z) : Z :=
  match fuel with
  | O => p
  | S fuel =>
      let '(kmin, kmax) := k_range accept lo hi e2 p in
      if kmin <=? kmax then p else shortest fuel accept lo hi e2 (p - 1)
  end.

(** [ryu::d2s::d2d]: the decimal [mantissa * 10 ^ exponent] Ryu computes
    for a finite positive [f64], given by what its algorithm is proved to
    return (Adams, PLDI 2018): of the decimals in the rounding interval of
    [m2 * 2 ^ e2] (in quarter units, [mv] at its centre, [mm] and [mp] its
    bounds, included when [m2] is even, [mm] a quarter unit closer at a
    binade boundary) those with the fewest digits, and of these the
    closest to [mv], ties to an even mantissa.  The search for the fewest
    digits starts above [log10] of the upper bound. *)
Definition d2d (ieee_mantissa ieee_exponent : Z) : Z * Z :=
  let '(m2, e2) :=
    if ieee_exponent =? 0 then (ieee_mantissa, 1 - 1075 - 2)
    else (ieee_mantissa + 2 ^ 52, ieee_exponent - 1075 - 2) in
  let accept := Z.even m2 in
  let mm_shift := negb (ieee_mantissa =? 0) || (ieee_exponent <=? 1) in
  let mv := 4 * m2 in
  let mp := 4 * m2 + 2 in
  let mm := 4 * m2 - 1 - (if mm_shift then 1 else 0) in
  let p := shortest 700 accept mm mp e2 ((Z.log2 mp + e2 + 1) * 30103 / 100000 + 1) in
  let '(kmin, kmax) := k_range accept mm mp e2 p in
  let '(an, ad) := pow2_ratio e2 in
  let '(bn, bd) := pow10_ratio p in
  let den := ad * bn in
  let c := mv * an * bd in
  let q := c / den in
  let r := c mod den in
  let k := if (den <? 2 * r) || ((2 * r =? den) && Z.odd q) then q + 1 else q in
  (Z.min kmax (Z.max kmin k), p).

(** [ryu::pretty::format64], which [ryu::Buffer::format_finite] calls for
    a finite [f]; the exponent is written by [write_exponent3]. *)
Definition format64 (f : Z) : str :=
  let sign := Z.testbit f 63 in
  let ieee_mantissa := F64.fraction f in
  let ieee_exponent := F64.biased_exponent f in
  let pre := if sign then [45] else [] in
  if (ieee_exponent =? 0) && (ieee_mantissa =? 0) then pre ++ s2l "0.0"
  else
    let '(mantissa, k) := d2d ieee_mantissa ieee_exponent in
    let ds := udigits mantissa in
    let length := Z.of_nat (List.length ds) in
    let kk := length + k in
    if (0 <=? k) && (kk <=? 16) then pre ++ ds ++ repeat 48 (Z.to_nat k) ++ s2l ".0"
    else if (0 <? kk) && (kk <=? 16) then
      pre ++ firstn (Z.to_nat kk) ds ++ [46] ++ skipn (Z.to_nat kk) ds
    else if (-5 <? kk) && (kk <=? 0) then pre ++ s2l "0." ++ repeat 48 (Z.to_nat (- kk)) ++ ds
    else if length =? 1 then pre ++ ds ++ [101] ++ itoa (kk - 1)
    else pre ++ firstn 1 ds ++ [46] ++ skipn 1 ds ++ [101] ++ itoa (kk - 1).

(** The [Formatter] trait, reduced to the hooks whose output differs
    between [CompactFormatter] and [PrettyFormatter]:
    [begin_array_value]/[begin_object_key] (indent level, first?),
    [end_array]/[end_object] (indent level, has_value?) and
    [begin_object_value]. *)
Record Formatter := {
  begin_value : nat -> bool -> str;
  end_container : nat -> bool -> str;
  begin_object_value : str
}.

Definition CompactFormatter : Formatter := {|
  begin_value := fun _ first => if first then [] else [44];
  end_container := fun _ _ => [];
  begin_object_value := [58]
|}.

Definition indent (lvl : nat) : str := List.concat (repeat [32; 32] lvl).

Definition PrettyFormatter : Formatter := {|
  begin_value := fun lvl first => (if first then [10] else [44; 10]) ++ indent lvl;
  end_container := fun lvl has_value => if has_value then 10 :: indent lvl else [];
  begin_object_value := [58; 32]
|}.

(** [impl Serialize for Value] through [Serializer<W, F>]; [lvl] is the
    formatter's [current_indent]. *)
Fixpoint to_json (f : Formatter) (lvl : nat) (v : Value) : str :=
  match v with
  | Null => s2l "null"
  | Bool true => s2l "true"
  | Bool false => s2l "false"
  | Number n => itoa n
  | Float x => if F64.is_finite x then format64 x else s2l "null"
  | String s => format_escaped_str s
  | Array l =>
      91 :: (fix elems (l : list Value) (first : bool) : str :=
               match l with
               | [] => []
               | x :: l' => begin_value f (S lvl) first ++ to_json f (S lvl) x
                            ++ elems l' false
               end) l true
         ++ end_container f lvl (negb (is_nil l)) ++ [93]
  | Object m =>
      123 :: (fix members (m : list (str * Value)) (first : bool) : str :=
               match m with
               | [] => []
               | (k, x) :: m' =>
                   begin_value f (S lvl) first ++ format_escaped_str k
                   ++ begin_object_value f ++ to_json f (S lvl) x
                   ++ members m' false
               end) m true
         ++ end_container f lvl (negb (is_nil m)) ++ [125]
  end.

(** The element and member runs of [to_json], and the measures used to
    reason about the parser below. *)
Fixpoint json_elems (f : Formatter) (lvl : nat) (l : list Value) (first : bool) : str :=
  match l with
  | [] => []
  | x :: l' => begin_value f lvl first ++ to_json f lvl x ++ json_elems f lvl l' false
  end.

Fixpoint json_members (f : Formatter) (lvl : nat) (m : list (str * Value)) (first : bool)
  : str :=
  match m with
  | [] => []
  | (k, x) :: m' =>
      begin_value f lvl first ++ format_escaped_str k ++ begin_object_value f
      ++ to_json f lvl x ++ json_members f lvl m' false
  end.

Fixpoint nodes (v : Value) : nat :=
  match v with
  | Array l => S (fold_right (fun x n => S (nodes x + n)) 0%nat l)
  | Object m => S (fold_right (fun kv n => S (S (nodes (snd kv) + n))) 0%nat m)
  | _ => 0%nat
  end.

Definition is_container (v : Value) : bool :=
  match v with Array _ | Object _ => true | _ => false end.

(** [n + 1] nested arrays. *)
Fixpoint nested (n : nat) : Value :=
  match n with O => Array [] | S n => Array [nested n] end.

(** The value of a run of decimal digits read after [a]. *)
Definition dval (a : Z) (ds : str) : Z := fold_left (fun x c => x * 10 + (c - 48)) ds a.

(** *** Deserializer (de.rs, read.rs) *)

(** [parse_whitespace]: JSON whitespace only. *)
Definition is_json_ws (c : char) : bool :=
  (c =? 32) || (c =? 10) || (c =? 9) || (c =? 13).

Fixpoint skip_ws (s : str) : str :=
  match s with
  | c :: s' => if is_json_ws c then skip_ws s' else s
  | [] => []
  end.

Definition is_digit (c : char) : bool := (48 <=? c) && (c <=? 57).

(** [decode_hex_val]. *)
Definition hex_val (c : char) : option Z :=
  if (48 <=? c) && (c <=? 57) then Some (c - 48)
  else if (97 <=? c) && (c <=? 102) then Some (c - 87)
  else if (65 <=? c) && (c <=? 70) then Some (c - 55)
  else None.

Definition decode_hex4 (a b c d : char) : option Z :=
  match hex_val a, hex_val b, hex_val c, hex_val d with
  | Some x, Some y, Some z, Some w => Some (((x * 16 + y) * 16 + z) * 16 + w)
  | _, _, _, _ => None
  end.

(** [parse_escape] for the single-character escapes. *)
Definition simple_escape (e : char) : option char :=
  if e =? 34 then Some 34
  else if e =? 92 then Some 92
  else if e =? 47 then Some 47
  else if e =? 98 then Some 8
  else if e =? 102 then Some 12
  else if e =? 110 then Some 10
  else if e =? 114 then Some 13
  else if e =? 116 then Some 9
  else None.

Definition is_hi_surrogate (n : Z) : bool := (55296 <=? n) && (n <=? 56319).
Definition is_lo_surrogate (n : Z) : bool := (56320 <=? n) && (n <=? 57343).

(** [parse_str] (validating) after the opening quote: the contents up to
    the closing quote and the input after it. *)
Fixpoint parse_str_chars (s : str) : option (str * str) :=
  match s with
  | [] => None
  | c :: t =>
      if c =? 34 then Some ([], t)
      else if c =? 92 then
        match t with
        | [] => None
        | e :: t1 =>
            if e =? 117 then
              match t1 with
              | h1 :: h2 :: h3 :: h4 :: t2 =>
                  match decode_hex4 h1 h2 h3 h4 with
                  | None => None
                  | Some n =>
                      if is_lo_surrogate n then None
                      else if is_hi_surrogate n then
                        match t2 with
                        | b :: u :: g1 :: g2 :: g3 :: g4 :: t3 =>
                            if (b =? 92) && (u =? 117) then
                              match decode_hex4 g1 g2 g3 g4 with
                              | Some n2 =>
                                  if is_lo_surrogate n2 then
                                    match parse_str_chars t3 with
                                    | Some (r, rest) =>
                                        Some ((n - 55296) * 1024 + (n2 - 56320) + 65536 :: r, rest)
                                    | None => None
                                    end
                                  else None
                              | None => None
                              end
                            else None
                        | _ => None
                        end
                      else
                        match parse_str_chars t2 with
                        | Some (r, rest) => Some (n :: r, rest)
                        | None => None
                        end
                  end
              | _ => None
              end
            else
              match simple_escape e with
              | Some c' =>
                  match parse_str_chars t1 with
                  | Some (r, rest) => Some (c' :: r, rest)
                  | None => None
                  end
              | None => None
              end
        end
      else if c <? 32 then None
      else
        match parse_str_chars t with
        | Some (r, rest) => Some (c :: r, rest)
        | None => None
        end
  end.

Definition i32_max : Z := 2 ^ 31 - 1.
Definition i32_min : Z := - 2 ^ 31.

(** [i32::saturating_add] and [saturating_sub]. *)
Definition saturate_i32 (z : Z) : Z := Z.max i32_min (Z.min i32_max z).

(** [significand as i64] and [i64::wrapping_neg]: two's complement. *)
Definition to_i64 (z : Z) : Z := let m := z mod 2 ^ 64 in if 2 ^ 63 <=? m then m - 2 ^ 64 else m.

(** [serde_json::de::ParserNumber]. *)
Inductive ParserNumber : Type :=
| F64 (f : Z)
| U64 (u : Z)
| I64 (i : Z).

(** [ParserNumber::visit] with [Value]'s visitor: [visit_f64] keeps a
    finite [f64] ([Number::from_f64]) and gives [Null] for the others. *)
Definition visit (n : ParserNumber) : Value :=
  match n with
  | F64 f => if F64.is_finite f then Float f else Null
  | U64 u => Number u
  | I64 i => Number i
  end.

(** [f64_from_parts] without [float_roundtrip]: [POW10] holds the literals
    [1e0] to [1e308].  An exponent below [-308] divides by [1e308] and
    adds 308 until it is inside the table, so [1 + |exponent| / 308]
    rounds are enough. *)
Fixpoint f64_from_parts_loop (fuel : nat) (f exponent : Z) : option Z :=
  match fuel with
  | O => None
  | S fuel =>
      if Z.abs exponent <=? 308 then
        if 0 <=? exponent then
          let f := F64.mul f (F64.lit_pow10 exponent) in
          if F64.is_infinite f then None else Some f
        else Some (F64.div f (F64.lit_pow10 (- exponent)))
      else if F64.is_zero f then Some f
      else if 0 <=? exponent then None
      else f64_from_parts_loop fuel (F64.div f (F64.lit_pow10 308)) (exponent + 308)
  end.

Definition f64_from_parts (positive : bool) (significand exponent : Z) : option Z :=
  match f64_from_parts_loop (S (Z.to_nat (- exponent / 308))) (F64.of_u64 significand) exponent with
  | Some f => Some (if positive then f else F64.neg f)
  | None => None
  end.

(** [f64_from_parts], then the rest of the input. *)
Definition from_parts_at (positive : bool) (significand exponent : Z) (s : str)
  : option (Z * str) :=
  match f64_from_parts positive significand exponent with
  | Some f => Some (f, s)
  | None => None
  end.

Fixpoint skip_digits (s : str) : str :=
  match s with
  | c :: t => if is_digit c then skip_digits t else s
  | [] => []
  end.

Definition is_exp_marker (c : char) : bool := (c =? 101) || (c =? 69).

(** [parse_exponent_overflow]: an error instead of an infinity, zero for
    a zero significand or a negative exponent. *)
Definition parse_exponent_overflow (positive zero_significand positive_exp : bool) (s : str)
  : option (Z * str) :=
  if negb zero_significand && positive_exp then None
  else Some (if positive then F64.zero else F64.neg F64.zero, skip_digits s).

(** The digit loop of [parse_exponent], then [f64_from_parts] with the
    saturated final exponent. *)
Definition exponent_end (positive : bool) (significand starting_exp : Z) (positive_exp : bool)
  (exp : Z) (s : str) : option (Z * str) :=
  from_parts_at positive significand
    (saturate_i32 (if positive_exp then starting_exp + exp else starting_exp - exp)) s.

Fixpoint parse_exponent_digits (positive : bool) (significand starting_exp : Z)
  (positive_exp : bool) (exp : Z) (s : str) : option (Z * str) :=
  match s with
  | c :: t =>
      if is_digit c then
        let digit := c - 48 in
        if i32_max <? exp * 10 + digit then
          parse_exponent_overflow positive (significand =? 0) positive_exp t
        else parse_exponent_digits positive significand starting_exp positive_exp (exp * 10 + digit) t
      else exponent_end positive significand starting_exp positive_exp exp s
  | [] => exponent_end positive significand starting_exp positive_exp exp []
  end.

(** [parse_exponent], at the [e] or [E]. *)
Definition parse_exponent (positive : bool) (significand starting_exp : Z) (s : str)
  : option (Z * str) :=
  let s := tl s in
  let '(positive_exp, s) :=
    match s with
    | c :: t => if c =? 43 then (true, t) else if c =? 45 then (false, t) else (true, s)
    | [] => (true, s)
    end in
  match s with
  | c :: t =>
      if is_digit c then parse_exponent_digits positive significand starting_exp positive_exp (c - 48) t
      else None
  | [] => None
  end.

(** [parse_decimal_overflow]: the digits that no longer fit are dropped. *)
Definition parse_decimal_overflow (positive : bool) (significand exponent : Z) (s : str)
  : option (Z * str) :=
  let s := skip_digits s in
  match s with
  | c :: _ =>
      if is_exp_marker c then parse_exponent positive significand exponent s
      else from_parts_at positive significand exponent s
  | [] => from_parts_at positive significand exponent []
  end.

(** The end of [parse_decimal]: at least one digit after the point. *)
Definition decimal_end (positive : bool) (significand exponent_before exponent_after : Z)
  (s : str) : option (Z * str) :=
  if exponent_after =? 0 then None
  else
    let exponent := exponent_before + exponent_after in
    match s with
    | c :: _ =>
        if is_exp_marker c then parse_exponent positive significand exponent s
        else from_parts_at positive significand exponent s
    | [] => from_parts_at positive significand exponent []
    end.

Fixpoint parse_decimal_digits (positive : bool) (significand exponent_before exponent_after : Z)
  (s : str) : option (Z * str) :=
  match s with
  | c :: t =>
      if is_digit c then
        let digit := c - 48 in
        if u64_max <? significand * 10 + digit then
          parse_decimal_overflow positive significand (exponent_before + exponent_after) s
        else parse_decimal_digits positive (significand * 10 + digit) exponent_before
               (exponent_after - 1) t
      else decimal_end positive significand exponent_before exponent_after s
  | [] => decimal_end positive significand exponent_before exponent_after []
  end.

(** [parse_decimal], at the [.]. *)
Definition parse_decimal (positive : bool) (significand exponent_before_decimal_point : Z)
  (s : str) : option (Z * str) :=
  parse_decimal_digits positive significand exponent_before_decimal_point 0 (tl s).

(** [parse_long_integer]: every further integer digit adds one to the
    exponent. *)
Fixpoint parse_long_integer_digits (positive : bool) (significand exponent : Z) (s : str)
  : option (Z * str) :=
  match s with
  | c :: t =>
      if is_digit c then parse_long_integer_digits positive significand (exponent + 1) t
      else if c =? 46 then parse_decimal positive significand exponent s
      else if is_exp_marker c then parse_exponent positive significand exponent s
      else from_parts_at positive significand exponent s
  | [] => from_parts_at positive significand exponent []
  end.

Definition parse_long_integer (positive : bool) (significand : Z) (s : str) : option (Z * str) :=
  parse_long_integer_digits positive significand 0 s.

Definition to_f64 (r : option (Z * str)) : option (ParserNumber * str) :=
  match r with
  | Some (f, t) => Some (F64 f, t)
  | None => None
  end.

(** [parse_number]: [.] and [e]/[E] go on as [f64]; a negative zero or a
    negative below [i64::MIN] becomes [-(significand as f64)]. *)
Definition parse_number (positive : bool) (significand : Z) (s : str)
  : option (ParserNumber * str) :=
  let int :=
    if positive then Some (U64 significand, s)
    else
      let neg := to_i64 (- to_i64 significand) in
      if 0 <=? neg then Some (F64 (F64.neg (F64.of_u64 significand)), s)
      else Some (I64 neg, s) in
  match s with
  | c :: _ =>
      if c =? 46 then to_f64 (parse_decimal positive significand 0 s)
      else if is_exp_marker c then to_f64 (parse_exponent positive significand 0 s)
      else int
  | [] => int
  end.

(** The digit loop of [parse_integer]; the digit that would overflow a
    [u64] switches to [parse_long_integer]. *)
Fixpoint parse_digits (positive : bool) (significand : Z) (s : str)
  : option (ParserNumber * str) :=
  match s with
  | c :: t =>
      if is_digit c then
        let digit := c - 48 in
        if u64_max <? significand * 10 + digit then
          to_f64 (parse_long_integer positive significand s)
        else parse_digits positive (significand * 10 + digit) t
      else parse_number positive significand s
  | [] => parse_number positive significand []
  end.

Definition parse_integer (positive : bool) (s : str) : option (ParserNumber * str) :=
  match s with
  | [] => None
  | c :: t =>
      if c =? 48 then
        match t with
        | d :: _ => if is_digit d then None else parse_number positive 0 t
        | [] => parse_number positive 0 t
        end
      else if (49 <=? c) && (c <=? 57) then parse_digits positive (c - 48) t
      else None
  end.

(** [ParserNumber::visit] of a parsed number. *)
Definition visit_number (r : option (ParserNumber * str)) : option (Value * str) :=
  match r with
  | Some (n, t) => Some (visit n, t)
  | None => None
  end.

(** [parse_ident]. *)
Definition parse_ident (ident : str) (v : Value) (s : str) : option (Value * str) :=
  if is_prefix ident s then Some (v, skipn (List.length ident) s) else None.

(** [deserialize_any] for [Value], with [remaining_depth] as [depth]: the
    [check_recursion!] macro fails when the decremented depth reaches 0.
    Each call spends one unit of [fuel]; every call but the first is made
    after at least one character has been consumed, so [length s + 1]
    never runs out. *)
Fixpoint parse_value (fuel depth : nat) (s : str) {struct fuel}
  : option (Value * str) :=
  match fuel with
  | O => None
  | S fuel =>
      match skip_ws s with
      | [] => None
      | c :: t =>
          if c =? 110 then parse_ident (s2l "ull") Null t
          else if c =? 116 then parse_ident (s2l "rue") (Bool true) t
          else if c =? 102 then parse_ident (s2l "alse") (Bool false) t
          else if c =? 45 then visit_number (parse_integer false t)
          else if is_digit c then visit_number (parse_integer true (c :: t))
          else if c =? 34 then
            match parse_str_chars t with
            | Some (x, r) => Some (String x, r)
            | None => None
            end
          else if c =? 91 then
            match depth with
            | S (S _ as depth) =>
                if starts_with 93 (skip_ws t) then Some (Array [], tl (skip_ws t))
                else
                  match parse_value fuel depth t with
                  | Some (x, r) =>
                      match parse_seq_rest fuel depth r with
                      | Some (xs, r') => Some (Array (x :: xs), r')
                      | None => None
                      end
                  | None => None
                  end
            | _ => None
            end
          else if c =? 123 then
            match depth with
            | S (S _ as depth) =>
                if starts_with 125 (skip_ws t) then Some (Object [], tl (skip_ws t))
                else
                  match parse_member fuel depth t with
                  | Some ((k, x), r) =>
                      match parse_map_rest fuel depth (map_insert k x []) r with
                      | Some (m, r') => Some (Object m, r')
                      | None => None
                      end
                  | None => None
                  end
            | _ => None
            end
          else None
      end
  end
(** [SeqAccess::next_element_seed] after an element, then [end_seq]; a
    trailing comma fails in [parse_value] on the [']']. *)
with parse_seq_rest (fuel depth : nat) (s : str) {struct fuel}
  : option (list Value * str) :=
  match fuel with
  | O => None
  | S fuel =>
      match skip_ws s with
      | [] => None
      | c :: t =>
          if c =? 93 then Some ([], t)
          else if c =? 44 then
            match parse_value fuel depth t with
            | Some (x, r) =>
                match parse_seq_rest fuel depth r with
                | Some (xs, r') => Some (x :: xs, r')
                | None => None
                end
            | None => None
            end
          else None
      end
  end
(** [MapAccess::next_key_seed], [parse_object_colon], [next_value_seed]. *)
with parse_member (fuel depth : nat) (s : str) {struct fuel}
  : option ((str * Value) * str) :=
  match fuel with
  | O => None
  | S fuel =>
      match skip_ws s with
      | c :: t =>
          if c =? 34 then
            match parse_str_chars t with
            | Some (k, r) =>
                match skip_ws r with
                | d :: r1 =>
                    if d =? 58 then
                      match parse_value fuel depth r1 with
                      | Some (x, r2) => Some ((k, x), r2)
                      | None => None
                      end
                    else None
                | [] => None
                end
            | None => None
            end
          else None
      | [] => None
      end
  end
(** The [visit_map] loop of [Value]'s visitor: [map.insert(key, value)]
    for every entry, then [end_map]. *)
with parse_map_rest (fuel depth : nat) (acc : list (str * Value)) (s : str)
  {struct fuel} : option (list (str * Value) * str) :=
  match fuel with
  | O => None
  | S fuel =>
      match skip_ws s with
      | [] => None
      | c :: t =>
          if c =? 125 then Some (acc, t)
          else if c =? 44 then
            match parse_member fuel depth t with
            | Some ((k, x), r) => parse_map_rest fuel depth (map_insert k x acc) r
            | None => None
            end
          else None
      end
  end.

(** [serde_json::from_str::<Value>]: [remaining_depth] starts at 128 and
    [Deserializer::end] allows trailing whitespace only. *)
Definition from_str (s : str) : option Value :=
  match parse_value (S (List.length s)) 128 s with
  | Some (v, rest) => if is_nil (skip_ws rest) then Some v else None
  | None => None
  end.

Definition to_string (v : Value) : str := to_json CompactFormatter 0 v.
Definition to_string_pretty (v : Value) : str := to_json PrettyFormatter 0 v.

End Json.

(** ** streaming/ndjson.rs *)

Module Ndjson.
Import Json.

(** [parse_ndjson_line]. *)
Definition parse_ndjson_line (line : str) : option Value :=
  let trimmed := trim line in
  if is_empty trimmed then None
  else if negb (starts_with 123 trimmed) && negb (starts_with 91 trimmed) then None
  else from_str trimmed.

(** [stringify_ndjson_line]; [unwrap_or_default] never fires, serializing
    a [Value] does not fail. *)
Definition stringify_ndjson_line (value : Value) (compact : bool) : str :=
  if is_null value then []
  else
    let json := if compact then to_string value else to_string_pretty value in
    json ++ [10].

(** [parse_ndjson]: [data.lines().filter_map(parse_ndjson_line)]. *)
Definition parse_ndjson (data : str) : list Value :=
  fold_right (fun l acc => match parse_ndjson_line l with
                           | Some v => v :: acc
                           | None => acc
                           end) [] (lines data).

(** [stringify_ndjson]. *)
Definition stringify_ndjson (values : list Value) (compact : bool) : str :=
  List.concat (map (fun v => stringify_ndjson_line v compact) values).

End Ndjson.

(** ** streaming/output_stream.rs *)

Module OutputStream.
Import Json Ndjson.

Record ParseError := { line : str; line_number : nat }.

(** [JsonOutputStream].  The [on_message], [on_error] and [on_raw_line]
    observers are [Fn] closures called with shared references: they
    cannot reach the stream, so they are left out of its state. *)
Record JsonOutputStream := {
  buffer : str;
  messages : list Value;
  errors : list ParseError;
  line_count : nat
}.

Definition new : JsonOutputStream :=
  {| buffer := []; messages := []; errors := []; line_count := 0 |}.

Definition set_buffer (st : JsonOutputStream) (b : str) : JsonOutputStream :=
  {| buffer := b; messages := messages st; errors := errors st;
     line_count := line_count st |}.

(** The body of the [for line in complete_lines] loop of [process], which
    [flush] repeats for its one line: bump [line_count], then keep the
    parsed message, or record a [ParseError] when the trimmed line starts
    with ['{']. *)
Definition process_line (st : JsonOutputStream) (l : str)
  : JsonOutputStream * option Value :=
  let n := S (line_count st) in
  match parse_ndjson_line l with
  | Some parsed =>
      ({| buffer := buffer st; messages := messages st ++ [parsed];
          errors := errors st; line_count := n |}, Some parsed)
  | None =>
      if starts_with 123 (trim l) then
        ({| buffer := buffer st; messages := messages st;
            errors := errors st ++ [{| line := l; line_number := n |}];
            line_count := n |}, None)
      else
        ({| buffer := buffer st; messages := messages st;
            errors := errors st; line_count := n |}, None)
  end.

Definition option_to_list {A : Type} (o : option A) : list A :=
  match o with Some x => [x] | None => [] end.

Fixpoint process_lines (st : JsonOutputStream) (ls : list str)
  : JsonOutputStream * list Value :=
  match ls with
  | [] => (st, [])
  | l :: ls' =>
      let (st1, o) := process_line st l in
      let (st2, ms) := process_lines st1 ls' in
      (st2, option_to_list o ++ ms)
  end.

(** [process]: [split_at(len - 1)] on the pieces of the buffer. *)
Definition process (st : JsonOutputStream) (chunk : str)
  : JsonOutputStream * list Value :=
  let ls := split_char 10 (buffer st ++ chunk) in
  let complete_lines := firstn (List.length ls - 1) ls in
  let last := skipn (List.length ls - 1) ls in
  process_lines (set_buffer st (hd [] last)) complete_lines.

(** [flush]. *)
Definition flush (st : JsonOutputStream) : JsonOutputStream * list Value :=
  if is_empty (trim (buffer st)) then (st, [])
  else
    let l := buffer st in
    let (st', o) := process_line (set_buffer st []) l in
    (st', option_to_list o).

Definition get_messages (st : JsonOutputStream) : list Value := messages st.
Definition get_errors (st : JsonOutputStream) : list ParseError := errors st.

(** [reset]. *)
Definition reset (st : JsonOutputStream) : JsonOutputStream := new.

(** A call on the stream, and a run of calls with what each returned. *)
Inductive Call := Process (chunk : str) | Flush.

Definition call (st : JsonOutputStream) (c : Call) : JsonOutputStream * list Value :=
  match c with Process chunk => process st chunk | Flush => flush st end.

Fixpoint run (st : JsonOutputStream) (cs : list Call)
  : JsonOutputStream * list (list Value) :=
  match cs with
  | [] => (st, [])
  | c :: cs' =>
      let (st1, ms) := call st c in
      let (st2, mss) := run st1 cs' in
      (st2, ms :: mss)
  end.

Fixpoint process_chunks (st : JsonOutputStream) (chunks : list str)
  : JsonOutputStream * list Value :=
  match chunks with
  | [] => (st, [])
  | c :: cs =>
      let (st1, ms) := process st c in
      let (st2, ms') := process_chunks st1 cs in
      (st2, ms ++ ms')
  end.

End OutputStream.

(** ** executor.rs and lib.rs: the process executor and the controller *)

(** [Result<T, E>]. *)
Inductive result (A E : Type) : Type := Ok (a : A) | Err (e : E).
Arguments Ok {A E} a.
Arguments Err {A E} e.

Definition unwrap_or {A : Type} (o : option A) (d : A) : A :=
  match o with Some x => x | None => d end.

(** What the process's side of the world records: every command handed to
    [bash -c], and the lines written by [println!] and [eprintln!]. *)
Record World := { spawned : list str; out_log : list str; err_log : list str }.

Definition println (w : World) (l : str) : World :=
  {| spawned := spawned w; out_log := out_log w ++ [l]; err_log := err_log w |}.
Definition eprintln (w : World) (l : str) : World :=
  {| spawned := spawned w; out_log := out_log w; err_log := err_log w ++ [l] |}.
Definition record_spawn (w : World) (cmd : str) : World :=
  {| spawned := spawned w ++ [cmd]; out_log := out_log w; err_log := err_log w |}.

(** What a spawned [bash -c command] does, as seen through its pipes.
    [BufReader::lines] on its stdout yields [out_lines]; the next
    [next_line().await] then gives end of file, or fails with the
    [io::Error] [out_error] (a line that is not UTF-8 gives
    [InvalidData]); [err_lines] and [err_error] are the same for stderr.
    [stalls]: the child fills the stderr pipe while its stdout is still
    open, so reading stdout to the end never returns.  [wait_error] is an
    error of [child.wait()], and [status_code] is [status.code()] ([None]
    when killed by a signal). *)
Record ChildBehaviour := {
  out_lines : list str;
  out_error : option str;
  err_lines : list str;
  err_error : option str;
  stalls : bool;
  wait_error : option str;
  status_code : option Z
}.

(** The [io::Error] that ends draining the child in [execute_command] and
    [wait_for_exit], if any: the first of the stdout read, the stderr read
    and the wait. *)
Definition read_error (b : ChildBehaviour) : option str :=
  match out_error b with
  | Some e => Some e
  | None => match err_error b with Some e => Some e | None => wait_error b end
  end.

(** [tokio::process::Child]: the command it runs, its pipes not yet read. *)
Record Child := { child_command : str }.

Module ExecutionResult.
Record t := { exit_code : Z; stdout : str; stderr : str; command : str }.
End ExecutionResult.

Module ProcessHandle.
Record t := {
  command : str;
  child : option Child;
  stdout : str;
  stderr : str;
  exit_code : option Z
}.

(** [ProcessHandle::new]. *)
Definition new (command : str) (child : Child) : t :=
  {| command := command; child := Some child; stdout := []; stderr := [];
     exit_code := None |}.

(** [get_output]. *)
Definition get_output (h : t) : str * str * option Z := (stdout h, stderr h, exit_code h).

(** [has_exited]. *)
Definition has_exited (h : t) : bool :=
  match exit_code h with Some _ => true | None => false end.
End ProcessHandle.

Module AgentOptions.
Record t := {
  tool : str;
  working_directory : str;
  prompt : option str;
  system_prompt : option str;
  model : option str;
  isolation : str;
  screen_name : option str;
  container_name : option str;
  json : bool;
  resume : option str
}.
End AgentOptions.

Module AgentCommandOptions.
Record t := {
  tool : str;
  working_directory : str;
  prompt : option str;
  system_prompt : option str;
  model : option str;
  json : bool;
  resume : option str;
  isolation : str;
  screen_name : option str;
  container_name : option str;
  detached : bool
}.
End AgentCommandOptions.

Module AgentResult.
Record t := {
  exit_code : Z;
  plain_output : str;
  parsed_output : option (list Json.Value);
  session_id : option str
}.
Definition default : t :=
  {| exit_code := 0; plain_output := []; parsed_output := None; session_id := None |}.
End AgentResult.

Module AgentStartOptions.
Record t := { dry_run : bool; detached : bool; attached : bool }.
End AgentStartOptions.

Module AgentStopOptions.
Record t := { dry_run : bool }.
End AgentStopOptions.

(** The controller: [struct Agent]. *)
Record Agent := {
  options : AgentOptions.t;
  process_handle : option ProcessHandle.t;
  output_stream : option OutputStream.JsonOutputStream;
  session_id : option str
}.

(** [build_screen_stop_command]. *)
Definition build_screen_stop_command (screen_name : str) : str :=
  s2l "screen -S " ++ [34] ++ screen_name ++ [34] ++ s2l " -X quit".

(** [build_docker_stop_command]. *)
Definition build_docker_stop_command (container_name : str) : str :=
  s2l "docker stop " ++ [34] ++ container_name ++ [34] ++ s2l " && docker rm "
  ++ [34] ++ container_name ++ [34].

(** [tools::is_tool_supported]. *)
Definition is_tool_supported (tool_name : str) : bool :=
  existsb (str_eqb tool_name)
    [s2l "claude"; s2l "codex"; s2l "opencode"; s2l "agent"; s2l "gemini"].

(** [Option::is_some]. *)
Definition is_some {A : Type} (o : option A) : bool :=
  match o with Some _ => true | None => false end.

(** [Agent::new]. *)
Definition agent_new (options : AgentOptions.t) : result Agent str :=
  if is_empty (AgentOptions.tool options) then Err (s2l "tool is required")
  else if is_empty (AgentOptions.working_directory options) then
    Err (s2l "working_directory is required")
  else if str_eqb (AgentOptions.isolation options) (s2l "screen")
          && negb (is_some (AgentOptions.screen_name options)) then
    Err (s2l "screen_name is required for screen isolation")
  else if str_eqb (AgentOptions.isolation options) (s2l "docker")
          && negb (is_some (AgentOptions.container_name options)) then
    Err (s2l "container_name is required for docker isolation")
  else Ok {| options := options; process_handle := None; output_stream := None;
             session_id := None |}.

Section Controller.

(** The environment: what each spawned command does, the [io::Error] (as
    its message) with which spawning [bash] fails, if it does, the tool
    command builder ([build_agent_command]), and the per-tool
    [extract_session_id] of [tools::<tool>]. *)
Variable behaviour : str -> ChildBehaviour.
Variable spawn_error : str -> option str.
Variable build_agent_command : AgentCommandOptions.t -> str.
Variable extract_session_id : str -> str -> option str.

(** [Command::new("bash").arg("-c").arg(command)...spawn()?]. *)
Definition spawn (command : str) (w : World) : result Child str * World :=
  match spawn_error command with
  | Some e => (Err e, w)
  | None => (Ok {| child_command := command |}, record_spawn w command)
  end.

(** [while let Some(line) = reader.next_line().await? { acc.push_str(&line); acc.push('\n'); }]. *)
Definition read_lines (ls : list str) : str :=
  List.concat (map (fun l => l ++ [10]) ls).

Definition dry_run_banner : str := s2l "Dry run - command that would be executed:".

(** [execute_command]; [None] when it never returns. *)
Definition execute_command (command : str) (dry_run attached : bool) (w : World)
  : option (result ExecutionResult.t str * World) :=
  if dry_run then
    Some (Ok {| ExecutionResult.exit_code := 0; ExecutionResult.stdout := [];
                ExecutionResult.stderr := []; ExecutionResult.command := command |},
          println (println w dry_run_banner) command)
  else
    match spawn command w with
    | (Err e, w1) => Some (Err e, w1)
    | (Ok ch, w1) =>
        let b := behaviour (child_command ch) in
        if stalls b then None
        else
          let w2 := if attached then fold_left println (out_lines b) w1 else w1 in
          match out_error b with
          | Some e => Some (Err e, w2)
          | None =>
              let w3 := if attached then fold_left eprintln (err_lines b) w2 else w2 in
              match err_error b with
              | Some e => Some (Err e, w3)
              | None =>
                  match wait_error b with
                  | Some e => Some (Err e, w3)
                  | None =>
                      Some (Ok {| ExecutionResult.exit_code := unwrap_or (status_code b) 1;
                                  ExecutionResult.stdout := read_lines (out_lines b);
                                  ExecutionResult.stderr := read_lines (err_lines b);
                                  ExecutionResult.command := command |}, w3)
                  end
              end
          end
    end.

(** [ProcessHandle::wait_for_exit]; [None] when it never returns.  The
    child is taken first, so after an error the handle has neither a
    child nor an exit code, and keeps the lines read so far. *)
Definition wait_for_exit (h : ProcessHandle.t) : option (result Z str * ProcessHandle.t) :=
  match ProcessHandle.exit_code h with
  | Some c => Some (Ok c, h)
  | None =>
      match ProcessHandle.child h with
      | Some ch =>
          let b := behaviour (child_command ch) in
          if stalls b then None
          else
            let h1 := {| ProcessHandle.command := ProcessHandle.command h;
                         ProcessHandle.child := None;
                         ProcessHandle.stdout := ProcessHandle.stdout h ++ read_lines (out_lines b);
                         ProcessHandle.stderr := ProcessHandle.stderr h;
                         ProcessHandle.exit_code := None |} in
            match out_error b with
            | Some e => Some (Err e, h1)
            | None =>
                let h2 := {| ProcessHandle.command := ProcessHandle.command h1;
                             ProcessHandle.child := None;
                             ProcessHandle.stdout := ProcessHandle.stdout h1;
                             ProcessHandle.stderr := ProcessHandle.stderr h1 ++ read_lines (err_lines b);
                             ProcessHandle.exit_code := None |} in
                match err_error b with
                | Some e => Some (Err e, h2)
                | None =>
                    match wait_error b with
                    | Some e => Some (Err e, h2)
                    | None =>
                        let h3 := {| ProcessHandle.command := ProcessHandle.command h2;
                                     ProcessHandle.child := None;
                                     ProcessHandle.stdout := ProcessHandle.stdout h2;
                                     ProcessHandle.stderr := ProcessHandle.stderr h2;
                                     ProcessHandle.exit_code := Some (unwrap_or (status_code b) 1) |} in
                        Some (Ok (unwrap_or (ProcessHandle.exit_code h3) 1), h3)
                    end
                end
            end
      | None => Some (Ok (unwrap_or (ProcessHandle.exit_code h) 1), h)
      end
  end.

(** [start_command]. *)
Definition start_command (command : str) (attached : bool) (w : World)
  : result ProcessHandle.t str * World :=
  match spawn command w with
  | (Ok ch, w1) => (Ok (ProcessHandle.new command ch), w1)
  | (Err e, w1) => (Err e, w1)
  end.

(** [execute_detached]: [child.id()] is the process number. *)
Definition execute_detached (command : str) (w : World) : result (option Z) str * World :=
  match spawn command w with
  | (Ok _, w1) => (Ok (Some (Z.of_nat (List.length (spawned w)))), w1)
  | (Err e, w1) => (Err e, w1)
  end.

Definition set_output_stream (a : Agent) (o : option OutputStream.JsonOutputStream) : Agent :=
  {| options := options a; process_handle := process_handle a;
     output_stream := o; session_id := session_id a |}.
Definition set_process_handle (a : Agent) (o : option ProcessHandle.t) : Agent :=
  {| options := options a; process_handle := o;
     output_stream := output_stream a; session_id := session_id a |}.
Definition set_session_id (a : Agent) (o : option str) : Agent :=
  {| options := options a; process_handle := process_handle a;
     output_stream := output_stream a; session_id := o |}.

(** [Agent::start]. *)
Definition start (a : Agent) (so : AgentStartOptions.t) (w : World)
  : result unit str * Agent * World :=
  let o := options a in
  let a := if AgentOptions.json o then set_output_stream a (Some OutputStream.new) else a in
  let command_options :=
    {| AgentCommandOptions.tool := AgentOptions.tool o;
       AgentCommandOptions.working_directory := AgentOptions.working_directory o;
       AgentCommandOptions.prompt := AgentOptions.prompt o;
       AgentCommandOptions.system_prompt := AgentOptions.system_prompt o;
       AgentCommandOptions.model := AgentOptions.model o;
       AgentCommandOptions.json := AgentOptions.json o;
       AgentCommandOptions.resume := AgentOptions.resume o;
       AgentCommandOptions.isolation := AgentOptions.isolation o;
       AgentCommandOptions.screen_name := AgentOptions.screen_name o;
       AgentCommandOptions.container_name := AgentOptions.container_name o;
       AgentCommandOptions.detached := AgentStartOptions.detached so |} in
  let command := build_agent_command command_options in
  if AgentStartOptions.dry_run so then
    (Ok tt, a, println (println w dry_run_banner) command)
  else if AgentStartOptions.detached so then
    match execute_detached command w with
    | (Err e, w1) => (Err e, a, w1)
    | (Ok _, w1) =>
        let w2 := println w1 (s2l "Agent started in detached mode") in
        let w3 :=
          if str_eqb (AgentOptions.isolation o) (s2l "screen") then
            match AgentOptions.screen_name o with
            | Some name => println w2 (s2l "Screen session: " ++ name)
            | None => w2
            end
          else if str_eqb (AgentOptions.isolation o) (s2l "docker") then
            match AgentOptions.container_name o with
            | Some name => println w2 (s2l "Container: " ++ name)
            | None => w2
            end
          else w2 in
        (Ok tt, a, w3)
    end
  else
    match start_command command (AgentStartOptions.attached so) w with
    | (Err e, w1) => (Err e, a, w1)
    | (Ok handle, w1) => (Ok tt, set_process_handle a (Some handle), w1)
    end.

(** [Agent::stop].  In isolation mode none the handle is borrowed with
    [as_mut()]: it stays in [process_handle].  [None] when it never
    returns. *)
Definition stop (a : Agent) (so : AgentStopOptions.t) (w : World)
  : option (result AgentResult.t str * Agent * World) :=
  let o := options a in
  let iso := AgentOptions.isolation o in
  if str_eqb iso (s2l "screen") || str_eqb iso (s2l "docker") then
    let stop_command :=
      if str_eqb iso (s2l "screen") then
        match AgentOptions.screen_name o with
        | Some n => Ok (build_screen_stop_command n)
        | None => Err (s2l "screen_name is required to stop screen session")
        end
      else
        match AgentOptions.container_name o with
        | Some n => Ok (build_docker_stop_command n)
        | None => Err (s2l "container_name is required to stop docker container")
        end in
    match stop_command with
    | Err e => Some (Err e, a, w)
    | Ok stop_command =>
        if AgentStopOptions.dry_run so then
          Some (Ok AgentResult.default, a, println (println w dry_run_banner) stop_command)
        else
          match execute_command stop_command false true w with
          | None => None
          | Some (Err e, w1) => Some (Err e, a, w1)
          | Some (Ok r, w1) =>
              Some (Ok {| AgentResult.exit_code := ExecutionResult.exit_code r;
                          AgentResult.plain_output := ExecutionResult.stdout r;
                          AgentResult.parsed_output := None;
                          AgentResult.session_id := None |}, a, w1)
          end
    end
  else if str_eqb iso (s2l "none") || is_empty iso then
    match process_handle a with
    | None => Some (Err (s2l "Agent not started or already stopped"), a, w)
    | Some handle =>
        match wait_for_exit handle with
        | None => None
        | Some (r, handle) =>
        let a := set_process_handle a (Some handle) in
        match r with
        | Err e => Some (Err e, a, w)
        | Ok exit_code =>
            let '(stdout, stderr, _) := ProcessHandle.get_output handle in
            let plain_output :=
              if is_empty stderr then stdout else stdout ++ [10] ++ stderr in
            let '(a, parsed_output) :=
              match output_stream a with
              | Some stream =>
                  let stream := fst (OutputStream.process stream stdout) in
                  let stream := fst (OutputStream.flush stream) in
                  let messages := OutputStream.get_messages stream in
                  (set_output_stream a (Some stream),
                   if Json.is_nil messages then None else Some messages)
              | None => (a, None)
              end in
            let tool := AgentOptions.tool o in
            let a :=
              if is_tool_supported tool then
                if existsb (str_eqb tool)
                     [s2l "claude"; s2l "codex"; s2l "opencode"; s2l "agent"]
                then set_session_id a (extract_session_id tool plain_output)
                else a
              else a in
            Some (Ok {| AgentResult.exit_code := exit_code;
                        AgentResult.plain_output := plain_output;
                        AgentResult.parsed_output := parsed_output;
                        AgentResult.session_id := session_id a |}, a, w)
        end
        end
    end
  else Some (Err (s2l "Unsupported isolation mode: " ++ iso), a, w).

End Controller.

(** ** cli_parser.rs *)

Module CliParser.

(** [HashMap<String, String>]: only [get], [insert] and [contains_key] are
    used on it, so an association list without repeated keys stands for
    it; [insert] replaces the value of a present key. *)
Definition Map := list (str * str).

Definition map_get (m : Map) (k : str) : option str :=
  match find (fun kv => str_eqb (fst kv) k) m with
  | Some kv => Some (snd kv)
  | None => None
  end.

Definition map_insert (k v : str) (m : Map) : Map :=
  (k, v) :: filter (fun kv => negb (str_eqb (fst kv) k)) m.

Definition contains_key (m : Map) (k : str) : bool := is_some (map_get m k).

(** [ParsedArgs]. *)
Record ParsedArgs := { options : Map; flags : list str; positional : list str }.

Definition default : ParsedArgs := {| options := []; flags := []; positional := [] |}.

(** [ParsedArgs::get], [has_flag] and [get_bool]. *)
Definition get (p : ParsedArgs) (key : str) : option str := map_get (options p) key.

Definition has_flag (p : ParsedArgs) (key : str) : bool :=
  existsb (fun f => str_eqb f key) (flags p) || contains_key (options p) key.

Definition get_bool (p : ParsedArgs) (key : str) : bool := has_flag p key.

(** [str::trim_start_matches("--")]: every leading ["--"] is removed. *)
Fixpoint trim_start_matches (s : str) : str :=
  match s with
  | 45 :: 45 :: s' => trim_start_matches s'
  | _ => s
  end.

Definition dashes : str := s2l "--".

Definition insert_option (p : ParsedArgs) (k v : str) : ParsedArgs :=
  {| options := map_insert k v (options p); flags := flags p; positional := positional p |}.
Definition push_flag (p : ParsedArgs) (k : str) : ParsedArgs :=
  {| options := options p; flags := flags p ++ [k]; positional := positional p |}.
Definition push_positional (p : ParsedArgs) (a : str) : ParsedArgs :=
  {| options := options p; flags := flags p; positional := positional p ++ [a] |}.

(** The [while i < args.len()] loop of [parse_args], from index [i] on:
    [args] is the suffix still to read. *)
Fixpoint parse_args_from (args : list str) (parsed : ParsedArgs) : ParsedArgs :=
  match args with
  | [] => parsed
  | arg :: rest =>
      if is_prefix dashes arg then
        let key := trim_start_matches arg in
        match rest with
        | next :: rest' =>
            if negb (is_prefix dashes next) then
              parse_args_from rest' (insert_option parsed key next)
            else parse_args_from rest (push_flag parsed key)
        | [] => parse_args_from rest (push_flag parsed key)
        end
      else parse_args_from rest (push_positional parsed arg)
  end.

(** [parse_args]. *)
Definition parse_args (args : list str) : ParsedArgs := parse_args_from args default.

Module StartAgentOptions.
Record t := {
  tool : option str;
  working_directory : option str;
  prompt : option str;
  system_prompt : option str;
  append_system_prompt : option str;
  model : option str;
  fallback_model : option str;
  verbose : bool;
  replay_user_messages : bool;
  resume : option str;
  session_id : option str;
  fork_session : bool;
  isolation : str;
  screen_name : option str;
  container_name : option str;
  dry_run : bool;
  detached : bool;
  attached : bool;
  help : bool
}.
End StartAgentOptions.

Module StopAgentOptions.
Record t := {
  isolation : option str;
  screen_name : option str;
  container_name : option str;
  dry_run : bool;
  help : bool
}.
End StopAgentOptions.

(** [parse_start_agent_args]. *)
Definition parse_start_agent_args (args : list str) : StartAgentOptions.t :=
  let parsed := parse_args args in
  let detached := get_bool parsed (s2l "detached") in
  let isolation := unwrap_or (get parsed (s2l "isolation")) (s2l "none") in
  {| StartAgentOptions.tool := get parsed (s2l "tool");
     StartAgentOptions.working_directory := get parsed (s2l "working-directory");
     StartAgentOptions.prompt := get parsed (s2l "prompt");
     StartAgentOptions.system_prompt := get parsed (s2l "system-prompt");
     StartAgentOptions.append_system_prompt := get parsed (s2l "append-system-prompt");
     StartAgentOptions.model := get parsed (s2l "model");
     StartAgentOptions.fallback_model := get parsed (s2l "fallback-model");
     StartAgentOptions.verbose := get_bool parsed (s2l "verbose");
     StartAgentOptions.replay_user_messages := get_bool parsed (s2l "replay-user-messages");
     StartAgentOptions.resume := get parsed (s2l "resume");
     StartAgentOptions.session_id := get parsed (s2l "session-id");
     StartAgentOptions.fork_session := get_bool parsed (s2l "fork-session");
     StartAgentOptions.isolation := isolation;
     StartAgentOptions.screen_name := get parsed (s2l "screen-name");
     StartAgentOptions.container_name := get parsed (s2l "container-name");
     StartAgentOptions.dry_run := get_bool parsed (s2l "dry-run");
     StartAgentOptions.detached := detached;
     StartAgentOptions.attached := negb detached;
     StartAgentOptions.help := get_bool parsed (s2l "help") || get_bool parsed (s2l "h") |}.

(** [parse_stop_agent_args]. *)
Definition parse_stop_agent_args (args : list str) : StopAgentOptions.t :=
  let parsed := parse_args args in
  {| StopAgentOptions.isolation := get parsed (s2l "isolation");
     StopAgentOptions.screen_name := get parsed (s2l "screen-name");
     StopAgentOptions.container_name := get parsed (s2l "container-name");
     StopAgentOptions.dry_run := get_bool parsed (s2l "dry-run");
     StopAgentOptions.help := get_bool parsed (s2l "help") || get_bool parsed (s2l "h") |}.

(** [ValidationResult]. *)
Record ValidationResult := { valid : bool; errors : list str }.

(** [if cond { errors.push(msg) }]. *)
Definition push_if (cond : bool) (msg : str) : list str := if cond then [msg] else [].

(** [validate_start_agent_options]. *)
Definition validate_start_agent_options (o : StartAgentOptions.t) : ValidationResult :=
  let iso := StartAgentOptions.isolation o in
  let errors :=
    push_if (negb (is_some (StartAgentOptions.tool o))) (s2l "--tool is required")
    ++ push_if (negb (is_some (StartAgentOptions.working_directory o)))
         (s2l "--working-directory is required")
    ++ push_if (str_eqb iso (s2l "screen") && negb (is_some (StartAgentOptions.screen_name o)))
         (s2l "--screen-name is required for screen isolation")
    ++ push_if (str_eqb iso (s2l "docker") && negb (is_some (StartAgentOptions.container_name o)))
         (s2l "--container-name is required for docker isolation")
    ++ push_if (negb (existsb (fun m => str_eqb m iso) [s2l "none"; s2l "screen"; s2l "docker"]))
         (s2l "--isolation must be one of: none, screen, docker") in
  {| valid := Json.is_nil errors; errors := errors |}.

(** [validate_stop_agent_options]. *)
Definition validate_stop_agent_options (o : StopAgentOptions.t) : ValidationResult :=
  let errors :=
    match StopAgentOptions.isolation o with
    | None => [s2l "--isolation is required"]
    | Some iso =>
        push_if (negb (existsb (fun m => str_eqb m iso) [s2l "screen"; s2l "docker"]))
          (s2l "--isolation must be one of: screen, docker")
        ++ push_if (str_eqb iso (s2l "screen") && negb (is_some (StopAgentOptions.screen_name o)))
             (s2l "--screen-name is required for screen isolation")
        ++ push_if (str_eqb iso (s2l "docker") && negb (is_some (StopAgentOptions.container_name o)))
             (s2l "--container-name is required for docker isolation")
    end in
  {| valid := Json.is_nil errors; errors := errors |}.

(** The text of the raw string literals of [show_start_agent_help] and
    [show_stop_agent_help]; in the Rocq literal a [`] stands for a double
    quote, which the help text holds and the literal cannot. *)
Definition dq_text (s : String.string) : str :=
  map (fun c => if c =? 96 then 34 else c) (s2l s).

Definition start_agent_help : str :=
  dq_text "
Usage: start-agent [options]

Options:
  --tool <name>                    CLI tool to use (e.g., 'claude') [required]
  --working-directory <path>       Working directory for the agent [required]
  --prompt <text>                  Prompt for the agent
  --system-prompt <text>           System prompt for the agent
  --append-system-prompt <text>    Append to the default system prompt
  --model <model>                  Model to use (e.g., 'sonnet', 'opus', 'haiku')
  --fallback-model <model>         Fallback model when default is overloaded
  --verbose                        Enable verbose mode
  --resume <sessionId>             Resume a previous session by ID
  --session-id <uuid>              Use a specific session ID (must be valid UUID)
  --fork-session                   Create new session ID when resuming
  --replay-user-messages           Re-emit user messages on stdout (streaming mode)
  --isolation <mode>               Isolation mode: none, screen, docker (default: none)
  --screen-name <name>             Screen session name (required for screen isolation)
  --container-name <name>          Container name (required for docker isolation)
  --detached                       Run in detached mode
  --dry-run                        Show command without executing
  --help, -h                       Show this help message

Examples:
  # Basic usage (no isolation)
  start-agent --tool claude --working-directory `/tmp/dir` --prompt `Hello`

  # With model selection
  start-agent --tool claude --working-directory `/tmp/dir` \
    --prompt `Hello` --model opus --fallback-model sonnet

  # Resume a session with fork
  start-agent --tool claude --working-directory `/tmp/dir` \
    --resume abc123 --fork-session

  # With screen isolation (detached)
  start-agent --tool claude --working-directory `/tmp/dir` \
    --isolation screen --screen-name my-agent --detached

  # With docker isolation (attached)
  start-agent --tool claude --working-directory `/tmp/dir` \
    --isolation docker --container-name my-container

  # Dry run
  start-agent --tool claude --working-directory `/tmp/dir` --dry-run
".

Definition stop_agent_help : str :=
  dq_text "
Usage: stop-agent [options]

Options:
  --isolation <mode>               Isolation mode: screen, docker [required]
  --screen-name <name>             Screen session name (required for screen isolation)
  --container-name <name>          Container name (required for docker isolation)
  --dry-run                        Show command without executing
  --help, -h                       Show this help message

Examples:
  # Stop screen session
  stop-agent --isolation screen --screen-name my-agent

  # Stop docker container
  stop-agent --isolation docker --container-name my-container

  # Dry run
  stop-agent --isolation screen --screen-name my-agent --dry-run
".

(** [show_start_agent_help] and [show_stop_agent_help]. *)
Definition show_start_agent_help (w : World) : World := println w start_agent_help.
Definition show_stop_agent_help (w : World) : World := println w stop_agent_help.

(** The report of an invalid option set in both binaries. *)
Definition report_invalid (bin : str) (v : ValidationResult) (w : World) : World :=
  let w := eprintln w (s2l "Error: Invalid options" ++ [10]) in
  let w := fold_left (fun w e => eprintln w (s2l "  - " ++ e)) (errors v) w in
  eprintln w ([10] ++ s2l "Run " ++ [34] ++ bin ++ s2l " --help" ++ [34]
              ++ s2l " for usage information.").

(** The [AgentOptions] built by [start-agent]'s [main]
    ([..Default::default()] for the rest). *)
Definition start_agent_options (o : StartAgentOptions.t) : AgentOptions.t :=
  {| AgentOptions.tool := unwrap_or (StartAgentOptions.tool o) [];
     AgentOptions.working_directory := unwrap_or (StartAgentOptions.working_directory o) [];
     AgentOptions.prompt := StartAgentOptions.prompt o;
     AgentOptions.system_prompt := StartAgentOptions.system_prompt o;
     AgentOptions.model := None;
     AgentOptions.isolation := StartAgentOptions.isolation o;
     AgentOptions.screen_name := StartAgentOptions.screen_name o;
     AgentOptions.container_name := StartAgentOptions.container_name o;
     AgentOptions.json := false;
     AgentOptions.resume := None |}.

(** The [AgentOptions] built by [stop-agent]'s [main]. *)
Definition stop_agent_options (o : StopAgentOptions.t) : AgentOptions.t :=
  {| AgentOptions.tool := s2l "dummy";
     AgentOptions.working_directory := s2l "/tmp";
     AgentOptions.prompt := None;
     AgentOptions.system_prompt := None;
     AgentOptions.model := None;
     AgentOptions.isolation := unwrap_or (StopAgentOptions.isolation o) [];
     AgentOptions.screen_name := StopAgentOptions.screen_name o;
     AgentOptions.container_name := StopAgentOptions.container_name o;
     AgentOptions.json := false;
     AgentOptions.resume := None |}.

Section Main.
Variable behaviour : str -> ChildBehaviour.
Variable spawn_error : str -> option str.
Variable build_agent_command : AgentCommandOptions.t -> str.
Variable extract_session_id : str -> str -> option str.

(** [main] of bin/start_agent.rs: its exit status and the world after. A
    [main] that returns without [process::exit] exits with status 0;
    [None] when it never returns. *)
Definition start_agent_main (args : list str) (w : World) : option (Z * World) :=
  let o := parse_start_agent_args args in
  if StartAgentOptions.help o then Some (0, show_start_agent_help w)
  else
    let validation := validate_start_agent_options o in
    if negb (valid validation) then Some (1, report_invalid (s2l "start-agent") validation w)
    else
      match agent_new (start_agent_options o) with
      | Err e => Some (1, eprintln w (s2l "Error: " ++ e))
      | Ok controller =>
          let so := {| AgentStartOptions.dry_run := StartAgentOptions.dry_run o;
                       AgentStartOptions.detached := StartAgentOptions.detached o;
                       AgentStartOptions.attached := StartAgentOptions.attached o |} in
          match start spawn_error build_agent_command controller so w with
          | (Err e, _, w1) => Some (1, eprintln w1 (s2l "Error: " ++ e))
          | (Ok _, controller, w1) =>
              if negb (StartAgentOptions.detached o) && negb (StartAgentOptions.dry_run o) then
                match stop behaviour spawn_error extract_session_id controller
                        {| AgentStopOptions.dry_run := false |} w1 with
                | None => None
                | Some (Ok r, _, w2) => Some (AgentResult.exit_code r, w2)
                | Some (Err e, _, w2) => Some (1, eprintln w2 (s2l "Error: " ++ e))
                end
              else Some (0, w1)
          end
      end.

(** [main] of bin/stop_agent.rs. *)
Definition stop_agent_main (args : list str) (w : World) : option (Z * World) :=
  let o := parse_stop_agent_args args in
  if StopAgentOptions.help o then Some (0, show_stop_agent_help w)
  else
    let validation := validate_stop_agent_options o in
    if negb (valid validation) then Some (1, report_invalid (s2l "stop-agent") validation w)
    else
      match agent_new (stop_agent_options o) with
      | Err e => Some (1, eprintln w (s2l "Error: " ++ e))
      | Ok controller =>
          match stop behaviour spawn_error extract_session_id controller
                  {| AgentStopOptions.dry_run := StopAgentOptions.dry_run o |} w with
          | None => None
          | Some (Ok r, _, w1) =>
              Some (AgentResult.exit_code r, println w1 (s2l "Agent stopped successfully"))
          | Some (Err e, _, w1) => Some (1, eprintln w1 (s2l "Error: " ++ e))
          end
      end.

End Main.

End CliParser.

(** ** How bash reads a word: the reference for the quoting functions *)

Module Bash.

(** Quote removal on one word of a bash command line, for words that
    undergo no expansion.  Outside quotes, a blank (space, tab, newline)
    or a metacharacter ([| & ; < > ( )]) ends the word, a backslash quotes
    the next character (a backslash-newline is removed), and a character
    that would start an expansion ([$ ` * ? [ { ~ #]) is outside this
    model ([None]).  Between single quotes every character is literal.
    Between double quotes a backslash quotes only [$], [`], the double
    quote, the backslash and newline
    (a backslash-newline is removed) and stays before any other
    character; [$] and [`] would expand ([None]).  An unterminated quote
    is [None].  The result is the word and the input after it. *)
Inductive mode := Unquoted | Single | Double.

Definition cons_fst (c : char) (o : option (str * str)) : option (str * str) :=
  match o with Some (w, r) => Some (c :: w, r) | None => None end.

Definition is_blank (c : char) : bool := (c =? 32) || (c =? 9) || (c =? 10).

Definition is_meta (c : char) : bool :=
  existsb (Z.eqb c) [124; 38; 59; 60; 62; 40; 41].

Definition is_expansion (c : char) : bool :=
  existsb (Z.eqb c) [36; 96; 42; 63; 91; 123; 126; 35].

Fixpoint read (m : mode) (s : str) : option (str * str) :=
  match m, s with
  | Unquoted, [] => Some ([], [])
  | Unquoted, c :: s' =>
      if is_blank c || is_meta c then Some ([], s)
      else if c =? 39 then read Single s'
      else if c =? 34 then read Double s'
      else if c =? 92 then
        match s' with
        | [] => Some ([92], [])
        | d :: s'' => if d =? 10 then read Unquoted s'' else cons_fst d (read Unquoted s'')
        end
      else if is_expansion c then None
      else cons_fst c (read Unquoted s')
  | Single, [] => None
  | Single, c :: s' => if c =? 39 then read Unquoted s' else cons_fst c (read Single s')
  | Double, [] => None
  | Double, c :: s' =>
      if c =? 34 then read Unquoted s'
      else if c =? 92 then
        match s' with
        | [] => None
        | d :: s'' =>
            if d =? 10 then read Double s''
            else if (d =? 36) || (d =? 96) || (d =? 34) || (d =? 92) then
              cons_fst d (read Double s'')
            else cons_fst 92 (cons_fst d (read Double s''))
        end
      else if (c =? 36) || (c =? 96) then None
      else cons_fst c (read Double s')
  end.

(** A word read after the characters [p]. *)
Definition prepend (p : str) (o : option (str * str)) : option (str * str) :=
  match o with Some (w, r) => Some (p ++ w, r) | None => None end.

(** One word, read from its first character. *)
Definition word (s : str) : option (str * str) := read Unquoted s.

(** The words of a line whose words are separated by single spaces. *)
Fixpoint words (fuel : nat) (s : str) : option (list str) :=
  match fuel with
  | O => None
  | S f =>
      match word s with
      | Some (w, []) => Some [w]
      | Some (w, 32 :: r) => match words f r with Some ws => Some (w :: ws) | None => None end
      | _ => None
      end
  end.

End Bash.

(** ** command_builder.rs *)

Module CommandBuilder.

(** [str::replace(c, r)] for a [char] pattern. *)
Definition replace_char (c : char) (r : str) (s : str) : str :=
  flat_map (fun x => if x =? c then r else [x]) s.

(** [escape_quotes]: ['] becomes ['\'']. *)
Definition escape_quotes (s : str) : str := replace_char 39 [39; 92; 39; 39] s.

(** [escape_for_bash_c]. *)
Definition escape_for_bash_c (s : str) : str :=
  replace_char 96 [92; 96] (replace_char 36 [92; 36]
    (replace_char 34 [92; 34] (replace_char 92 [92; 92] s))).

(** [build_tool_command]. *)
Definition build_tool_command (tool : str) (prompt system_prompt : option str) : str :=
  tool
  ++ match prompt with
     | Some p => s2l " --prompt " ++ [34] ++ escape_quotes p ++ [34]
     | None => []
     end
  ++ match system_prompt with
     | Some sp => s2l " --system-prompt " ++ [34] ++ escape_quotes sp ++ [34]
     | None => []
     end.

(** The [agent-<milliseconds since the epoch>] fallback name, [now] being
    what [SystemTime::now()] reads. *)
Definition fallback_name (now : Z) (name : option str) : str :=
  match name with Some s => s | None => s2l "agent-" ++ Json.itoa now end.

(** [build_screen_command]. *)
Definition build_screen_command (now : Z) (base_command : str) (screen_name : option str)
  (detached : bool) : str :=
  let session_name := fallback_name now screen_name in
  (if detached then s2l "screen -dmS " else s2l "screen -S ")
  ++ [34] ++ session_name ++ [34] ++ s2l " bash -c '" ++ escape_quotes base_command ++ [39].

(** [build_docker_command]. *)
Definition build_docker_command (now : Z) (base_command : str) (container_name : option str)
  (working_directory : str) (detached : bool) : str :=
  let name := fallback_name now container_name in
  s2l "docker run"
  ++ (if detached then s2l " -d" else s2l " -it")
  ++ s2l " --name " ++ [34] ++ name ++ [34]
  ++ s2l " -v " ++ [34] ++ working_directory ++ [58] ++ working_directory ++ [34]
  ++ s2l " -w " ++ [34] ++ working_directory ++ [34]
  ++ s2l " node:18-slim"
  ++ s2l " bash -c '" ++ escape_quotes base_command ++ [39].

(** [build_piped_command]. *)
Definition build_piped_command (input command : str) : str :=
  s2l "printf '%s' '" ++ escape_quotes input ++ s2l "' | " ++ command.

Section Build.

(** The tool-specific builders ([claude::build_command] and the others,
    applied to the options [build_agent_command] gives them) and the
    clock. *)
Variable tool_build_command : str -> AgentCommandOptions.t -> str.
Variable now : Z.

(** The [let base_command = ...] of [build_agent_command]. *)
Definition base_command (options : AgentCommandOptions.t) : str :=
  let tool := AgentCommandOptions.tool options in
  let generic :=
    build_tool_command tool (AgentCommandOptions.prompt options)
      (AgentCommandOptions.system_prompt options) in
  if is_tool_supported tool then
    if existsb (str_eqb tool) [s2l "claude"; s2l "codex"; s2l "opencode"; s2l "agent"]
    then tool_build_command tool options
    else generic
  else generic.

(** The [let mut full_command = format!(...)] of [build_agent_command]. *)
Definition full_command (options : AgentCommandOptions.t) : str :=
  s2l "bash -c " ++ [34] ++ s2l "cd "
  ++ escape_for_bash_c (AgentCommandOptions.working_directory options)
  ++ s2l " && " ++ escape_for_bash_c (base_command options) ++ [34].

(** [build_agent_command]. *)
Definition build_agent_command (options : AgentCommandOptions.t) : str :=
  let full_command := full_command options in
  let iso := AgentCommandOptions.isolation options in
  if str_eqb iso (s2l "screen") then
    build_screen_command now full_command (AgentCommandOptions.screen_name options)
      (AgentCommandOptions.detached options)
  else if str_eqb iso (s2l "docker") then
    build_docker_command now full_command (AgentCommandOptions.container_name options)
      (AgentCommandOptions.working_directory options) (AgentCommandOptions.detached options)
  else full_command.

End Build.

End CommandBuilder.

(** ** serde_json's [Value::get] with a [&str] index and [Value::as_str] *)

Module JsonAccess.
Import Json.

(** [Value::get(key)]: a field of an object, [None] on any other value. *)
Definition get (v : Value) (key : str) : option Value :=
  match v with
  | Object m =>
      match find (fun kv => str_eqb (fst kv) key) m with
      | Some kv => Some (snd kv)
      | None => None
      end
  | _ => None
  end.

(** [Value::as_str]. *)
Definition as_str (v : Value) : option str :=
  match v with String s => Some s | _ => None end.

(** [Option::and_then]. *)
Definition and_then {A B : Type} (o : option A) (f : A -> option B) : option B :=
  match o with Some x => f x | None => None end.

End JsonAccess.

(** ** tools/claude.rs *)

Module Claude.
Import Json JsonAccess.

(** [get_model_map] and [map_model_to_id]. *)
Definition get_model_map : list (str * str) :=
  [(s2l "sonnet", s2l "claude-sonnet-4-5-20250929");
   (s2l "opus", s2l "claude-opus-4-5-20251101");
   (s2l "haiku", s2l "claude-haiku-4-5-20251001");
   (s2l "haiku-3-5", s2l "claude-3-5-haiku-20241022");
   (s2l "haiku-3", s2l "claude-3-haiku-20240307")].

Definition map_model_to_id (model : str) : str :=
  match find (fun kv => str_eqb (fst kv) model) get_model_map with
  | Some kv => snd kv
  | None => model
  end.

Module ClaudeBuildOptions.
Record t := {
  prompt : option str;
  system_prompt : option str;
  append_system_prompt : option str;
  model : option str;
  fallback_model : option str;
  print : bool;
  verbose : bool;
  json : bool;
  json_input : bool;
  replay_user_messages : bool;
  resume : option str;
  session_id : option str;
  fork_session : bool;
  dangerously_skip_permissions : bool
}.
End ClaudeBuildOptions.

Definition opt_args (flag : String.string) (o : option str) : list str :=
  match o with Some x => [s2l flag; x] | None => [] end.
Definition flag_args (flag : String.string) (b : bool) : list str :=
  if b then [s2l flag] else [].

(** [build_args]: the pushes in their order. *)
Definition build_args (o : ClaudeBuildOptions.t) : list str :=
  flag_args "--dangerously-skip-permissions" (ClaudeBuildOptions.dangerously_skip_permissions o)
  ++ opt_args "--model" (option_map map_model_to_id (ClaudeBuildOptions.model o))
  ++ opt_args "--fallback-model" (option_map map_model_to_id (ClaudeBuildOptions.fallback_model o))
  ++ opt_args "--prompt" (ClaudeBuildOptions.prompt o)
  ++ opt_args "--system-prompt" (ClaudeBuildOptions.system_prompt o)
  ++ opt_args "--append-system-prompt" (ClaudeBuildOptions.append_system_prompt o)
  ++ flag_args "--verbose" (ClaudeBuildOptions.verbose o)
  ++ flag_args "-p" (ClaudeBuildOptions.print o)
  ++ (if ClaudeBuildOptions.json o then [s2l "--output-format"; s2l "stream-json"] else [])
  ++ (if ClaudeBuildOptions.json_input o then [s2l "--input-format"; s2l "stream-json"] else [])
  ++ flag_args "--replay-user-messages" (ClaudeBuildOptions.replay_user_messages o)
  ++ opt_args "--session-id" (ClaudeBuildOptions.session_id o)
  ++ opt_args "--resume" (ClaudeBuildOptions.resume o)
  ++ flag_args "--fork-session" (ClaudeBuildOptions.fork_session o).

(** [str::contains(c)] for a [char], and with [char::is_whitespace]. *)
Definition contains_char (s : str) (c : char) : bool := existsb (Z.eqb c) s.

(** [escape_arg] (the same function in every tools/*.rs). *)
Definition escape_arg (arg : str) : str :=
  if contains_char arg 34 || existsb is_whitespace arg || contains_char arg 36
     || contains_char arg 96 || contains_char arg 92
  then [34] ++ CommandBuilder.escape_for_bash_c arg ++ [34]
  else arg.

(** [<[String]>::join(sep)]. *)
Fixpoint join (sep : str) (l : list str) : str :=
  match l with
  | [] => []
  | [x] => x
  | x :: l' => x ++ sep ++ join sep l'
  end.

(** [build_command]. *)
Definition build_command (o : ClaudeBuildOptions.t) : str :=
  trim (s2l "claude " ++ join [32] (map escape_arg (build_args o))).

(** [parse_output]. *)
Definition parse_output (output : str) : list Value := Ndjson.parse_ndjson output.

(** [extract_session_id]: the first parsed message with a string
    ["session_id"] field. *)
Fixpoint first_session_id (messages : list Value) : option str :=
  match messages with
  | [] => None
  | msg :: ms =>
      match and_then (get msg (s2l "session_id")) as_str with
      | Some id => Some id
      | None => first_session_id ms
      end
  end.

Definition extract_session_id (output : str) : option str :=
  first_session_id (parse_output output).

End Claude.

(** ** streaming/input_stream.rs *)

Module InputStream.
Import Json Ndjson JsonAccess.

Record JsonInputStream := { compact : bool; messages : list Value }.

(** [new], [from_messages]. *)
Definition new (compact : bool) : JsonInputStream := {| compact := compact; messages := [] |}.
Definition from_messages (messages : list Value) (compact : bool) : JsonInputStream :=
  {| compact := compact; messages := messages |}.

(** [add]: a [Null] message is dropped. *)
Definition add (st : JsonInputStream) (message : Value) : JsonInputStream :=
  if negb (is_null message)
  then {| compact := compact st; messages := messages st ++ [message] |}
  else st.

(** [json!({"type": t, "content": content})]: a [BTreeMap] built by
    inserting the entries in their order. *)
Definition typed_message (t content : str) : Value :=
  Object (map_insert (s2l "content") (String content)
            (map_insert (s2l "type") (String t) [])).

(** [add_prompt], [add_system_message]. *)
Definition add_prompt (st : JsonInputStream) (content : str) : JsonInputStream :=
  add st (typed_message (s2l "user_prompt") content).
Definition add_system_message (st : JsonInputStream) (content : str) : JsonInputStream :=
  add st (typed_message (s2l "system") content).

(** [add_config]: the fields of an object [config] are inserted, in the
    map's order, into [{"type": "config"}]. *)
Definition add_config (st : JsonInputStream) (config : Value) : JsonInputStream :=
  let msg := map_insert (s2l "type") (String (s2l "config")) [] in
  let msg :=
    match config with
    | Object cfg => fold_left (fun obj kv => map_insert (fst kv) (snd kv) obj) cfg msg
    | _ => msg
    end in
  add st (Object msg).

(** [to_string], [size], [clear], [get_messages]. *)
Definition to_string (st : JsonInputStream) : str :=
  List.concat (map (fun msg => stringify_ndjson_line msg (compact st)) (messages st)).
Definition size (st : JsonInputStream) : nat := List.length (messages st).
Definition clear (st : JsonInputStream) : JsonInputStream :=
  {| compact := compact st; messages := [] |}.
Definition get_messages (st : JsonInputStream) : list Value := messages st.

End InputStream.

(** A run of the controller without isolation: the tool [claude] in JSON
    mode, whose process prints the line [[1]] and exits with code 0. *)
Module Scenario.

Definition behaviour : str -> ChildBehaviour :=
  fun _ => {| out_lines := [s2l "[1]"]; out_error := None; err_lines := []; err_error := None;
              stalls := false; wait_error := None; status_code := Some 0 |}.
Definition spawn_error : str -> option str := fun _ => None.
Definition build_agent_command (o : AgentCommandOptions.t) : str :=
  AgentCommandOptions.tool o ++ s2l " -p hi".
Definition extract_session_id : str -> str -> option str := fun _ _ => None.

Definition agent_options : AgentOptions.t :=
  {| AgentOptions.tool := s2l "claude"; AgentOptions.working_directory := s2l "/tmp";
     AgentOptions.prompt := Some (s2l "hi"); AgentOptions.system_prompt := None;
     AgentOptions.model := None; AgentOptions.isolation := s2l "none";
     AgentOptions.screen_name := None; AgentOptions.container_name := None;
     AgentOptions.json := true; AgentOptions.resume := None |}.

Definition agent : Agent :=
  match agent_new agent_options with Ok a => a | Err _ =>
    {| options := agent_options; process_handle := None; output_stream := None;
       session_id := None |} end.

Definition start_options : AgentStartOptions.t :=
  {| AgentStartOptions.dry_run := false; AgentStartOptions.detached := false;
     AgentStartOptions.attached := false |}.
Definition stop_options : AgentStopOptions.t := {| AgentStopOptions.dry_run := false |}.
Definition world : World := {| spawned := []; out_log := []; err_log := [] |}.

Definition started : result unit str * Agent * World :=
  start spawn_error build_agent_command agent start_options world.
Definition stopped_once : option (result AgentResult.t str * Agent * World) :=
  stop behaviour spawn_error extract_session_id (snd (fst started)) stop_options (snd started).
Definition first_stop_agent : Agent :=
  match stopped_once with Some (_, a, _) => a | None => agent end.
Definition first_stop_world : World :=
  match stopped_once with Some (_, _, w) => w | None => world end.
Definition first_stop_result : AgentResult.t :=
  match stopped_once with Some (Ok r, _, _) => r | _ => AgentResult.default end.
Definition stopped_twice : option (result AgentResult.t str * Agent * World) :=
  stop behaviour spawn_error extract_session_id first_stop_agent stop_options first_stop_world.

End Scenario.

(** * Predicates and measures used by the proofs *)

Module JsonSpec.
Import Json.

Definition all_ws (s : str) : Prop := Forall (fun c => is_json_ws c = true) s.

(** The formatter hooks emit whitespace, a comma before every element but
    the first, and a colon between key and value. *)
Record FormatterOk (f : Formatter) : Prop := {
  fo_first : forall lvl, all_ws (begin_value f lvl true);
  fo_next : forall lvl, exists w, begin_value f lvl false = 44 :: w /\ all_ws w;
  fo_end : forall lvl b, all_ws (end_container f lvl b);
  fo_colon : exists w, begin_object_value f = 58 :: w /\ all_ws w
}.

(** A decimal digit. *)
Definition digit (c : char) : Prop := 48 <= c <= 57.

(** What may follow an integer for [parse_number] to end it there. *)
Definition num_delim (rest : str) : Prop :=
  match rest with
  | [] => True
  | c :: _ => is_digit c = false /\ c <> 46 /\ c <> 101 /\ c <> 69
  end.

(** A character of a number the serializer writes. *)
Definition num_char (c : char) : Prop := c = 45 \/ c = 46 \/ c = 101 \/ digit c.

(** What may follow a value in serializer output: the end of input, a
    separator, a closing bracket or whitespace. *)
Definition delim (rest : str) : Prop :=
  match rest with
  | [] => True
  | c :: _ => is_json_ws c = true \/ c = 44 \/ c = 93 \/ c = 125
  end.

(** [v] holds no [f64]: every number in it is an integer. *)
Fixpoint no_float (v : Value) : Prop :=
  match v with
  | Float _ => False
  | Array l => (fix go l := match l with [] => True | x :: l' => no_float x /\ go l' end) l
  | Object m =>
      (fix go m := match m with [] => True | (_, x) :: m' => no_float x /\ go m' end) m
  | _ => True
  end.

(** Well formed and without [f64]. *)
Definition iwf (v : Value) : Prop := wf v /\ no_float v.

(** [v] is read back from its output under formatter [f], whatever follows. *)
Definition rt (f : Formatter) (v : Value) : Prop :=
  iwf v -> forall fuel d lvl rest,
  (nodes v < fuel)%nat -> (depth v < d)%nat -> delim rest ->
  parse_value fuel d (to_json f lvl v ++ rest) = Some (v, rest).

(** Parser fuel and depth needed by element and member runs. *)
Definition elems_nodes (l : list Value) : nat := fold_right (fun x n => S (nodes x + n)) 0%nat l.
Definition elems_depth (l : list Value) : nat :=
  fold_right (fun x d => Nat.max (depth x) d) 0%nat l.
Definition members_nodes (m : list (str * Value)) : nat :=
  fold_right (fun kv n => S (S (nodes (snd kv) + n))) 0%nat m.
Definition members_depth (m : list (str * Value)) : nat :=
  fold_right (fun kv d => Nat.max (depth (snd kv)) d) 0%nat m.

(** An object with two fields. *)
Definition two_fields : Value := Object [(s2l "a", Number 1); (s2l "b", Number 2)].

End JsonSpec.

(** Isolation mode none, or empty. *)
Definition no_isolation (a : Agent) : Prop :=
  AgentOptions.isolation (options a) = s2l "none" \/ AgentOptions.isolation (options a) = [].

Ltac decide_leb :=
  repeat (match goal with
          | |- context [(?x <=? ?y)%Z] => case (Z.leb_spec x y)
          | |- context [(?x <? ?y)%Z] => case (Z.ltb_spec x y)
          | |- context [(?x =? ?y)%Z] => case (Z.eqb_spec x y)
          end; intro).

(** A character that [claude::escape_arg] hands to bash with its meaning
    kept: not a single quote, not a metacharacter, and, if it starts an
    expansion, one of the two ([$] and [`]) that make [escape_arg] quote
    the argument. *)
Definition arg_char_ok (c : char) : bool :=
  negb (c =? 39) && negb (Bash.is_meta c)
  && (negb (Bash.is_expansion c) || (c =? 36) || (c =? 96)).

(** The test by which [parse_args] records [a] under [key]: a [--]
    argument whose name, once the leading dashes are trimmed, is [key]. *)
Definition flag_arg (key a : str) : bool :=
  is_prefix CliParser.dashes a && str_eqb (CliParser.trim_start_matches a) key.

(** The [AgentCommandOptions] that [Agent::start] builds for an agent made
    by bin/start_agent.rs from [o], with tool [t], working directory [d],
    isolation [iso], and not detached. *)
Definition cli_command_options (o : CliParser.StartAgentOptions.t) (t d iso : str)
  : AgentCommandOptions.t :=
  {| AgentCommandOptions.tool := t; AgentCommandOptions.working_directory := d;
     AgentCommandOptions.prompt := CliParser.StartAgentOptions.prompt o;
     AgentCommandOptions.system_prompt := CliParser.StartAgentOptions.system_prompt o;
     AgentCommandOptions.model := None; AgentCommandOptions.json := false;
     AgentCommandOptions.resume := None; AgentCommandOptions.isolation := iso;
     AgentCommandOptions.screen_name := CliParser.StartAgentOptions.screen_name o;
     AgentCommandOptions.container_name := CliParser.StartAgentOptions.container_name o;
     AgentCommandOptions.detached := false |}.

(** Sample inputs for the command builders and the command-line programs. *)
Module Samples.

Definition tool_builder (tool : str) (o : AgentCommandOptions.t) : str :=
  tool ++ s2l " -p hi".

Definition command_options (iso : str) : AgentCommandOptions.t :=
  {| AgentCommandOptions.tool := s2l "claude";
     AgentCommandOptions.working_directory := s2l "/tmp/my project";
     AgentCommandOptions.prompt := Some (s2l "it's");
     AgentCommandOptions.system_prompt := None; AgentCommandOptions.model := None;
     AgentCommandOptions.json := false; AgentCommandOptions.resume := None;
     AgentCommandOptions.isolation := iso;
     AgentCommandOptions.screen_name := Some (s2l "s1");
     AgentCommandOptions.container_name := None; AgentCommandOptions.detached := true |}.

Definition claude_options : Claude.ClaudeBuildOptions.t :=
  {| Claude.ClaudeBuildOptions.prompt := Some (s2l "Hello world");
     Claude.ClaudeBuildOptions.system_prompt := None;
     Claude.ClaudeBuildOptions.append_system_prompt := None;
     Claude.ClaudeBuildOptions.model := Some (s2l "opus");
     Claude.ClaudeBuildOptions.fallback_model := None;
     Claude.ClaudeBuildOptions.print := true; Claude.ClaudeBuildOptions.verbose := false;
     Claude.ClaudeBuildOptions.json := true; Claude.ClaudeBuildOptions.json_input := false;
     Claude.ClaudeBuildOptions.replay_user_messages := false;
     Claude.ClaudeBuildOptions.resume := None; Claude.ClaudeBuildOptions.session_id := None;
     Claude.ClaudeBuildOptions.fork_session := false;
     Claude.ClaudeBuildOptions.dangerously_skip_permissions := false |}.

Definition start_args : list str :=
  [s2l "--tool"; s2l "claude"; s2l "--working-directory"; s2l "/tmp"; s2l "--prompt"; s2l "hi"].

Definition screen_start_args : list str :=
  start_args ++ [s2l "--isolation"; s2l "screen"; s2l "--screen-name"; s2l "s1"].

Definition screen_stop_args : list str :=
  [s2l "--isolation"; s2l "screen"; s2l "--screen-name"; s2l "s1"].

Definition podman_options : AgentOptions.t :=
  {| AgentOptions.tool := s2l "claude"; AgentOptions.working_directory := s2l "/tmp";
     AgentOptions.prompt := None; AgentOptions.system_prompt := None;
     AgentOptions.model := None; AgentOptions.isolation := s2l "podman";
     AgentOptions.screen_name := None; AgentOptions.container_name := None;
     AgentOptions.json := false; AgentOptions.resume := None |}.

(** The [f64] nearest to [1e-23], which [ryu] writes as [1e-23], in an
    array. *)
Definition tiny_float : Z := F64.round false 1 (10 ^ 23).
Definition tiny_array : Json.Value := Json.Array [Json.Float tiny_float].

(** What serde_json reads back from [1e-23]: [1.0 / 1e23], rounded. *)
Definition tiny_float_read : Z := F64.div (F64.of_u64 1) (F64.lit_pow10 23).

(** Every command prints one line and then bytes that are not UTF-8 on
    stdout, which [BufReader::lines] reports as [InvalidData]. *)
Definition bad_utf8 (command : str) : ChildBehaviour :=
  {| out_lines := [s2l "ok"]; out_error := Some (s2l "stream did not contain valid UTF-8");
     err_lines := []; err_error := None; stalls := false; wait_error := None;
     status_code := Some 0 |}.

End Samples.

(** * Properties *)

(** ** Text *)

Lemma split_char_not_nil (sep : char) (s : str) : split_char sep s <> [].
Proof.
  induction s as [|c s IH]; simpl; [discriminate|].
  destruct (c =? sep); [discriminate|].
  destruct (split_char sep s); discriminate.
Qed.

Lemma split_char_app (sep : char) (s t : str) :
  split_char sep (s ++ t) =
  removelast (split_char sep s) ++ split_char sep (last (split_char sep s) [] ++ t).
Proof.
  induction s as [|c s IH]; [reflexivity|].
  simpl. pose proof (split_char_not_nil sep s) as Hne.
  destruct (c =? sep) eqn:Hc.
  - rewrite IH. destruct (split_char sep s) as [|h r]; [congruence|].
    destruct r; reflexivity.
  - rewrite IH. destruct (split_char sep s) as [|h r] eqn:Hs; [congruence|].
    destruct r as [|h2 r].
    + simpl. rewrite Hc. reflexivity.
    + simpl. destruct (split_char sep (last (h2 :: r) [] ++ t)) eqn:Ht.
      * exfalso. exact (split_char_not_nil _ _ Ht).
      * destruct r; reflexivity.
Qed.

Lemma split_char_no_sep (sep : char) (s : str) :
  ~ In sep s -> split_char sep s = [s].
Proof.
  induction s as [|c s IH]; intros H; [reflexivity|].
  simpl. destruct (Z.eqb_spec c sep) as [->|Hc].
  - exfalso. apply H; left; reflexivity.
  - rewrite IH; [reflexivity|]. intros Hin; apply H; right; exact Hin.
Qed.

Lemma split_char_sep_app (sep : char) (s r : str) :
  ~ In sep s -> split_char sep (s ++ sep :: r) = s :: split_char sep r.
Proof.
  induction s as [|c s IH]; intros H.
  - simpl. rewrite Z.eqb_refl. reflexivity.
  - simpl. destruct (Z.eqb_spec c sep) as [->|Hc].
    + exfalso. apply H; left; reflexivity.
    + rewrite IH; [reflexivity|]. intros Hin; apply H; right; exact Hin.
Qed.

Lemma split_char_pieces (sep : char) (s : str) :
  Forall (fun p => ~ In sep p) (split_char sep s).
Proof.
  induction s as [|c s IH]; simpl.
  - constructor; [intros []|constructor].
  - destruct (Z.eqb_spec c sep) as [->|Hc].
    + constructor; [intros []|exact IH].
    + destruct (split_char sep s) as [|h r]; inversion IH; subst;
        (constructor; [|auto]); intros [E|E]; congruence || contradiction.
Qed.

Lemma last_split_no_sep (sep : char) (s : str) :
  ~ In sep (last (split_char sep s) []).
Proof.
  pose proof (split_char_pieces sep s) as H.
  pose proof (split_char_not_nil sep s) as Hne.
  rewrite Forall_forall in H. apply H.
  destruct (split_char sep s) as [|h r]; [congruence|].
  clear. revert h; induction r as [|x r IH]; intros h; simpl; [left; reflexivity|].
  right. apply IH.
Qed.

Lemma firstn_pred_length {A : Type} (l : list A) :
  firstn (List.length l - 1) l = removelast l.
Proof.
  induction l as [|x l IH]; [reflexivity|].
  destruct l as [|y l]; [reflexivity|].
  assert (E : (List.length (x :: y :: l) - 1 = S (List.length (y :: l) - 1))%nat)
    by (simpl; lia).
  rewrite E, firstn_cons, IH. reflexivity.
Qed.

Lemma hd_skipn_pred_length {A : Type} (d : A) (l : list A) :
  hd d (skipn (List.length l - 1) l) = last l d.
Proof.
  induction l as [|x l IH]; [reflexivity|].
  destruct l as [|y l]; [reflexivity|].
  assert (E : (List.length (x :: y :: l) - 1 = S (List.length (y :: l) - 1))%nat)
    by (simpl; lia).
  rewrite E, skipn_cons, IH. reflexivity.
Qed.

Lemma trim_start_all_ws (s : str) :
  Forall (fun c => is_whitespace c = true) s -> trim_start s = [].
Proof.
  induction 1 as [|c s Hc _ IH]; simpl; [reflexivity|].
  rewrite Hc. exact IH.
Qed.

Lemma trim_all_ws (s : str) :
  Forall (fun c => is_whitespace c = true) s -> trim s = [].
Proof.
  intros H. unfold trim, trim_end. rewrite (trim_start_all_ws s H). reflexivity.
Qed.

Lemma trim_framed (c : char) (m : str) (d : char) (w : str) :
  is_whitespace c = false -> is_whitespace d = false ->
  Forall (fun x => is_whitespace x = true) w ->
  trim (c :: m ++ d :: w) = c :: m ++ [d].
Proof.
  intros Hc Hd Hw. unfold trim, trim_end. simpl. rewrite Hc.
  replace (rev (c :: m ++ d :: w)) with (rev w ++ d :: rev (c :: m))
    by (simpl; rewrite rev_app_distr; simpl; repeat rewrite <- app_assoc; reflexivity).
  assert (E : forall u, trim_start (rev w ++ u) = trim_start u).
  { intros u. pose proof (Forall_rev Hw) as Hr. clear Hw.
    induction Hr as [|x r Hx _ IH]; [reflexivity|]. simpl. rewrite Hx. exact IH. }
  rewrite E. simpl trim_start. rewrite Hd.
  simpl. rewrite rev_app_distr, rev_involutive. reflexivity.
Qed.

(** ** serde_json: serializing then parsing *)

Module JsonFacts.
Import Json JsonSpec.

Lemma to_json_Array (f : Formatter) (lvl : nat) (l : list Value) :
  to_json f lvl (Array l) =
  91 :: json_elems f (S lvl) l true ++ end_container f lvl (negb (is_nil l)) ++ [93].
Proof.
  cbn [to_json]. f_equal. f_equal. generalize true.
  induction l as [|x l IH]; intros b; [reflexivity|]. cbn. rewrite IH. reflexivity.
Qed.

Lemma to_json_Object (f : Formatter) (lvl : nat) (m : list (str * Value)) :
  to_json f lvl (Object m) =
  123 :: json_members f (S lvl) m true ++ end_container f lvl (negb (is_nil m)) ++ [125].
Proof.
  cbn [to_json]. f_equal. f_equal. generalize true.
  induction m as [|[k x] m IH]; intros b; [reflexivity|]. cbn. rewrite IH. reflexivity.
Qed.

Lemma skip_ws_app (w s : str) : all_ws w -> skip_ws (w ++ s) = skip_ws s.
Proof.
  induction 1 as [|c w Hc _ IH]; [reflexivity|]. simpl. rewrite Hc. exact IH.
Qed.

Lemma skip_ws_cons (c : char) (s : str) :
  is_json_ws c = false -> skip_ws (c :: s) = c :: s.
Proof. intros H. simpl. rewrite H. reflexivity. Qed.

Lemma parse_value_ws (fuel d : nat) (w s : str) :
  all_ws w -> parse_value fuel d (w ++ s) = parse_value fuel d s.
Proof.
  intros H. destruct fuel; [reflexivity|]. simpl. rewrite (skip_ws_app w s H). reflexivity.
Qed.

Lemma parse_seq_rest_ws (fuel d : nat) (w s : str) :
  all_ws w -> parse_seq_rest fuel d (w ++ s) = parse_seq_rest fuel d s.
Proof.
  intros H. destruct fuel; [reflexivity|]. simpl. rewrite (skip_ws_app w s H). reflexivity.
Qed.

Lemma parse_member_ws (fuel d : nat) (w s : str) :
  all_ws w -> parse_member fuel d (w ++ s) = parse_member fuel d s.
Proof.
  intros H. destruct fuel; [reflexivity|]. simpl. rewrite (skip_ws_app w s H). reflexivity.
Qed.

Lemma parse_map_rest_ws (fuel d : nat) acc (w s : str) :
  all_ws w -> parse_map_rest fuel d acc (w ++ s) = parse_map_rest fuel d acc s.
Proof.
  intros H. destruct fuel; [reflexivity|]. simpl. rewrite (skip_ws_app w s H). reflexivity.
Qed.

Lemma all_ws_indent (lvl : nat) : all_ws (indent lvl).
Proof.
  unfold indent. induction lvl as [|n IH]; simpl; [constructor|].
  repeat constructor. exact IH.
Qed.

Lemma compact_ok : FormatterOk CompactFormatter.
Proof.
  constructor; simpl.
  - intros _. constructor.
  - intros _. exists []. split; [reflexivity|constructor].
  - intros _ _. constructor.
  - exists []. split; [reflexivity|constructor].
Qed.

Lemma pretty_ok : FormatterOk PrettyFormatter.
Proof.
  constructor; simpl.
  - intros lvl. constructor; [reflexivity|apply all_ws_indent].
  - intros lvl. exists (10 :: indent lvl). split; [reflexivity|].
    constructor; [reflexivity|apply all_ws_indent].
  - intros lvl [|]; [constructor; [reflexivity|apply all_ws_indent]|constructor].
  - exists [32]. split; [reflexivity|]. repeat constructor.
Qed.

Lemma hex_val_digit (n : Z) : 0 <= n < 16 -> hex_val (hex_digit n) = Some n.
Proof.
  intros Hn. unfold hex_digit. destruct (Z.ltb_spec n 10); unfold hex_val; decide_leb; cbn [andb]; try lia; f_equal; lia.

Qed.

Lemma parse_str_escape (c : char) (rest : str) :
  0 <= c ->
  parse_str_chars (escape_char c ++ rest) =
  match parse_str_chars rest with Some (r, x) => Some (c :: r, x) | None => None end.
Proof.
  intros Hc. unfold escape_char.
  destruct (Z.eqb_spec c 34) as [->|H34]; [reflexivity|].
  destruct (Z.eqb_spec c 92) as [->|H92]; [reflexivity|].
  destruct (Z.eqb_spec c 8) as [->|H8]; [reflexivity|].
  destruct (Z.eqb_spec c 9) as [->|H9]; [reflexivity|].
  destruct (Z.eqb_spec c 10) as [->|H10]; [reflexivity|].
  destruct (Z.eqb_spec c 12) as [->|H12]; [reflexivity|].
  destruct (Z.eqb_spec c 13) as [->|H13]; [reflexivity|].
  destruct (Z.ltb_spec c 32) as [Hlt|Hge].
  - assert (Hd : decode_hex4 48 48 (hex_digit (c / 16)) (hex_digit (c mod 16)) = Some c).
    { unfold decode_hex4.
      rewrite (hex_val_digit (c / 16)) by (split; [apply Z.div_pos|apply Z.div_lt_upper_bound]; lia).
      rewrite (hex_val_digit (c mod 16)) by (apply Z.mod_pos_bound; lia).
      replace (hex_val 48) with (Some 0) by reflexivity. cbv beta iota. f_equal. pose proof (Z.div_mod c 16). lia. }
    cbn -[decode_hex4]. rewrite Hd.
    unfold is_lo_surrogate, is_hi_surrogate. decide_leb; simpl; try lia. reflexivity.
  - simpl. decide_leb; try lia. reflexivity.
Qed.

Lemma parse_escaped_str (s rest : str) :
  Forall (fun c => 0 <= c) s ->
  parse_str_chars (flat_map escape_char s ++ 34 :: rest) = Some (s, rest).
Proof.
  induction 1 as [|c s Hc _ IH]; [reflexivity|].
  simpl. rewrite <- app_assoc, parse_str_escape by exact Hc. rewrite IH. reflexivity.
Qed.

(** *** Integers *)

Lemma dval_cons (a c : Z) (ds : str) : dval a (c :: ds) = dval (a * 10 + (c - 48)) ds.
Proof. reflexivity. Qed.

Lemma dval_mono (a : Z) (ds : str) : 0 <= a -> Forall digit ds -> a <= dval a ds.
Proof.
  intros Ha H. revert a Ha. induction H as [|c ds Hc _ IH]; intros a Ha; [simpl; lia|].
  rewrite dval_cons. unfold digit in Hc.
  specialize (IH (a * 10 + (c - 48)) ltac:(lia)). lia.
Qed.

Lemma parse_digits_ok (positive : bool) (ds : str) (a : Z) (rest : str) :
  0 <= a -> Forall digit ds -> dval a ds <= u64_max -> num_delim rest ->
  parse_digits positive a (ds ++ rest) = parse_number positive (dval a ds) rest.
Proof.
  intros Ha H. revert a Ha. induction H as [|c ds Hc Hds IH]; intros a Ha Hmax Hr.
  - destruct rest as [|c rest]; [reflexivity|]. simpl. destruct Hr as [-> _]. reflexivity.
  - simpl. unfold digit in Hc.
    assert (Hd : is_digit c = true) by (unfold is_digit; decide_leb; simpl; lia).
    rewrite Hd. rewrite dval_cons in Hmax.
    pose proof (dval_mono (a * 10 + (c - 48)) ds ltac:(lia) Hds).
    destruct (Z.ltb_spec u64_max (a * 10 + (c - 48))); [lia|].
    apply IH; lia || assumption.
Qed.

Lemma nat_digits_dval (f : nat) (n : Z) (acc : str) :
  0 <= n < 10 ^ Z.of_nat f -> dval 0 (nat_digits f n acc) = dval n acc.
Proof.
  revert n acc. induction f as [|f IH]; intros n acc Hn.
  - simpl in Hn. assert (n = 0) by lia. subst. reflexivity.
  - cbn [nat_digits]. pose proof (Z.mod_pos_bound n 10 ltac:(lia)).
    destruct (Z.ltb_spec n 10).
    + rewrite dval_cons. rewrite Z.mod_small by lia. f_equal. lia.
    + rewrite IH.
      * rewrite dval_cons. f_equal. pose proof (Z.div_mod n 10). lia.
      * rewrite Nat2Z.inj_succ, Z.pow_succ_r in Hn by lia.
        split; [apply Z.div_pos; lia|]. apply Z.div_lt_upper_bound; lia.
Qed.

Lemma nat_digits_digits (f : nat) (n : Z) (acc : str) :
  0 <= n -> Forall digit acc -> Forall digit (nat_digits f n acc).
Proof.
  revert n acc. induction f as [|f IH]; intros n acc Hn Hacc; [exact Hacc|].
  cbn [nat_digits]. pose proof (Z.mod_pos_bound n 10 ltac:(lia)).
  assert (Forall digit ((48 + n mod 10) :: acc)) by (constructor; [unfold digit; lia|exact Hacc]).
  destruct (n <? 10); [assumption|]. apply IH; [apply Z.div_pos; lia|assumption].
Qed.

Lemma nat_digits_lead (f : nat) (n : Z) (acc : str) :
  1 <= n < 10 ^ Z.of_nat f ->
  exists d r, nat_digits f n acc = d :: r /\ 49 <= d <= 57.
Proof.
  revert n acc. induction f as [|f IH]; intros n acc Hn; [simpl in Hn; lia|].
  simpl. destruct (Z.ltb_spec n 10).
  - exists (48 + n mod 10), acc. rewrite Z.mod_small by lia. split; [reflexivity|lia].
  - apply IH. rewrite Nat2Z.inj_succ, Z.pow_succ_r in Hn by lia.
    split; [apply Z.div_le_lower_bound; lia|apply Z.div_lt_upper_bound; lia].
Qed.

Lemma udigits_fuel (n : Z) : 0 <= n -> n < 10 ^ Z.of_nat (S (Z.to_nat (Z.log2 n))).
Proof.
  intros Hn. rewrite Nat2Z.inj_succ, Z2Nat.id by apply Z.log2_nonneg.
  destruct (Z.eq_dec n 0) as [->|Hn0]; [simpl; lia|].
  pose proof (Z.log2_spec n ltac:(lia)) as [_ H].
  eapply Z.lt_le_trans; [exact H|]. apply Z.pow_le_mono_l.
  pose proof (Z.log2_nonneg n); lia.
Qed.

Lemma udigits_shape (n : Z) :
  1 <= n -> exists d r, udigits n = d :: r /\ 49 <= d <= 57 /\ Forall digit r /\ dval (d - 48) r = n.
Proof.
  intros Hn. pose proof (udigits_fuel n ltac:(lia)) as Hf. unfold udigits.
  destruct (nat_digits_lead (S (Z.to_nat (Z.log2 n))) n [] ltac:(lia)) as (d & r & E & Hd).
  pose proof (nat_digits_dval (S (Z.to_nat (Z.log2 n))) n [] ltac:(lia)) as Hv.
  pose proof (nat_digits_digits (S (Z.to_nat (Z.log2 n))) n [] ltac:(lia) (Forall_nil _)) as Hds.
  rewrite E in Hv, Hds |- *. exists d, r. inversion Hds as [|? ? _ Hr]; subst.
  change (dval n []) with n in Hv. rewrite dval_cons in Hv.
  replace (0 * 10 + (d - 48)) with (d - 48) in Hv by lia. auto.
Qed.

Lemma parse_number_pos (n : Z) (rest : str) :
  num_delim rest -> parse_number true n rest = Some (U64 n, rest).
Proof.
  intros Hr. destruct rest as [|c rest]; [reflexivity|]. destruct Hr as (_ & H1 & H2 & H3).
  unfold parse_number, is_exp_marker. decide_leb; try congruence. reflexivity.
Qed.

Lemma to_i64_neg (m : Z) : 1 <= m <= 2 ^ 63 -> to_i64 (- to_i64 m) = - m.
Proof.
  intros Hm. unfold to_i64.
  destruct (Z.eq_dec m (2 ^ 63)) as [->|Hne].
  - reflexivity.
  - rewrite (Z.mod_small m) by lia. destruct (Z.leb_spec (2 ^ 63) m); [lia|].
    replace (- m mod 2 ^ 64) with (2 ^ 64 - m).
    + destruct (Z.leb_spec (2 ^ 63) (2 ^ 64 - m)); lia.
    + apply (Z.mod_unique (- m) (2 ^ 64) (-1)); lia.
Qed.

Lemma parse_number_neg (m : Z) (rest : str) :
  1 <= m <= 2 ^ 63 -> num_delim rest -> parse_number false m rest = Some (I64 (- m), rest).
Proof.
  intros Hm Hr. unfold parse_number. rewrite to_i64_neg by exact Hm.
  destruct (Z.leb_spec 0 (- m)); [lia|].
  destruct rest as [|c rest]; [reflexivity|]. destruct Hr as (_ & H1 & H2 & H3).
  unfold is_exp_marker. decide_leb; try congruence. reflexivity.
Qed.

Lemma parse_integer_udigits (positive : bool) (n : Z) (rest : str) :
  1 <= n <= u64_max -> num_delim rest ->
  parse_integer positive (udigits n ++ rest) = parse_number positive n rest.
Proof.
  intros Hn Hr. destruct (udigits_shape n ltac:(lia)) as (d & r & E & Hd & Hds & Hv).
  rewrite E. cbn [app parse_integer].
  destruct (Z.eqb_spec d 48); [lia|].
  destruct (Z.leb_spec 49 d); [|lia]. destruct (Z.leb_spec d 57); [|lia]. cbn [andb].
  rewrite parse_digits_ok by (assumption || lia). rewrite Hv. reflexivity.
Qed.

Lemma parse_value_itoa (fuel depth : nat) (n : Z) (rest : str) :
  i64_min <= n <= u64_max -> num_delim rest ->
  parse_value (S fuel) depth (itoa n ++ rest) = Some (Number n, rest).
Proof.
  intros Hn Hr. unfold i64_min, u64_max in Hn. unfold itoa.
  destruct (Z.ltb_spec n 0).
  - cbn -[udigits parse_integer].
    rewrite parse_integer_udigits by (unfold u64_max; lia || assumption).
    rewrite parse_number_neg by (lia || assumption). rewrite Z.opp_involutive. reflexivity.
  - destruct (Z.eq_dec n 0) as [->|Hn0].
    + change (udigits 0) with [48]. cbn -[parse_number].
      destruct rest as [|c rest]; [rewrite parse_number_pos by exact Hr; reflexivity|].
      pose proof Hr as (Hc & _). rewrite Hc. rewrite parse_number_pos by exact Hr. reflexivity.
    + destruct (udigits_shape n ltac:(lia)) as (d & r & E & Hd & _).
      change (Some (Number n, rest)) with (visit_number (Some (U64 n, rest))).
      rewrite <- (parse_number_pos n rest Hr), <- (parse_integer_udigits true n rest) by (unfold u64_max; lia || assumption).
      rewrite E. assert (Hw : is_json_ws d = false) by (unfold is_json_ws; decide_leb; simpl; try reflexivity; lia).
      cbn -[parse_integer is_json_ws visit_number]. rewrite Hw.
      unfold is_digit. decide_leb; cbn [andb]; try lia; reflexivity.
Qed.

(** *** Maps built from sorted keys *)

Lemma str_compare_antisym (a b : str) : str_compare b a = CompOpp (str_compare a b).
Proof.
  revert b. induction a as [|x a IH]; intros [|y b]; try reflexivity.
  simpl. rewrite (Z.compare_antisym x y). destruct (Z.compare x y); simpl; auto.
Qed.

Lemma map_insert_last (k : str) (x : Value) (acc : list (str * Value)) :
  Forall (fun k' => str_compare k' k = Lt) (map fst acc) ->
  map_insert k x acc = acc ++ [(k, x)].
Proof.
  induction acc as [|[k' v'] acc IH]; intros H; [reflexivity|].
  inversion H as [|? ? Hk Hacc]; subst. simpl.
  rewrite str_compare_antisym, Hk. simpl. rewrite IH by exact Hacc. reflexivity.
Qed.

Lemma keys_sorted_lt (l1 l2 : list str) (k : str) :
  keys_sorted (l1 ++ k :: l2) -> Forall (fun k' => str_compare k' k = Lt) l1.
Proof.
  induction l1 as [|a l1 IH]; intros H; [constructor|].
  destruct H as [Ha Hs]. constructor; [|exact (IH Hs)].
  apply Forall_app in Ha. destruct Ha as [_ Ha]. inversion Ha; assumption.
Qed.

Lemma wf_Array (l : list Value) : wf (Array l) <-> Forall wf l.
Proof.
  cbn [wf]. induction l as [|x l IH]; [split; auto|].
  split; [intros [Hx Hl]; constructor; [exact Hx|apply IH, Hl]
         |intros H; inversion H; subst; split; [assumption|apply IH; assumption]].
Qed.

Lemma wf_Object (m : list (str * Value)) :
  wf (Object m) <->
  keys_sorted (map fst m) /\ Forall (fun kv => Forall is_scalar_value (fst kv) /\ wf (snd kv)) m.
Proof.
  cbn [wf]. apply and_iff_compat_l. induction m as [|[k x] m IH]; [split; auto|].
  split; [intros (Hk & Hx & Hm); constructor; [split; assumption|apply IH, Hm]
         |intros H; inversion H as [|? ? [Hk Hx] Hm]; subst; repeat split; try assumption;
          apply IH; assumption].
Qed.

Lemma iwf_Array (l : list Value) : iwf (Array l) <-> Forall iwf l.
Proof.
  unfold iwf. cbn [wf no_float]. induction l as [|x l IH]; [split; auto|].
  split; [intros [[Hx Hl] [Nx Nl]]; constructor; [split; assumption|apply IH; split; assumption]
         |intros H; inversion H as [|? ? [Hx Nx] Hl]; subst; apply IH in Hl as [Hl Nl];
          split; split; assumption].
Qed.

Lemma iwf_Object (m : list (str * Value)) :
  iwf (Object m) <->
  keys_sorted (map fst m) /\ Forall (fun kv => Forall is_scalar_value (fst kv) /\ iwf (snd kv)) m.
Proof.
  unfold iwf. cbn [wf no_float]. induction m as [|[k x] m IH].
  { split; [intros [[Hs _] _]; split; [exact Hs|constructor]|intros [Hs _]; split; [split|]; auto]. }
  split.
  - intros [[Hs (Hk & Hx & Hm)] [Nx Nm]].
    destruct (proj1 IH (conj (conj (proj2 Hs) Hm) Nm)) as [_ Hall].
    split; [exact Hs|]. constructor; [split; [exact Hk|split; assumption]|exact Hall].
  - intros [Hs H]. inversion H as [|? ? [Hk [Hx Nx]] Hm]; subst.
    destruct (proj2 IH (conj (proj2 Hs) Hm)) as [[_ Hm'] Nm].
    split; [split; [exact Hs|split; [exact Hk|split; assumption]]|split; assumption].
Qed.

Lemma delim_num (rest : str) : delim rest -> num_delim rest.
Proof.
  destruct rest as [|c rest]; [auto|]. simpl. unfold is_json_ws, is_digit.
  intros H. decide_leb; simpl in *; intuition (try discriminate; lia).
Qed.

Lemma delim_ws_close (w rest : str) (c : char) :
  all_ws w -> c = 93 \/ c = 125 -> delim (w ++ c :: rest).
Proof. intros [|a w' Ha _] Hc; simpl; auto. Qed.

Lemma nat_digits_all_digit (f : nat) (n : Z) (acc : str) :
  Forall digit acc -> Forall digit (nat_digits f n acc).
Proof.
  revert n acc. induction f as [|f IH]; intros n acc Hacc; [exact Hacc|].
  cbn [nat_digits]. pose proof (Z.mod_pos_bound n 10 ltac:(lia)).
  assert (Forall digit ((48 + n mod 10) :: acc)) by (constructor; [unfold digit; lia|exact Hacc]).
  destruct (n <? 10); [assumption|]. apply IH. assumption.
Qed.

Lemma itoa_chars (n : Z) : Forall num_char (itoa n).
Proof.
  assert (H : forall m, Forall num_char (udigits m)).
  { intros m. eapply Forall_impl; [|apply nat_digits_all_digit, Forall_nil].
    intros c Hc. unfold num_char. tauto. }
  unfold itoa. destruct (n <? 0); [constructor; [unfold num_char; tauto|]|]; apply H.
Qed.

Lemma format64_chars (x : Z) : Forall num_char (format64 x).
Proof.
  assert (Hd : forall m, Forall num_char (udigits m)).
  { intros m. eapply Forall_impl; [|apply nat_digits_all_digit, Forall_nil].
    intros c Hc. unfold num_char. tauto. }
  assert (Hfs : forall n l, Forall num_char l ->
                Forall num_char (firstn n l) /\ Forall num_char (skipn n l)).
  { intros n l Hl. rewrite <- (firstn_skipn n l) in Hl. apply Forall_app in Hl. exact Hl. }
  assert (Hr : forall n, Forall num_char (repeat 48 n)).
  { intros n. apply Forall_forall. intros c Hc. apply repeat_spec in Hc. subst.
    unfold num_char, digit. lia. }
  assert (Hp : Forall num_char (if Z.testbit x 63 then [45] else [])).
  { destruct (Z.testbit x 63); repeat constructor; unfold num_char; tauto. }
  assert (Hc : forall c, In c [45; 46; 48; 101] -> num_char c).
  { intros c [<-|[<-|[<-|[<-|[]]]]]; unfold num_char, digit; lia. }
  unfold format64. cbv zeta. destruct (d2d _ _) as [mantissa k].
  repeat match goal with |- context [if ?b then _ else _] => destruct b end;
  repeat (apply Forall_app; split);
  try apply Hp; try apply Hd; try apply Hr; try apply itoa_chars;
  try apply (Hfs _ _ (Hd mantissa));
  try (apply Forall_forall; intros c Hin; apply Hc; simpl in Hin |- *; tauto).
Qed.

Lemma format64_head (x : Z) :
  exists c r, format64 x = c :: r /\ num_char c.
Proof.
  pose proof (format64_chars x) as H.
  assert (Hne : format64 x <> []).
  { unfold format64. cbv zeta. destruct (d2d _ _) as [mantissa k].
    repeat match goal with |- context [if ?b then _ else _] => destruct b end;
    intros E; apply (f_equal (@List.length Z)) in E; rewrite ?length_app in E; simpl in E; lia. }
  destruct (format64 x) as [|c r]; [congruence|]. inversion H; subst. eauto.
Qed.

Lemma to_json_head (f : Formatter) (lvl : nat) (v : Value) :
  exists c r, to_json f lvl v = c :: r /\ is_json_ws c = false /\ c <> 93 /\ c <> 125.
Proof.
  destruct v as [| [|] | n | x | s | l | m].
  - exists 110, (s2l "ull"). split; [reflexivity|]. split; [reflexivity|]. lia.
  - exists 116, (s2l "rue"). split; [reflexivity|]. split; [reflexivity|]. lia.
  - exists 102, (s2l "alse"). split; [reflexivity|]. split; [reflexivity|]. lia.
  - cbn [to_json]. unfold itoa. destruct (n <? 0) eqn:Hlt.
    + eexists _, _. split; [reflexivity|]. split; [reflexivity|]. lia.
    + destruct (Z.eq_dec n 0) as [->|Hn].
      * exists 48, []. split; [reflexivity|]. split; [reflexivity|]. lia.
      * destruct (Z.le_gt_cases 1 n) as [H1|H1].
        -- destruct (udigits_shape n H1) as (d & r & -> & Hd & _).
           exists d, r. split; [reflexivity|]. unfold is_json_ws.
           split; [decide_leb; simpl; try reflexivity; lia|lia].
        -- apply Z.ltb_ge in Hlt. lia.
  - cbn [to_json]. destruct (F64.is_finite x).
    + destruct (format64_head x) as (c & r & -> & Hc). exists c, r. split; [reflexivity|].
      unfold num_char, digit in Hc. unfold is_json_ws. split; [decide_leb; simpl; try reflexivity; lia|lia].
    + exists 110, (s2l "ull"). split; [reflexivity|]. split; [reflexivity|]. lia.
  - eexists _, _. split; [reflexivity|]. split; [reflexivity|]. lia.
  - rewrite to_json_Array. eexists _, _. split; [reflexivity|]. split; [reflexivity|]. lia.
  - rewrite to_json_Object. eexists _, _. split; [reflexivity|]. split; [reflexivity|]. lia.
Qed.

(** One step of the parser on a known first character. *)
Lemma pv_null (fuel d : nat) (rest : str) :
  parse_value (S fuel) d (s2l "null" ++ rest) = Some (Null, rest).
Proof. reflexivity. Qed.

Lemma pv_true (fuel d : nat) (rest : str) :
  parse_value (S fuel) d (s2l "true" ++ rest) = Some (Bool true, rest).
Proof. reflexivity. Qed.

Lemma pv_false (fuel d : nat) (rest : str) :
  parse_value (S fuel) d (s2l "false" ++ rest) = Some (Bool false, rest).
Proof. reflexivity. Qed.

Lemma pv_str (fuel d : nat) (t : str) :
  parse_value (S fuel) d (34 :: t) =
  match parse_str_chars t with Some (x, r) => Some (String x, r) | None => None end.
Proof. reflexivity. Qed.

Lemma pv_arr (fuel d : nat) (t : str) :
  parse_value (S fuel) (S (S d)) (91 :: t) =
  if starts_with 93 (skip_ws t) then Some (Array [], tl (skip_ws t))
  else match parse_value fuel (S d) t with
       | Some (x, r) =>
           match parse_seq_rest fuel (S d) r with
           | Some (xs, r') => Some (Array (x :: xs), r')
           | None => None
           end
       | None => None
       end.
Proof. reflexivity. Qed.

Lemma pv_obj (fuel d : nat) (t : str) :
  parse_value (S fuel) (S (S d)) (123 :: t) =
  if starts_with 125 (skip_ws t) then Some (Object [], tl (skip_ws t))
  else match parse_member fuel (S d) t with
       | Some ((k, x), r) =>
           match parse_map_rest fuel (S d) (map_insert k x []) r with
           | Some (m, r') => Some (Object m, r')
           | None => None
           end
       | None => None
       end.
Proof. reflexivity. Qed.

Lemma psr_close (fuel d : nat) (t : str) : parse_seq_rest (S fuel) d (93 :: t) = Some ([], t).
Proof. reflexivity. Qed.

Lemma psr_comma (fuel d : nat) (t : str) :
  parse_seq_rest (S fuel) d (44 :: t) =
  match parse_value fuel d t with
  | Some (x, r) =>
      match parse_seq_rest fuel d r with Some (xs, r') => Some (x :: xs, r') | None => None end
  | None => None
  end.
Proof. reflexivity. Qed.

Lemma pm_quote (fuel d : nat) (t : str) :
  parse_member (S fuel) d (34 :: t) =
  match parse_str_chars t with
  | Some (k, r) =>
      match skip_ws r with
      | c :: r1 =>
          if c =? 58 then
            match parse_value fuel d r1 with Some (x, r2) => Some ((k, x), r2) | None => None end
          else None
      | [] => None
      end
  | None => None
  end.
Proof. reflexivity. Qed.

Lemma pmr_close (fuel d : nat) acc (t : str) :
  parse_map_rest (S fuel) d acc (125 :: t) = Some (acc, t).
Proof. reflexivity. Qed.

Lemma pmr_comma (fuel d : nat) acc (t : str) :
  parse_map_rest (S fuel) d acc (44 :: t) =
  match parse_member fuel d t with
  | Some ((k, x), r) => parse_map_rest fuel d (map_insert k x acc) r
  | None => None
  end.
Proof. reflexivity. Qed.

Lemma scalar_nonneg (s : str) : Forall is_scalar_value s -> Forall (fun c => 0 <= c) s.
Proof. apply Forall_impl. intros c [H _]. lia. Qed.

Lemma parse_fes (k rest : str) :
  Forall is_scalar_value k ->
  parse_str_chars (flat_map escape_char k ++ [34] ++ rest) = Some (k, rest).
Proof. intros H. apply parse_escaped_str, scalar_nonneg, H. Qed.

Section RoundTrip.
Variable f : Formatter.
Hypothesis Hf : FormatterOk f.

Lemma all_ws_head (w t : str) (c : char) :
  all_ws w -> is_json_ws c = false -> skip_ws (w ++ c :: t) = c :: t.
Proof. intros Hw Hc. rewrite skip_ws_app by exact Hw. apply skip_ws_cons, Hc. Qed.

Lemma elems_delim (lvl : nat) (l : list Value) (e rest : str) :
  all_ws e -> delim (json_elems f lvl l false ++ e ++ 93 :: rest).
Proof.
  intros He. destruct l as [|x l]; [apply delim_ws_close; auto|].
  cbn [json_elems]. destruct (fo_next f Hf lvl) as (w & -> & _). simpl. auto.
Qed.

Lemma members_delim (lvl : nat) (m : list (str * Value)) (e rest : str) :
  all_ws e -> delim (json_members f lvl m false ++ e ++ 125 :: rest).
Proof.
  intros He. destruct m as [|[k x] m]; [apply delim_ws_close; auto|].
  cbn [json_members]. destruct (fo_next f Hf lvl) as (w & -> & _). simpl. auto.
Qed.

Lemma rt_elems (l : list Value) :
  Forall (rt f) l -> Forall iwf l ->
  forall fuel d lvl e rest, all_ws e ->
  (elems_nodes l < fuel)%nat -> (elems_depth l < d)%nat ->
  parse_seq_rest fuel d (json_elems f lvl l false ++ e ++ 93 :: rest) = Some (l, rest).
Proof.
  induction 1 as [|x l Hx Hl IH]; intros Hwf fuel d lvl e rest He Hn Hd;
    destruct fuel as [|fuel]; try (simpl in Hn; lia).
  - cbn [json_elems app]. rewrite parse_seq_rest_ws by exact He. apply psr_close.
  - inversion Hwf as [|? ? Hwx Hwl]; subst. cbn [json_elems].
    destruct (fo_next f Hf lvl) as (w & -> & Hw).
    cbn [elems_nodes elems_depth fold_right] in Hn, Hd.
    rewrite <- !app_assoc. cbn [app]. rewrite psr_comma.
    rewrite parse_value_ws by exact Hw.
    rewrite Hx; [|exact Hwx|unfold elems_nodes in Hn; lia|lia|apply elems_delim, He].
    rewrite IH; [reflexivity|exact Hwl|exact He|unfold elems_nodes; lia|unfold elems_depth; lia].
Qed.

Lemma rt_member (k : str) (x : Value) :
  rt f x -> iwf x -> Forall is_scalar_value k ->
  forall fuel d lvl rest, (S (nodes x) < fuel)%nat -> (depth x < d)%nat -> delim rest ->
  parse_member fuel d (format_escaped_str k ++ begin_object_value f ++ to_json f lvl x ++ rest)
  = Some ((k, x), rest).
Proof.
  intros Hx Hwx Hk fuel d lvl rest Hn Hd Hr. destruct fuel as [|fuel]; [lia|].
  unfold format_escaped_str. cbn [app]. rewrite <- !app_assoc. rewrite pm_quote.
  rewrite parse_fes by exact Hk.
  destruct (fo_colon f Hf) as (w & -> & Hw).
  cbn [app]. rewrite skip_ws_cons by reflexivity. cbn [Z.eqb Pos.eqb].
  rewrite parse_value_ws by exact Hw. rewrite Hx by (assumption || lia). reflexivity.
Qed.

Lemma rt_members (m : list (str * Value)) :
  Forall (fun kv => rt f (snd kv)) m ->
  Forall (fun kv => Forall is_scalar_value (fst kv) /\ iwf (snd kv)) m ->
  forall fuel d lvl acc e rest, all_ws e ->
  keys_sorted (map fst (acc ++ m)) ->
  (members_nodes m < fuel)%nat -> (members_depth m < d)%nat ->
  parse_map_rest fuel d acc (json_members f lvl m false ++ e ++ 125 :: rest)
  = Some (acc ++ m, rest).
Proof.
  induction 1 as [|[k x] m Hx Hm IH]; intros Hwf fuel d lvl acc e rest He Hs Hn Hd;
    destruct fuel as [|fuel]; try (simpl in Hn; lia).
  - cbn [json_members app]. rewrite parse_map_rest_ws by exact He. rewrite app_nil_r. apply pmr_close.
  - inversion Hwf as [|? ? [Hk Hwx] Hwm]; subst. cbn [json_members].
    destruct (fo_next f Hf lvl) as (w & -> & Hw).
    cbn [members_nodes members_depth fold_right snd] in Hn, Hd, Hx.
    rewrite <- !app_assoc. cbn [app].
    cbn [fst snd] in Hk, Hwx.
    rewrite pmr_comma, parse_member_ws by exact Hw.
    rewrite rt_member; [|exact Hx|exact Hwx|exact Hk|lia|lia|apply members_delim, He].
    rewrite map_app in Hs. cbn [map fst] in Hs.
    rewrite map_insert_last by exact (keys_sorted_lt _ _ _ Hs).
    rewrite IH; [rewrite <- app_assoc; reflexivity|exact Hwm|exact He| |unfold members_nodes; lia
                |unfold members_depth; lia].
    rewrite map_app, map_app, <- app_assoc. exact Hs.
Qed.

Lemma rt_all (v : Value) : rt f v.
Proof.
  induction v as [| b | n | x | s | l IH | m IH] using Value_ind';
    intros Hwf fuel d lvl rest Hn Hd Hr; destruct fuel as [|fuel]; try (simpl in Hn; lia).
  - apply pv_null.
  - destruct b; [apply pv_true|apply pv_false].
  - apply parse_value_itoa; [exact (proj1 Hwf)|apply delim_num, Hr].
  - destruct Hwf as [_ []].
  - cbn [to_json]. unfold format_escaped_str. cbn [app]. rewrite pv_str.
    rewrite <- app_assoc, parse_fes by exact (proj1 Hwf). reflexivity.
  - apply iwf_Array in Hwf.
    assert (Hn' : (S (elems_nodes l) < S fuel)%nat) by exact Hn.
    assert (Hd' : (S (elems_depth l) < d)%nat) by exact Hd.
    destruct d as [|[|d]]; [lia|lia|].
    rewrite to_json_Array. cbn [app]. rewrite <- !app_assoc. cbn [app]. rewrite pv_arr.
    destruct l as [|x l].
    + cbn [json_elems app]. rewrite all_ws_head by (apply (fo_end f Hf) || reflexivity).
      reflexivity.
    + inversion IH as [|? ? Hx Hl]; subst. inversion Hwf as [|? ? Hwx Hwl]; subst.
      cbn [json_elems]. rewrite <- !app_assoc.
      destruct (to_json_head f (S lvl) x) as (c & r & Ec & Hc1 & Hc2 & _).
      match goal with |- context [starts_with 93 (skip_ws ?t)] =>
        assert (Hs : starts_with 93 (skip_ws t) = false) end.
      { rewrite Ec. cbn [app]. rewrite all_ws_head by (apply (fo_first f Hf) || exact Hc1).
        apply Z.eqb_neq, Hc2. }
      rewrite Hs, parse_value_ws by apply (fo_first f Hf).
      unfold elems_nodes, elems_depth in *. cbn [fold_right] in Hn', Hd'.
      rewrite Hx; [|exact Hwx|lia|lia|apply elems_delim, (fo_end f Hf)].
      rewrite rt_elems; [reflexivity|exact Hl|exact Hwl|apply (fo_end f Hf)
                        |unfold elems_nodes; lia|unfold elems_depth; lia].
  - apply iwf_Object in Hwf. destruct Hwf as [Hks Hwf].
    assert (Hn' : (S (members_nodes m) < S fuel)%nat) by exact Hn.
    assert (Hd' : (S (members_depth m) < d)%nat) by exact Hd.
    destruct d as [|[|d]]; [lia|lia|].
    rewrite to_json_Object. cbn [app]. rewrite <- !app_assoc. cbn [app]. rewrite pv_obj.
    destruct m as [|[k x] m].
    + cbn [json_members app]. rewrite all_ws_head by (apply (fo_end f Hf) || reflexivity).
      reflexivity.
    + inversion IH as [|? ? Hx Hm]; subst. inversion Hwf as [|? ? [Hk Hwx] Hwm]; subst.
      cbn [fst snd] in Hx, Hk, Hwx.
      cbn [json_members]. rewrite <- !app_assoc.
      match goal with |- context [starts_with 125 (skip_ws ?t)] =>
        assert (Hs : starts_with 125 (skip_ws t) = false) end.
      { unfold format_escaped_str. cbn [app].
        rewrite all_ws_head by (apply (fo_first f Hf) || reflexivity). reflexivity. }
      rewrite Hs, parse_member_ws by apply (fo_first f Hf).
      unfold members_nodes, members_depth in *. cbn [fold_right snd] in Hn', Hd'.
      rewrite rt_member; [|exact Hx|exact Hwx|exact Hk|lia|lia|apply members_delim, (fo_end f Hf)].
      change (map_insert k x []) with ([] ++ [(k, x)]).
      rewrite rt_members; [reflexivity|exact Hm|exact Hwm|apply (fo_end f Hf)|exact Hks
                          |unfold members_nodes; lia|unfold members_depth; lia].
Qed.

Lemma nodes_lt_length (v : Value) : forall lvl, (nodes v < List.length (to_json f lvl v))%nat.
Proof.
  induction v as [| b | n | x | s | l IH | m IH] using Value_ind'; intros lvl.
  - simpl. lia.
  - destruct b; simpl; lia.
  - destruct (to_json_head f lvl (Number n)) as (c & r & E & _). rewrite E. simpl. lia.
  - destruct (to_json_head f lvl (Float x)) as (c & r & E & _). rewrite E. simpl. lia.
  - cbn [nodes to_json]. unfold format_escaped_str. simpl. lia.
  - rewrite to_json_Array. cbn [nodes]. simpl List.length. rewrite !length_app. simpl List.length.
    enough (H : forall b, (elems_nodes l <= List.length (json_elems f (S lvl) l b))%nat)
      by (specialize (H true); unfold elems_nodes in H; lia).
    induction IH as [|x l Hx _ IHl]; intros b; [simpl; lia|].
    cbn [json_elems]. rewrite !length_app. specialize (Hx (S lvl)). specialize (IHl false).
    unfold elems_nodes in *. cbn [fold_right]. lia.
  - rewrite to_json_Object. cbn [nodes]. simpl List.length. rewrite !length_app. simpl List.length.
    enough (H : forall b, (members_nodes m <= List.length (json_members f (S lvl) m b))%nat)
      by (specialize (H true); unfold members_nodes in H; lia).
    induction IH as [|[k x] m Hx _ IHm]; intros b; [simpl; lia|].
    cbn [json_members]. rewrite !length_app. cbn [snd] in Hx. specialize (Hx (S lvl)).
    specialize (IHm false). unfold members_nodes in *. cbn [fold_right snd].
    unfold format_escaped_str. cbn [List.length]. rewrite length_app. cbn [List.length]. lia.
Qed.

Lemma from_str_to_json (v : Value) :
  iwf v -> (depth v < 128)%nat -> from_str (to_json f 0 v) = Some v.
Proof.
  intros Hwf Hd. unfold from_str.
  pose proof (rt_all v Hwf (S (List.length (to_json f 0 v))) 128%nat 0%nat [] ltac:(pose proof (nodes_lt_length v 0); lia) Hd I) as H.
  rewrite app_nil_r in H. rewrite H. reflexivity.
Qed.

End RoundTrip.

End JsonFacts.

Module NdjsonFacts.
Import Json JsonSpec Ndjson JsonFacts.

Lemma container_frame (f : Formatter) (lvl : nat) (v : Value) :
  is_container v = true ->
  exists c m d, to_json f lvl v = c :: m ++ [d] /\ (c = 91 /\ d = 93 \/ c = 123 /\ d = 125).
Proof.
  destruct v as [| | | | | l | m]; try discriminate; intros _.
  - rewrite to_json_Array. eexists _, _, _. split; [rewrite app_assoc; reflexivity|auto].
  - rewrite to_json_Object. eexists _, _, _. split; [rewrite app_assoc; reflexivity|auto].
Qed.

Lemma parse_line_framed (f : Formatter) (v : Value) (w : str) :
  FormatterOk f -> is_container v = true -> iwf v -> (depth v < 128)%nat ->
  Forall (fun x => is_whitespace x = true) w ->
  parse_ndjson_line (to_json f 0 v ++ w) = Some v.
Proof.
  intros Hf Hc Hwf Hd Hw.
  destruct (container_frame f 0 v Hc) as (c & m & d & E & Hcd).
  unfold parse_ndjson_line. rewrite E. cbn [app]. rewrite <- app_assoc. cbn [app].
  rewrite trim_framed by (destruct Hcd as [[-> ->]|[-> ->]]; reflexivity || exact Hw).
  destruct Hcd as [[-> ->]|[-> ->]]; cbn [is_empty starts_with Z.eqb Pos.eqb negb andb];
    rewrite <- E; apply from_str_to_json; assumption.
Qed.

Lemma stringify_container (v : Value) (compact : bool) :
  is_container v = true ->
  stringify_ndjson_line v compact =
  to_json (if compact then CompactFormatter else PrettyFormatter) 0 v ++ [10].
Proof.
  intros Hc. unfold stringify_ndjson_line. destruct v; try discriminate; destruct compact; reflexivity.
Qed.

(** Compact output is a single line. *)
Lemma escape_no_nl (c : char) : 0 <= c -> ~ In 10 (escape_char c).
Proof.
  intros Hc. unfold escape_char. unfold hex_digit.
  pose proof (Z.div_pos c 16 Hc ltac:(lia)). pose proof (Z.mod_pos_bound c 16 ltac:(lia)).
  decide_leb; cbn [In]; intuition lia.
Qed.

Lemma udigits_no_nl (n : Z) : 0 <= n -> ~ In 10 (udigits n).
Proof.
  intros Hn Hin. pose proof (nat_digits_digits (S (Z.to_nat (Z.log2 n))) n [] Hn (Forall_nil _)) as H.
  rewrite Forall_forall in H. apply H in Hin. unfold digit in Hin. lia.
Qed.

Lemma compact_no_nl (v : Value) : forall lvl, wf v -> ~ In 10 (to_json CompactFormatter lvl v).
Proof.
  induction v as [| b | n | x | s | l IH | m IH] using Value_ind'; intros lvl Hwf.
  - simpl. intuition lia.
  - destruct b; simpl; intuition lia.
  - cbn [to_json]. unfold itoa. destruct (Z.ltb_spec n 0).
    + intros [Hin|Hin]; [lia|]. revert Hin. apply udigits_no_nl. lia.
    + apply udigits_no_nl. lia.
  - cbn [to_json]. destruct (F64.is_finite x); [|simpl; intuition lia].
    intros Hin. pose proof (format64_chars x) as H. rewrite Forall_forall in H.
    apply H in Hin. unfold num_char, digit in Hin. lia.
  - cbn [to_json wf] in *. unfold format_escaped_str. intros [H|H]; [lia|].
    apply in_app_or in H. destruct H as [H|[H|[]]]; [|lia].
    apply in_flat_map in H. destruct H as (c & Hc & H). rewrite Forall_forall in Hwf.
    apply (escape_no_nl c); [destruct (Hwf c Hc); lia|exact H].
  - apply wf_Array in Hwf. rewrite to_json_Array. intros [H|H]; [lia|].
    cbn [end_container CompactFormatter app] in H. apply in_app_or in H.
    destruct H as [H|[H|[]]]; [|lia]. revert H. generalize true.
    induction IH as [|x l Hx _ IHl]; intros b; [simpl; tauto|].
    inversion Hwf as [|? ? Hwx Hwl]; subst. cbn [json_elems]. intros H.
    apply in_app_or in H. destruct H as [H|H].
    + cbn [begin_value CompactFormatter] in H. destruct b; simpl in H; intuition lia.
    + apply in_app_or in H. destruct H as [H|H]; [exact (Hx (S lvl) Hwx H)|exact (IHl Hwl false H)].
  - apply wf_Object in Hwf. destruct Hwf as [_ Hwf]. rewrite to_json_Object. intros [H|H]; [lia|].
    cbn [end_container CompactFormatter app] in H. apply in_app_or in H.
    destruct H as [H|[H|[]]]; [|lia]. revert H. generalize true.
    induction IH as [|[k x] m Hx _ IHm]; intros b; [simpl; tauto|].
    inversion Hwf as [|? ? [Hk Hwx] Hwm]; subst. cbn [fst snd] in Hx, Hk, Hwx.
    cbn [json_members]. intros H. rewrite !in_app_iff in H.
    destruct H as [H|[H|[H|[H|H]]]].
    + cbn [begin_value CompactFormatter] in H. destruct b; simpl in H; intuition lia.
    + unfold format_escaped_str in H. destruct H as [H|H]; [lia|].
      apply in_app_or in H. destruct H as [H|[H|[]]]; [|lia].
      apply in_flat_map in H. destruct H as (c & Hc & H). rewrite Forall_forall in Hk.
      apply (escape_no_nl c); [destruct (Hk c Hc); lia|exact H].
    + simpl in H. intuition lia.
    + exact (Hx (S lvl) Hwx H).
    + exact (IHm Hwm false H).
Qed.
Lemma split_concat_lines (js : list str) :
  Forall (fun j => ~ In 10 j) js ->
  split_char 10 (List.concat (map (fun j => j ++ [10]) js)) = js ++ [[]].
Proof.
  induction 1 as [|j js Hj _ IH]; [reflexivity|].
  cbn [map List.concat]. rewrite <- app_assoc. cbn [app].
  rewrite split_char_sep_app by exact Hj. rewrite IH. reflexivity.
Qed.

Lemma lines_of_cons (l : str) (segs : list str) :
  segs <> [] -> lines_of (l :: segs) = strip_cr l :: lines_of segs.
Proof. destruct segs; [contradiction|reflexivity]. Qed.

Lemma lines_of_app_nil (js : list str) :
  Forall (fun j => strip_cr j = j) js -> lines_of (js ++ [[]]) = js.
Proof.
  induction 1 as [|j js Hj _ IH]; [reflexivity|].
  cbn [app]. rewrite lines_of_cons by (destruct js; discriminate). rewrite Hj, IH. reflexivity.
Qed.

Lemma strip_cr_framed (c : char) (m : str) (d : char) :
  d = 93 \/ d = 125 -> strip_cr (c :: m ++ [d]) = c :: m ++ [d].
Proof.
  intros Hd. unfold strip_cr. change (c :: m ++ [d]) with ((c :: m) ++ [d]).
  rewrite rev_unit. destruct Hd as [->| ->]; reflexivity.
Qed.

Lemma wf_nested (n : nat) : wf (nested n).
Proof. induction n as [|n IH]; simpl; auto. Qed.

Lemma depth_nested (n : nat) : depth (nested n) = S n.
Proof. induction n as [|n IH]; [reflexivity|]. cbn [nested depth fold_right]. rewrite IH. lia. Qed.

Lemma no_float_nested (n : nat) : no_float (nested n).
Proof. induction n as [|n IH]; simpl; auto. Qed.

Lemma wf_tiny_array : wf Samples.tiny_array.
Proof.
  unfold Samples.tiny_array. cbn [wf]. split; [|exact I]. split; [split|].
  - apply Z.leb_le. vm_compute. reflexivity.
  - apply Z.ltb_lt. vm_compute. reflexivity.
  - vm_compute. reflexivity.
Qed.

Lemma tiny_float_read_differs : Samples.tiny_float_read <> Samples.tiny_float.
Proof. intros E. apply Z.eqb_eq in E. vm_compute in E. discriminate. Qed.

(** C6: every object or array without [f64] numbers and of nesting depth
    below 128 survives [stringify_ndjson_line] then [parse_ndjson_line],
    compact or pretty. *)
Theorem ndjson_line_roundtrip (v : Value) (compact : bool) :
  is_container v = true -> wf v -> no_float v -> (depth v < 128)%nat ->
  parse_ndjson_line (stringify_ndjson_line v compact) = Some v.
Proof.
  intros Hc Hwf Hnf Hd. rewrite stringify_container by exact Hc.
  apply parse_line_framed; try assumption.
  - destruct compact; [exact compact_ok|exact pretty_ok].
  - split; assumption.
  - repeat constructor.
Qed.

Lemma ndjson_line_roundtrip_witness :
  parse_ndjson_line (stringify_ndjson_line (Array [Number 1; String (s2l "a")]) true)
  = Some (Array [Number 1; String (s2l "a")]).
Proof.
  apply ndjson_line_roundtrip.
  - reflexivity.
  - cbn [wf]. unfold i64_min, u64_max. split; [lia|split; [|exact I]].
    constructor; [unfold is_scalar_value; simpl; lia|constructor].
  - cbn. tauto.
  - simpl. lia.
Defined.

(** C6 (counterexample): two arrays do not come back.  128 nested arrays
    exceed the parser's recursion limit, so the line is rejected; and an
    array holding the [f64] nearest to [1e-23], written [1e-23], is read
    back, compact or pretty, as [1.0 / 1e23], which is another [f64]. *)
Lemma ndjson_line_roundtrip_deep :
  (is_container (nested 127) = true /\ wf (nested 127) /\ no_float (nested 127) /\
   depth (nested 127) = 128%nat /\
   parse_ndjson_line (stringify_ndjson_line (nested 127) true) = None) /\
  (is_container Samples.tiny_array = true /\ wf Samples.tiny_array /\
   depth Samples.tiny_array = 1%nat /\
   stringify_ndjson_line Samples.tiny_array true = s2l "[1e-23]" ++ [10] /\
   Samples.tiny_float_read <> Samples.tiny_float /\
   forall compact, parse_ndjson_line (stringify_ndjson_line Samples.tiny_array compact)
                   = Some (Array [Float Samples.tiny_float_read])).
Proof.
  split.
  - split; [reflexivity|]. split; [apply wf_nested|]. split; [apply no_float_nested|].
    split; [apply depth_nested|]. vm_compute. reflexivity.
  - split; [reflexivity|]. split; [exact wf_tiny_array|].
    split; [reflexivity|]. split; [vm_compute; reflexivity|]. split; [exact tiny_float_read_differs|].
    intros [|]; vm_compute; reflexivity.
Qed.

Lemma compact_lines (vs : list Value) :
  Forall (fun v => is_container v = true /\ wf v /\ no_float v /\ (depth v < 128)%nat) vs ->
  parse_ndjson (stringify_ndjson vs true) = vs.
Proof.
  intros H. unfold stringify_ndjson.
  rewrite (map_ext_in _ (fun v => to_string v ++ [10])).
  2:{ intros v Hv. rewrite Forall_forall in H. apply stringify_container, (H v Hv). }
  rewrite <- (map_map to_string (fun j => j ++ [10])).
  unfold parse_ndjson, lines. rewrite split_concat_lines.
  2:{ apply Forall_map. eapply Forall_impl; [|exact H].
      intros v (_ & Hw & _). apply compact_no_nl, Hw. }
  rewrite lines_of_app_nil.
  2:{ apply Forall_map. eapply Forall_impl; [|exact H]. intros v (Hc & _ & _).
      destruct (container_frame CompactFormatter 0 v Hc) as (c & m & d & E & Hcd).
      unfold to_string. rewrite E. apply strip_cr_framed. tauto. }
  induction H as [|v vs (Hc & Hw & Hnf & Hd) _ IH]; [reflexivity|].
  cbn [map fold_right]. rewrite IH.
  rewrite <- (app_nil_r (to_string v)). unfold to_string.
  rewrite parse_line_framed by (exact compact_ok || assumption || (split; assumption) || constructor).
  reflexivity.
Qed.

(** C10: for lists of objects and arrays without [f64] numbers and of
    nesting depth below 128, [parse_ndjson (stringify_ndjson values true)]
    gives back the list, and some such list (one object with two fields)
    is not given back in pretty mode, whose documents span several
    lines. *)
Theorem ndjson_stream_roundtrip :
  (forall vs, Forall (fun v => is_container v = true /\ wf v /\ no_float v /\ (depth v < 128)%nat) vs ->
   parse_ndjson (stringify_ndjson vs true) = vs) /\
  (exists vs, Forall (fun v => is_container v = true /\ wf v /\ no_float v /\ (depth v < 128)%nat) vs /\
   parse_ndjson (stringify_ndjson vs false) <> vs).
Proof.
  split; [exact compact_lines|].
  exists [two_fields]. split.
  - constructor; [|constructor]. split; [reflexivity|]. split; [|split; [cbn; tauto|cbn; lia]].
    apply wf_Object. split.
    + cbn. split; [repeat constructor|auto].
    + repeat constructor; unfold is_scalar_value, i64_min, u64_max; cbn; lia.
  - vm_compute. discriminate.
Qed.

Lemma ndjson_stream_roundtrip_witness :
  parse_ndjson (stringify_ndjson [Array []; two_fields] true) = [Array []; two_fields].
Proof.
  apply (proj1 ndjson_stream_roundtrip).
  repeat constructor; cbn; try lia; try tauto; unfold is_scalar_value, i64_min, u64_max; lia.
Defined.

(** C10 (counterexample): two one-element lists are not given back even in
    compact mode: an array 128 levels deep is lost, and an array holding
    the [f64] nearest to [1e-23] comes back holding [1.0 / 1e23]. *)
Lemma ndjson_stream_compact_deep :
  (is_container (nested 127) = true /\ wf (nested 127) /\ no_float (nested 127) /\
   parse_ndjson (stringify_ndjson [nested 127] true) = []) /\
  (is_container Samples.tiny_array = true /\ wf Samples.tiny_array /\
   Samples.tiny_float_read <> Samples.tiny_float /\
   parse_ndjson (stringify_ndjson [Samples.tiny_array] true)
   = [Array [Float Samples.tiny_float_read]]).
Proof.
  split.
  - split; [reflexivity|]. split; [apply wf_nested|]. split; [apply no_float_nested|].
    vm_compute. reflexivity.
  - split; [reflexivity|]. split; [exact wf_tiny_array|].
    split; [exact tiny_float_read_differs|]. vm_compute. reflexivity.
Qed.

End NdjsonFacts.

Module StreamFacts.
Import Json Ndjson OutputStream.

Lemma set_buffer_twice (st : JsonOutputStream) (a b : str) :
  set_buffer (set_buffer st a) b = set_buffer st b.
Proof. reflexivity. Qed.

Lemma set_buffer_same (st : JsonOutputStream) : set_buffer st (buffer st) = st.
Proof. destruct st; reflexivity. Qed.

Lemma process_line_set_buffer (st : JsonOutputStream) (b l : str) :
  process_line (set_buffer st b) l =
  (set_buffer (fst (process_line st l)) b, snd (process_line st l)).
Proof.
  unfold process_line. cbn [line_count messages errors set_buffer].
  destruct (parse_ndjson_line l); [reflexivity|]. destruct (starts_with 123 (trim l)); reflexivity.
Qed.

Lemma process_lines_set_buffer (ls : list str) : forall (st : JsonOutputStream) (b : str),
  process_lines (set_buffer st b) ls =
  (set_buffer (fst (process_lines st ls)) b, snd (process_lines st ls)).
Proof.
  induction ls as [|l ls IH]; intros st b; [reflexivity|].
  cbn [process_lines]. rewrite process_line_set_buffer.
  destruct (process_line st l) as [st1 o]. cbn [fst snd]. rewrite IH.
  destruct (process_lines st1 ls). reflexivity.
Qed.

Lemma process_lines_app (l1 l2 : list str) : forall (st : JsonOutputStream),
  process_lines st (l1 ++ l2) =
  let (s1, m1) := process_lines st l1 in
  let (s2, m2) := process_lines s1 l2 in (s2, m1 ++ m2).
Proof.
  induction l1 as [|l l1 IH]; intros st.
  - cbn. destruct (process_lines st l2). reflexivity.
  - cbn [app process_lines]. destruct (process_line st l) as [st1 o].
    rewrite IH. destruct (process_lines st1 l1) as [s1 m1]. destruct (process_lines s1 l2).
    rewrite app_assoc. reflexivity.
Qed.

Lemma process_eq (st : JsonOutputStream) (chunk : str) :
  process st chunk =
  process_lines (set_buffer st (last (split_char 10 (buffer st ++ chunk)) []))
                (removelast (split_char 10 (buffer st ++ chunk))).
Proof. unfold process. rewrite firstn_pred_length, hd_skipn_pred_length. reflexivity. Qed.

Lemma removelast_app_ne {A : Type} (l1 l2 : list A) :
  l2 <> [] -> removelast (l1 ++ l2) = l1 ++ removelast l2.
Proof.
  intros H. induction l1 as [|x l1 IH]; [reflexivity|].
  cbn [app]. rewrite <- IH. simpl. destruct (l1 ++ l2) eqn:E; [|reflexivity].
  apply app_eq_nil in E. tauto.
Qed.

Lemma last_app_ne {A : Type} (l1 l2 : list A) (d : A) :
  l2 <> [] -> last (l1 ++ l2) d = last l2 d.
Proof.
  intros H. induction l1 as [|x l1 IH]; [reflexivity|].
  cbn [app]. rewrite <- IH. simpl. destruct (l1 ++ l2) eqn:E; [|reflexivity].
  apply app_eq_nil in E. tauto.
Qed.

Lemma buffer_process_lines (ls : list str) : forall (st : JsonOutputStream),
  buffer (fst (process_lines st ls)) = buffer st.
Proof.
  induction ls as [|l ls IH]; intros st; [reflexivity|].
  cbn [process_lines]. destruct (process_line st l) as [st1 o] eqn:E.
  destruct (process_lines st1 ls) as [s2 m2] eqn:E2. cbn [fst].
  replace s2 with (fst (process_lines st1 ls)) by (rewrite E2; reflexivity). rewrite IH.
  replace st1 with (fst (process_line st l)) by (rewrite E; reflexivity).
  unfold process_line. destruct (parse_ndjson_line l); [reflexivity|].
  destruct (starts_with 123 (trim l)); reflexivity.
Qed.

(** Feeding [a ++ b] is feeding [a], then [b]. *)
Lemma process_app (st : JsonOutputStream) (a b : str) :
  process st (a ++ b) =
  let (s1, m1) := process st a in
  let (s2, m2) := process s1 b in (s2, m1 ++ m2).
Proof.
  rewrite (process_eq st a), (process_eq st (a ++ b)).
  set (P := split_char 10 (buffer st ++ a)).
  assert (Hs : split_char 10 (buffer st ++ a ++ b) =
               removelast P ++ split_char 10 (last P [] ++ b))
    by (rewrite app_assoc; apply split_char_app).
  pose proof (split_char_not_nil 10 (last P [] ++ b)) as Hne.
  rewrite Hs, removelast_app_ne, last_app_ne by exact Hne.
  rewrite process_lines_app, process_lines_set_buffer.
  destruct (process_lines st (removelast P)) as [s1 m1] eqn:E1. cbn [fst snd].
  rewrite (process_lines_set_buffer (removelast P) st (last P [])), E1. cbn [fst snd].
  rewrite (process_eq (set_buffer s1 (last P []))). cbn [buffer set_buffer].
  rewrite set_buffer_twice.
  destruct (process_lines (set_buffer s1 (last (split_char 10 (last P [] ++ b)) []))
                          (removelast (split_char 10 (last P [] ++ b)))).
  reflexivity.
Qed.
Lemma buffer_process (st : JsonOutputStream) (c : str) : ~ In 10 (buffer (fst (process st c))).
Proof.
  rewrite process_eq, buffer_process_lines. cbn [buffer set_buffer]. apply last_split_no_sep.
Qed.

Lemma process_nil (st : JsonOutputStream) : ~ In 10 (buffer st) -> process st [] = (st, []).
Proof.
  intros H. rewrite process_eq, app_nil_r, split_char_no_sep by exact H.
  cbn. rewrite set_buffer_same. reflexivity.
Qed.

Lemma process_chunks_concat (cs : list str) : forall (st : JsonOutputStream),
  ~ In 10 (buffer st) -> process_chunks st cs = process st (List.concat cs).
Proof.
  induction cs as [|c cs IH]; intros st H.
  - cbn. rewrite process_nil by exact H. reflexivity.
  - cbn [process_chunks List.concat]. rewrite process_app.
    pose proof (buffer_process st c) as Hb.
    destruct (process st c) as [s1 m1]. cbn [fst] in Hb. rewrite IH by exact Hb. reflexivity.
Qed.

(** One line ending in ['\n'] on an empty buffer goes through the loop body once. *)
Lemma process_one_line (st : JsonOutputStream) (l : str) :
  ~ In 10 l ->
  process (set_buffer st []) (l ++ [10]) =
  (fst (process_line (set_buffer st []) l), option_to_list (snd (process_line (set_buffer st []) l))).
Proof.
  intros H. rewrite process_eq. cbn [buffer set_buffer app].
  rewrite split_char_sep_app by exact H. cbn [split_char removelast last].
  cbn [process_lines]. rewrite set_buffer_twice.
  destruct (process_line (set_buffer st []) l) as [s o]. cbn. rewrite app_nil_r. reflexivity.
Qed.

Lemma process_line_log (st : JsonOutputStream) (l : str) :
  messages (fst (process_line st l)) = messages st ++ option_to_list (snd (process_line st l)) /\
  exists es, errors (fst (process_line st l)) = errors st ++ es.
Proof.
  unfold process_line. destruct (parse_ndjson_line l).
  - split; [reflexivity|]. exists []. rewrite app_nil_r. reflexivity.
  - destruct (starts_with 123 (trim l)); cbn; (split; [rewrite app_nil_r; reflexivity|]);
      eexists; [reflexivity|]. rewrite app_nil_r. reflexivity.
Qed.

Lemma process_lines_log (ls : list str) : forall (st : JsonOutputStream),
  messages (fst (process_lines st ls)) = messages st ++ snd (process_lines st ls) /\
  exists es, errors (fst (process_lines st ls)) = errors st ++ es.
Proof.
  induction ls as [|l ls IH]; intros st.
  - cbn. rewrite app_nil_r. split; [reflexivity|]. exists []. rewrite app_nil_r. reflexivity.
  - cbn [process_lines]. pose proof (process_line_log st l) as [Hm [e1 He]].
    destruct (process_line st l) as [s1 o]. cbn [fst snd] in Hm, He.
    pose proof (IH s1) as [Hm2 [e2 He2]].
    destruct (process_lines s1 ls) as [s2 ms]. cbn [fst snd] in *.
    split; [rewrite Hm2, Hm, app_assoc; reflexivity|].
    exists (e1 ++ e2). rewrite He2, He, app_assoc. reflexivity.
Qed.

Lemma call_log (st : JsonOutputStream) (c : Call) :
  messages (fst (call st c)) = messages st ++ snd (call st c) /\
  exists es, errors (fst (call st c)) = errors st ++ es.
Proof.
  destruct c as [chunk|]; cbn [call].
  - rewrite process_eq. exact (process_lines_log _ _).
  - unfold flush. destruct (is_empty (trim (buffer st))).
    + cbn. rewrite app_nil_r. split; [reflexivity|]. exists []. rewrite app_nil_r. reflexivity.
    + pose proof (process_line_log (set_buffer st []) (buffer st)) as H.
      destruct (process_line (set_buffer st []) (buffer st)). exact H.
Qed.

Lemma run_log (cs : list Call) : forall (st : JsonOutputStream),
  messages (fst (run st cs)) = messages st ++ List.concat (snd (run st cs)) /\
  exists es, errors (fst (run st cs)) = errors st ++ es.
Proof.
  induction cs as [|c cs IH]; intros st.
  - cbn. rewrite app_nil_r. split; [reflexivity|]. exists []. rewrite app_nil_r. reflexivity.
  - cbn [run]. pose proof (call_log st c) as [Hm [e1 He]].
    destruct (call st c) as [s1 ms]. cbn [fst snd] in Hm, He.
    pose proof (IH s1) as [Hm2 [e2 He2]].
    destruct (run s1 cs) as [s2 mss]. cbn [fst snd List.concat] in *.
    split; [rewrite Hm2, Hm, app_assoc; reflexivity|].
    exists (e1 ++ e2). rewrite He2, He, app_assoc. reflexivity.
Qed.

(** C2: from a new stream, feeding a text as any sequence of chunks leaves
    the same stream as feeding it in one chunk and returns the same
    messages; so after [flush] the accumulated messages and the returned
    vectors agree. *)
Theorem chunk_boundary_invariance (cs : list str) :
  process_chunks new cs = process new (List.concat cs) /\
  get_messages (fst (flush (fst (process_chunks new cs)))) =
  get_messages (fst (flush (fst (process new (List.concat cs))))) /\
  snd (process_chunks new cs) ++ snd (flush (fst (process_chunks new cs))) =
  snd (process new (List.concat cs)) ++ snd (flush (fst (process new (List.concat cs)))).
Proof.
  rewrite process_chunks_concat by (intros []). split; [reflexivity|split; reflexivity].
Qed.

(** C3: a completed line that [parse_ndjson_line] rejects is recorded as a
    [ParseError] exactly when its trimmed form starts with ['{']; a
    rejected line starting with ['['] leaves no error. *)
Theorem parse_error_recorded (st : JsonOutputStream) (l : str) :
  ~ In 10 l -> parse_ndjson_line l = None ->
  fst (process (set_buffer st []) (l ++ [10])) =
  {| buffer := []; messages := messages st;
     errors := errors st ++ (if starts_with 123 (trim l)
                             then [{| line := l; line_number := S (line_count st) |}] else []);
     line_count := S (line_count st) |} /\
  snd (process (set_buffer st []) (l ++ [10])) = [].
Proof.
  intros Hl Hp. rewrite process_one_line by exact Hl. unfold process_line. rewrite Hp.
  cbn [buffer messages errors line_count set_buffer fst snd option_to_list].
  destruct (starts_with 123 (trim l)); rewrite ?app_nil_r; split; reflexivity.
Qed.

Lemma parse_error_recorded_witness :
  fst (process (set_buffer new []) (s2l "{bad" ++ [10])) =
  {| buffer := []; messages := [];
     errors := [{| line := s2l "{bad"; line_number := 1 |}]; line_count := 1 |} /\
  snd (process (set_buffer new []) (s2l "{bad" ++ [10])) = [].
Proof.
  apply (parse_error_recorded new (s2l "{bad")).
  - simpl. intuition discriminate.
  - vm_compute. reflexivity.
Defined.

(** C3 (counterexample): the line [[1,] is a candidate (trimmed, it starts
    with ['[']) and fails to parse, yet no [ParseError] is recorded. *)
Lemma parse_error_bracket_dropped :
  starts_with 91 (trim (s2l "[1,")) = true /\
  from_str (trim (s2l "[1,")) = None /\
  parse_ndjson_line (s2l "[1,") = None /\
  errors (fst (process new (s2l "[1," ++ [10]))) = [].
Proof. vm_compute. repeat split. Qed.

(** C7: [flush] on a buffer of whitespace only returns no messages and
    leaves the stream as it was: no error, the same line counter. *)
Theorem flush_whitespace (st : JsonOutputStream) :
  Forall (fun c => is_whitespace c = true) (buffer st) -> flush st = (st, []).
Proof. intros H. unfold flush. rewrite trim_all_ws by exact H. reflexivity. Qed.

Lemma flush_whitespace_witness :
  flush (set_buffer new [32; 9; 13]) = (set_buffer new [32; 9; 13], []).
Proof. apply flush_whitespace. repeat constructor. Defined.

(** C8: the completed line [123] is valid JSON, yet processing it yields no
    message and no [ParseError]; only the line counter moves. *)
Theorem bare_scalar_ignored (st : JsonOutputStream) :
  from_str (s2l "123") = Some (Number 123) /\
  process (set_buffer st []) (s2l "123" ++ [10]) =
  ({| buffer := []; messages := messages st; errors := errors st;
      line_count := S (line_count st) |}, []).
Proof.
  split; [reflexivity|].
  rewrite process_one_line by (simpl; intuition discriminate). reflexivity.
Qed.

(** C9: over any run of [process] and [flush] calls, [messages] grows by
    exactly the returned vectors, in call order, and [errors] only grows;
    from [new] or after [reset], [get_messages] is exactly their
    concatenation. *)
Theorem messages_are_returned :
  (forall st cs,
     messages (fst (run st cs)) = messages st ++ List.concat (snd (run st cs)) /\
     exists es, errors (fst (run st cs)) = errors st ++ es) /\
  (forall cs, get_messages (fst (run new cs)) = List.concat (snd (run new cs))) /\
  (forall st cs, get_messages (fst (run (reset st) cs)) = List.concat (snd (run (reset st) cs))).
Proof.
  split; [intros st cs; apply run_log|].
  split; [intros cs|intros st cs]; unfold get_messages; rewrite (proj1 (run_log cs _)); reflexivity.
Qed.

End StreamFacts.

Module ControllerFacts.

Lemma str_eqb_spec (a b : str) : str_eqb a b = true <-> a = b.
Proof.
  revert b. induction a as [|x a IH]; intros [|y b]; cbn [str_eqb];
    try (split; [discriminate|congruence]); [split; reflexivity|].
  rewrite andb_true_iff, Z.eqb_eq, IH. split; [intros [-> ->]; reflexivity|].
  intros H; injection H; auto.
Qed.

Lemma str_eqb_false (a b : str) : str_eqb a b = false <-> a <> b.
Proof. rewrite <- str_eqb_spec. destruct (str_eqb a b); split; congruence. Qed.

Lemma is_empty_true (s : str) : is_empty s = true <-> s = [].
Proof. destruct s; cbn; split; congruence. Qed.

Lemma is_some_false {A : Type} (o : option A) : is_some o = false <-> o = None.
Proof. destruct o; cbn; split; congruence. Qed.

(** C5: [Agent::new] fails exactly when the tool is empty, the working
    directory is empty, isolation [screen] has no screen name or isolation
    [docker] has no container name; when tool and working directory are
    given and screen isolation lacks its name, the error names
    [screen_name]. The checks run in that order and the first failing one
    gives the message: an error mentions [screen_name] only in that case,
    an empty tool gives [tool is required] and an empty working directory
    (with a tool) gives [working_directory is required]. *)
Theorem agent_new_validation (o : AgentOptions.t) :
  ((exists e, agent_new o = Err e) <->
   AgentOptions.tool o = [] \/ AgentOptions.working_directory o = [] \/
   (AgentOptions.isolation o = s2l "screen" /\ AgentOptions.screen_name o = None) \/
   (AgentOptions.isolation o = s2l "docker" /\ AgentOptions.container_name o = None)) /\
  (AgentOptions.tool o <> [] -> AgentOptions.working_directory o <> [] ->
   AgentOptions.isolation o = s2l "screen" -> AgentOptions.screen_name o = None ->
   exists e, agent_new o = Err e /\ contains e (s2l "screen_name") = true) /\
  (forall e, agent_new o = Err e -> contains e (s2l "screen_name") = true ->
   AgentOptions.tool o <> [] /\ AgentOptions.working_directory o <> [] /\
   AgentOptions.isolation o = s2l "screen" /\ AgentOptions.screen_name o = None) /\
  (AgentOptions.tool o = [] -> agent_new o = Err (s2l "tool is required")) /\
  (AgentOptions.tool o <> [] -> AgentOptions.working_directory o = [] ->
   agent_new o = Err (s2l "working_directory is required")).
Proof.
  split; [|split; [|split; [|split]]].
  - unfold agent_new.
    destruct (is_empty (AgentOptions.tool o)) eqn:Et.
    { apply is_empty_true in Et. split; [auto|intros _; eexists; reflexivity]. }
    destruct (is_empty (AgentOptions.working_directory o)) eqn:Ew.
    { apply is_empty_true in Ew. split; [auto|intros _; eexists; reflexivity]. }
    destruct (str_eqb (AgentOptions.isolation o) (s2l "screen")) eqn:Es;
      destruct (AgentOptions.screen_name o) as [sn|] eqn:En; cbn [is_some negb andb].
    2:{ apply str_eqb_spec in Es. split; [auto|intros _; eexists; reflexivity]. }
    all: destruct (str_eqb (AgentOptions.isolation o) (s2l "docker")) eqn:Ed;
      destruct (AgentOptions.container_name o) as [cn|] eqn:Ec; cbn [is_some negb andb];
      try (apply str_eqb_spec in Ed; split; [auto 6|intros _; eexists; reflexivity]).
    all: split; [intros [e He]; discriminate|].
    all: assert (Ht : AgentOptions.tool o <> []) by (intros H; rewrite H in Et; discriminate).
    all: assert (Hw : AgentOptions.working_directory o <> []) by (intros H; rewrite H in Ew; discriminate).
    all: intros [H|[H|[[H1 H2]|[H1 H2]]]]; try contradiction; try discriminate;
      try (apply str_eqb_false in Es; contradiction);
      try (apply str_eqb_false in Ed; contradiction).
    all: rewrite H1 in *; discriminate.
  - intros Ht Hw Hs Hn. unfold agent_new.
    destruct (is_empty (AgentOptions.tool o)) eqn:Et; [apply is_empty_true in Et; contradiction|].
    destruct (is_empty (AgentOptions.working_directory o)) eqn:Ew;
      [apply is_empty_true in Ew; contradiction|].
    rewrite Hs, Hn. eexists. split; reflexivity.
  - intros e. unfold agent_new.
    destruct (is_empty (AgentOptions.tool o)) eqn:Et.
    { intros H; injection H as <-. discriminate. }
    destruct (is_empty (AgentOptions.working_directory o)) eqn:Ew.
    { intros H; injection H as <-. discriminate. }
    assert (Ht : AgentOptions.tool o <> []) by (intros H; rewrite H in Et; discriminate).
    assert (Hw : AgentOptions.working_directory o <> []) by (intros H; rewrite H in Ew; discriminate).
    destruct (str_eqb (AgentOptions.isolation o) (s2l "screen")) eqn:Es;
      destruct (AgentOptions.screen_name o) as [sn|] eqn:En; cbn [is_some negb andb].
    2:{ intros H; injection H as <-. intros _. apply str_eqb_spec in Es. auto. }
    all: destruct (str_eqb (AgentOptions.isolation o) (s2l "docker")) eqn:Ed;
      destruct (AgentOptions.container_name o) as [cn|] eqn:Ec; cbn [is_some negb andb];
      intros H; try discriminate; injection H as <-; discriminate.
  - intros Ht. unfold agent_new. rewrite Ht. reflexivity.
  - intros Ht Hw. unfold agent_new. rewrite Hw.
    destruct (is_empty (AgentOptions.tool o)) eqn:Et; [apply is_empty_true in Et; contradiction|].
    reflexivity.
Qed.

(** C5 (counterexample): with an empty tool, screen isolation and no screen
    name, the error is the tool's and does not mention [screen_name]. *)
Lemma agent_new_screen_message :
  let o := {| AgentOptions.tool := []; AgentOptions.working_directory := s2l "/tmp";
              AgentOptions.prompt := None; AgentOptions.system_prompt := None;
              AgentOptions.model := None; AgentOptions.isolation := s2l "screen";
              AgentOptions.screen_name := None; AgentOptions.container_name := None;
              AgentOptions.json := false; AgentOptions.resume := None |} in
  agent_new o = Err (s2l "tool is required") /\
  contains (s2l "tool is required") (s2l "screen_name") = false.
Proof. split; reflexivity. Qed.
Section Run.
Variable behaviour : str -> ChildBehaviour.
Variable spawn_error : str -> option str.
Variable build_agent_command : AgentCommandOptions.t -> str.
Variable extract_session_id : str -> str -> option str.

(** C4: in dry-run mode the executor returns exit code 0 with empty
    stdout and stderr and spawns nothing; a dry-run [start] succeeds
    without spawning or storing a handle; a dry-run [stop] in screen or
    docker isolation returns, spawns nothing, and any result it returns is
    the default one (exit code 0, empty output). *)
Theorem dry_run_no_spawn :
  (forall cmd attached w,
     execute_command behaviour spawn_error cmd true attached w =
     Some (Ok {| ExecutionResult.exit_code := 0; ExecutionResult.stdout := [];
                 ExecutionResult.stderr := []; ExecutionResult.command := cmd |},
           println (println w dry_run_banner) cmd) /\
     spawned (println (println w dry_run_banner) cmd) = spawned w) /\
  (forall a so w, AgentStartOptions.dry_run so = true ->
     fst (fst (start spawn_error build_agent_command a so w)) = Ok tt /\
     spawned (snd (start spawn_error build_agent_command a so w)) = spawned w /\
     process_handle (snd (fst (start spawn_error build_agent_command a so w))) = process_handle a) /\
  (forall a sto w, AgentStopOptions.dry_run sto = true ->
     (str_eqb (AgentOptions.isolation (options a)) (s2l "screen")
      || str_eqb (AgentOptions.isolation (options a)) (s2l "docker")) = true ->
     exists res, stop behaviour spawn_error extract_session_id a sto w = Some res /\
     spawned (snd res) = spawned w /\
     forall r, fst (fst res) = Ok r -> r = AgentResult.default).
Proof.
  split; [intros; split; reflexivity|]. split.
  - intros a so w H. unfold start. rewrite H.
    destruct (AgentOptions.json (options a)); split; try reflexivity; split; reflexivity.
  - intros a sto w Hd Hi. unfold stop. cbv zeta. rewrite Hi.
    destruct (str_eqb (AgentOptions.isolation (options a)) (s2l "screen"));
      [destruct (AgentOptions.screen_name (options a))|destruct (AgentOptions.container_name (options a))];
      (rewrite Hd || idtac); (eexists; split; [reflexivity|]); cbn [fst snd];
      (split; [reflexivity|intros r Hr; congruence]).
Qed.

(** A wait that succeeded caches its code: waiting again answers the same. *)
Lemma wait_for_exit_cached (h h' : ProcessHandle.t) (c : Z) :
  wait_for_exit behaviour h = Some (Ok c, h') -> wait_for_exit behaviour h' = Some (Ok c, h').
Proof.
  unfold wait_for_exit. destruct (ProcessHandle.exit_code h) as [c0|] eqn:E.
  { intros H; injection H as <- <-. rewrite E. reflexivity. }
  destruct (ProcessHandle.child h) as [ch|] eqn:Ec.
  - destruct (stalls (behaviour (child_command ch))); [discriminate|].
    destruct (out_error (behaviour (child_command ch))); [discriminate|].
    destruct (err_error (behaviour (child_command ch))); [discriminate|].
    destruct (wait_error (behaviour (child_command ch))); [discriminate|].
    intros H; injection H as <- <-. reflexivity.
  - intros H; injection H as <- <-. rewrite E, Ec. reflexivity.
Qed.

Lemma no_isolation_branch (a : Agent) :
  no_isolation a ->
  (str_eqb (AgentOptions.isolation (options a)) (s2l "screen")
   || str_eqb (AgentOptions.isolation (options a)) (s2l "docker")) = false /\
  (str_eqb (AgentOptions.isolation (options a)) (s2l "none")
   || is_empty (AgentOptions.isolation (options a))) = true.
Proof. intros [-> | ->]; split; reflexivity. Qed.

(** [stop] without isolation follows [wait_for_exit] on the handle: it
    does not return when the wait does not, fails with the wait's error,
    and otherwise answers [Ok] with the wait's code; it leaves the world
    alone and keeps the waited handle. *)
Lemma stop_none (a : Agent) (h : ProcessHandle.t) (sto : AgentStopOptions.t) (w : World) :
  no_isolation a -> process_handle a = Some h ->
  match wait_for_exit behaviour h with
  | None => stop behaviour spawn_error extract_session_id a sto w = None
  | Some (Err e, h') =>
      stop behaviour spawn_error extract_session_id a sto w
      = Some (Err e, set_process_handle a (Some h'), w)
  | Some (Ok c, h') =>
      exists r a', stop behaviour spawn_error extract_session_id a sto w = Some (Ok r, a', w) /\
        options a' = options a /\ process_handle a' = Some h' /\ AgentResult.exit_code r = c
  end.
Proof.
  intros Hi Hh. unfold stop. cbv zeta.
  destruct (no_isolation_branch a Hi) as [Hc1 Hc2]. rewrite Hc1, Hc2, Hh.
  destruct (wait_for_exit behaviour h) as [[[c|e] h']|]; [|reflexivity|reflexivity].
  cbn [fst snd ProcessHandle.get_output].
  destruct (output_stream (set_process_handle a (Some h'))) as [stream|];
    cbn [set_process_handle set_output_stream set_session_id options process_handle];
    destruct (is_tool_supported (AgentOptions.tool (options a)));
    try destruct (existsb _ _);
    (eexists _, _; split; [reflexivity|]); cbn; auto.
Qed.

Lemma start_handle (a : Agent) (so : AgentStartOptions.t) (w : World) (a1 : Agent) (w1 : World) :
  AgentStartOptions.dry_run so = false -> AgentStartOptions.detached so = false ->
  start spawn_error build_agent_command a so w = (Ok tt, a1, w1) ->
  options a1 = options a /\ exists h, process_handle a1 = Some h.
Proof.
  intros Hd Ht Hs. unfold start in Hs. rewrite Hd, Ht in Hs. cbv zeta in Hs.
  match type of Hs with context [start_command ?c ?b ?w] => destruct (start_command c b w) as [[h|e] w'] end;
    [|discriminate].
  injection Hs as <- <-. cbn. destruct (AgentOptions.json (options a)); split; eauto.
Qed.

(** C1: without isolation, after a non-detached [start] and a first
    [stop] that returned a result, a second [stop] does not fail: the
    handle is only borrowed, so it answers [Ok] again, with the exit code
    cached by the first wait, and spawns nothing (the world is unchanged). *)
Theorem second_stop_succeeds (a : Agent) (so : AgentStartOptions.t)
  (sto1 sto2 : AgentStopOptions.t) (w w1 w2 : World) (a1 a2 : Agent) (r1 : AgentResult.t) :
  no_isolation a -> AgentStartOptions.dry_run so = false -> AgentStartOptions.detached so = false ->
  start spawn_error build_agent_command a so w = (Ok tt, a1, w1) ->
  stop behaviour spawn_error extract_session_id a1 sto1 w1 = Some (Ok r1, a2, w2) ->
  exists r2 a3, stop behaviour spawn_error extract_session_id a2 sto2 w2 = Some (Ok r2, a3, w2) /\
    AgentResult.exit_code r2 = AgentResult.exit_code r1 /\ w2 = w1.
Proof.
  intros Hi Hd Ht Hs Hp.
  destruct (start_handle a so w a1 w1 Hd Ht Hs) as [Ho [h Hh]].
  assert (Hi1 : no_isolation a1) by (unfold no_isolation; rewrite Ho; exact Hi).
  pose proof (stop_none a1 h sto1 w1 Hi1 Hh) as E1.
  destruct (wait_for_exit behaviour h) as [[[c|e] h']|] eqn:Ew; [|congruence|congruence].
  destruct E1 as (r & a' & E1 & Ho' & Hh' & Hc).
  rewrite Hp in E1. injection E1 as -> -> ->.
  assert (Hi2 : no_isolation a') by (unfold no_isolation; rewrite Ho'; exact Hi1).
  pose proof (stop_none a' h' sto2 w1 Hi2 Hh') as E2.
  rewrite (wait_for_exit_cached h h' c Ew) in E2.
  destruct E2 as (r2 & a3 & E2 & _ & _ & Hc2).
  exists r2, a3. split; [exact E2|split; [congruence|reflexivity]].
Qed.

End Run.

(** Witness for C1: the agent of [Scenario] is started once and stopped
    once; stopping it again succeeds with the same exit code and spawns
    nothing. *)
Lemma second_stop_succeeds_witness :
  exists r2 a3,
    stop Scenario.behaviour Scenario.spawn_error Scenario.extract_session_id
      Scenario.first_stop_agent Scenario.stop_options Scenario.first_stop_world
    = Some (Ok r2, a3, Scenario.first_stop_world) /\
    AgentResult.exit_code r2 = AgentResult.exit_code Scenario.first_stop_result /\
    Scenario.first_stop_world = snd Scenario.started.
Proof.
  apply (second_stop_succeeds Scenario.behaviour Scenario.spawn_error
           Scenario.build_agent_command Scenario.extract_session_id
           Scenario.agent Scenario.start_options Scenario.stop_options Scenario.stop_options
           Scenario.world (snd Scenario.started) Scenario.first_stop_world
           (snd (fst Scenario.started)) Scenario.first_stop_agent Scenario.first_stop_result);
    vm_compute; first [left; reflexivity | reflexivity].
Defined.

(** In [Scenario] the process printed the single JSON line [[1]], and the
    first [stop] reports it once. The second [stop] feeds the same stdout
    into the output stream again, so it reports the message twice. *)
Lemma second_stop_duplicates_messages :
  option_map (fun x => fst (fst x)) Scenario.stopped_once =
    Some (Ok {| AgentResult.exit_code := 0; AgentResult.plain_output := s2l "[1]" ++ [10];
                AgentResult.parsed_output := Some [Json.Array [Json.Number 1]];
                AgentResult.session_id := None |}) /\
  option_map (fun x => fst (fst x)) Scenario.stopped_twice =
    Some (Ok {| AgentResult.exit_code := 0; AgentResult.plain_output := s2l "[1]" ++ [10];
                AgentResult.parsed_output := Some [Json.Array [Json.Number 1]; Json.Array [Json.Number 1]];
                AgentResult.session_id := None |}) /\
  option_map (fun x => spawned (snd x)) Scenario.stopped_twice = Some (spawned (snd Scenario.started)).
Proof. vm_compute. repeat split. Qed.

End ControllerFacts.

Module QuotingFacts.
Import Bash CommandBuilder ControllerFacts.

Lemma cons_fst_prepend (c : char) (p : str) (o : option (str * str)) :
  cons_fst c (prepend p o) = prepend (c :: p) o.
Proof. destruct o as [[w r]|]; reflexivity. Qed.

Lemma prepend_nil (o : option (str * str)) : prepend [] o = o.
Proof. destruct o as [[w r]|]; reflexivity. Qed.

Lemma replace_char_app (c : char) (r a b : str) :
  replace_char c r (a ++ b) = replace_char c r a ++ replace_char c r b.
Proof. unfold replace_char. apply flat_map_app. Qed.

Lemma escape_quotes_cons (c : char) (s : str) :
  escape_quotes (c :: s) = (if c =? 39 then [39; 92; 39; 39] else [c]) ++ escape_quotes s.
Proof. reflexivity. Qed.

Lemma read_single_escape (s rest : str) :
  read Single (escape_quotes s ++ 39 :: rest) = prepend s (read Unquoted rest).
Proof.
  induction s as [|c s IH].
  - cbn. rewrite prepend_nil. reflexivity.
  - rewrite escape_quotes_cons. destruct (Z.eqb_spec c 39) as [->|Hc].
    + cbn [app read]. cbn -[escape_quotes]. rewrite IH. apply cons_fst_prepend.
    + cbn [app]. cbn [read]. apply Z.eqb_neq in Hc. rewrite Hc, IH. apply cons_fst_prepend.
Qed.


Lemma escape_for_bash_c_app (a b : str) :
  escape_for_bash_c (a ++ b) = escape_for_bash_c a ++ escape_for_bash_c b.
Proof. unfold escape_for_bash_c. rewrite !replace_char_app. reflexivity. Qed.

Lemma escape_for_bash_c_char (c : char) :
  escape_for_bash_c [c] =
  if c =? 92 then [92; 92] else if c =? 34 then [92; 34]
  else if c =? 36 then [92; 36] else if c =? 96 then [92; 96] else [c].
Proof.
  destruct (Z.eqb_spec c 92) as [->|H1]; [reflexivity|].
  destruct (Z.eqb_spec c 34) as [->|H2]; [reflexivity|].
  destruct (Z.eqb_spec c 36) as [->|H3]; [reflexivity|].
  destruct (Z.eqb_spec c 96) as [->|H4]; [reflexivity|].
  unfold escape_for_bash_c, replace_char. cbn [flat_map].
  apply Z.eqb_neq in H1, H2, H3, H4. rewrite H1. cbn [flat_map app].
  rewrite H2. cbn [flat_map app]. rewrite H3. cbn [flat_map app]. rewrite H4. reflexivity.
Qed.

Lemma read_double_escape (s rest : str) :
  read Double (escape_for_bash_c s ++ 34 :: rest) = prepend s (read Unquoted rest).
Proof.
  induction s as [|c s IH].
  - cbn. rewrite prepend_nil. reflexivity.
  - change (c :: s) with ([c] ++ s). rewrite escape_for_bash_c_app, escape_for_bash_c_char.
    rewrite <- app_assoc.
    destruct (Z.eqb_spec c 92) as [->|H1]; [cbn -[escape_for_bash_c]; rewrite IH; apply cons_fst_prepend|].
    destruct (Z.eqb_spec c 34) as [->|H2]; [cbn -[escape_for_bash_c]; rewrite IH; apply cons_fst_prepend|].
    destruct (Z.eqb_spec c 36) as [->|H3]; [cbn -[escape_for_bash_c]; rewrite IH; apply cons_fst_prepend|].
    destruct (Z.eqb_spec c 96) as [->|H4]; [cbn -[escape_for_bash_c]; rewrite IH; apply cons_fst_prepend|].
    cbn [app read]. apply Z.eqb_neq in H1, H2, H3, H4. rewrite H2, H1.
    replace ((c =? 36) || (c =? 96)) with false by (rewrite H3, H4; reflexivity).
    rewrite IH. apply cons_fst_prepend.
Qed.


Lemma single_quoted_word (s rest : str) :
  word ([39] ++ escape_quotes s ++ [39] ++ rest) = prepend s (word rest).
Proof. cbn [app word read]. apply read_single_escape. Qed.

Lemma double_quoted_word (s rest : str) :
  word ([34] ++ escape_for_bash_c s ++ [34] ++ rest) = prepend s (word rest).
Proof. cbn [app word read]. apply read_double_escape. Qed.

Lemma full_command_eq (tb : str -> AgentCommandOptions.t -> str) (o : AgentCommandOptions.t) :
  full_command tb o =
  s2l "bash -c " ++ [34] ++ escape_for_bash_c (s2l "cd " ++ AgentCommandOptions.working_directory o
    ++ s2l " && " ++ base_command tb o) ++ [34].
Proof.
  unfold full_command. rewrite !escape_for_bash_c_app, <- !app_assoc. reflexivity.
Qed.

Lemma read_plain (p rest : str) :
  Forall (fun c => (is_blank c || is_meta c || is_expansion c || (c =? 39) || (c =? 34)
                    || (c =? 92)) = false) p ->
  read Unquoted (p ++ rest) = prepend p (read Unquoted rest).
Proof.
  induction 1 as [|c p Hc _ IH]; [symmetry; apply prepend_nil|].
  cbn [app read]. apply orb_false_iff in Hc as [Hc H92].
  apply orb_false_iff in Hc as [Hc H34]. apply orb_false_iff in Hc as [Hc H39].
  apply orb_false_iff in Hc as [Hc Hexp].
  rewrite Hc, H39, H34, H92, Hexp, IH. apply cons_fst_prepend.
Qed.

Ltac plain := repeat constructor.

Lemma read_blank (r : str) : read Unquoted (32 :: r) = Some ([], 32 :: r).
Proof. reflexivity. Qed.

Lemma read_open_double (r : str) : read Unquoted (34 :: r) = read Double r.
Proof. reflexivity. Qed.

Lemma read_open_single (r : str) : read Unquoted (39 :: r) = read Single r.
Proof. reflexivity. Qed.

Lemma full_command_words (tb : str -> AgentCommandOptions.t -> str) (o : AgentCommandOptions.t) :
  words 3 (full_command tb o) =
  Some [s2l "bash"; s2l "-c";
        s2l "cd " ++ AgentCommandOptions.working_directory o ++ s2l " && " ++ base_command tb o].
Proof.
  rewrite full_command_eq.
  set (x := s2l "cd " ++ _ ++ _ ++ _).
  change (s2l "bash -c ") with (s2l "bash" ++ 32 :: s2l "-c" ++ [32]).
  unfold words, word. rewrite <- app_assoc. cbn [app].
  rewrite (read_plain (s2l "bash")) by plain. rewrite read_blank. cbn [prepend app].
  rewrite <- app_assoc. cbn [app].
  rewrite (read_plain (s2l "-c")) by plain. rewrite read_blank. cbn [prepend app].
  rewrite read_open_double, read_double_escape. cbn [read prepend]. rewrite !app_nil_r. reflexivity.
Qed.

Lemma single_quoted_alone (s : str) : word ([39] ++ escape_quotes s ++ [39]) = Some (s, []).
Proof.
  pose proof (single_quoted_word s []) as H. rewrite app_nil_r in H. rewrite H.
  cbn. rewrite app_nil_r. reflexivity.
Qed.

(** X2: with screen isolation, [build_agent_command] is the screen
    prefix with the session name in double quotes, then [bash -c] and one
    single-quoted word that bash reads back as exactly the unwrapped
    [bash -c "cd ... && ..."] command. *)
Theorem screen_wraps_full_command tb now o :
  str_eqb (AgentCommandOptions.isolation o) (s2l "screen") = true ->
  exists q,
    build_agent_command tb now o =
      (if AgentCommandOptions.detached o then s2l "screen -dmS " else s2l "screen -S ")
      ++ [34] ++ fallback_name now (AgentCommandOptions.screen_name o) ++ [34]
      ++ s2l " bash -c " ++ q
    /\ word q = Some (full_command tb o, []).
Proof.
  intros H. exists ([39] ++ escape_quotes (full_command tb o) ++ [39]). split.
  - unfold build_agent_command. rewrite H. unfold build_screen_command.
    reflexivity.
  - apply single_quoted_alone.
Qed.

Lemma screen_wraps_full_command_witness :
  exists q,
    build_agent_command Samples.tool_builder 0 (Samples.command_options (s2l "screen")) =
      s2l "screen -dmS " ++ [34] ++ s2l "s1" ++ [34] ++ s2l " bash -c " ++ q
    /\ word q = Some (full_command Samples.tool_builder (Samples.command_options (s2l "screen")), []).
Proof.
  apply (screen_wraps_full_command Samples.tool_builder 0 (Samples.command_options (s2l "screen"))).
  reflexivity.
Defined.

(** X3: with docker isolation, [build_agent_command] is the [docker run]
    prefix (name, volume and working directory in double quotes, image
    [node:18-slim]), then [bash -c] and one single-quoted word that bash
    reads back as exactly the unwrapped [bash -c "cd ... && ..."] command. *)
Theorem docker_wraps_full_command tb now o :
  str_eqb (AgentCommandOptions.isolation o) (s2l "docker") = true ->
  exists q,
    build_agent_command tb now o =
      s2l "docker run" ++ (if AgentCommandOptions.detached o then s2l " -d" else s2l " -it")
      ++ s2l " --name " ++ [34] ++ fallback_name now (AgentCommandOptions.container_name o) ++ [34]
      ++ s2l " -v " ++ [34] ++ AgentCommandOptions.working_directory o ++ [58]
      ++ AgentCommandOptions.working_directory o ++ [34]
      ++ s2l " -w " ++ [34] ++ AgentCommandOptions.working_directory o ++ [34]
      ++ s2l " node:18-slim" ++ s2l " bash -c " ++ q
    /\ word q = Some (full_command tb o, []).
Proof.
  intros H. exists ([39] ++ escape_quotes (full_command tb o) ++ [39]). split.
  - unfold build_agent_command.
    replace (str_eqb (AgentCommandOptions.isolation o) (s2l "screen")) with false.
    + rewrite H. unfold build_docker_command. reflexivity.
    + apply str_eqb_spec in H. rewrite H. reflexivity.
  - apply single_quoted_alone.
Qed.

Lemma docker_wraps_full_command_witness :
  exists q,
    build_agent_command Samples.tool_builder 0 (Samples.command_options (s2l "docker")) =
      s2l "docker run" ++ s2l " -d"
      ++ s2l " --name " ++ [34] ++ fallback_name 0 None ++ [34]
      ++ s2l " -v " ++ [34] ++ s2l "/tmp/my project" ++ [58] ++ s2l "/tmp/my project" ++ [34]
      ++ s2l " -w " ++ [34] ++ s2l "/tmp/my project" ++ [34]
      ++ s2l " node:18-slim" ++ s2l " bash -c " ++ q
    /\ word q = Some (full_command Samples.tool_builder (Samples.command_options (s2l "docker")), []).
Proof.
  apply (docker_wraps_full_command Samples.tool_builder 0 (Samples.command_options (s2l "docker"))).
  reflexivity.
Defined.

(** X1: without screen or docker isolation, bash splits the command of
    [build_agent_command] into the three words [bash], [-c] and the script
    [cd <working directory> && <base command>], the escaping of
    [escape_for_bash_c] undone, for any working directory and tool
    command. *)
Theorem no_isolation_words tb now o :
  str_eqb (AgentCommandOptions.isolation o) (s2l "screen") = false ->
  str_eqb (AgentCommandOptions.isolation o) (s2l "docker") = false ->
  words 3 (build_agent_command tb now o) =
  Some [s2l "bash"; s2l "-c";
        s2l "cd " ++ AgentCommandOptions.working_directory o ++ s2l " && " ++ base_command tb o].
Proof.
  intros H1 H2. unfold build_agent_command. rewrite H1, H2. apply full_command_words.
Qed.

Lemma no_isolation_words_witness :
  words 3 (build_agent_command Samples.tool_builder 0 (Samples.command_options (s2l "none"))) =
  Some [s2l "bash"; s2l "-c";
        s2l "cd " ++ s2l "/tmp/my project" ++ s2l " && "
        ++ base_command Samples.tool_builder (Samples.command_options (s2l "none"))].
Proof.
  apply (no_isolation_words Samples.tool_builder 0 (Samples.command_options (s2l "none")));
    reflexivity.
Defined.

(** X4: [build_piped_command] is [printf '%s'], one single-quoted word
    that bash reads back as exactly the input, whatever it contains, then
    a pipe into the command. *)
Theorem piped_command_input (input command : str) :
  exists q,
    build_piped_command input command = s2l "printf '%s' " ++ q ++ s2l " | " ++ command
    /\ word q = Some (input, []).
Proof.
  exists ([39] ++ escape_quotes input ++ [39]). split.
  - unfold build_piped_command.
    change (s2l "printf '%s' '") with (s2l "printf '%s' " ++ [39]).
    change (s2l "' | ") with ([39] ++ s2l " | "). rewrite <- !app_assoc. reflexivity.
  - apply single_quoted_alone.
Qed.

Lemma read_double_escape_quotes (p rest : str) :
  Forall (fun c => c <> 34 /\ c <> 92 /\ c <> 36 /\ c <> 96) p ->
  read Double (escape_quotes p ++ 34 :: rest) = prepend (escape_quotes p) (read Unquoted rest).
Proof.
  induction 1 as [|c p [H34 [H92 [H36 H96]]] _ IH]; [cbn; rewrite prepend_nil; reflexivity|].
  rewrite escape_quotes_cons. destruct (Z.eqb_spec c 39) as [->|Hc].
  - cbn [app read]. cbn -[escape_quotes]. rewrite IH.
    rewrite !cons_fst_prepend. reflexivity.
  - cbn [app read]. apply Z.eqb_neq in H34, H92, H36, H96. rewrite H34, H92, H36, H96.
    cbn [orb]. rewrite IH. apply cons_fst_prepend.
Qed.

Lemma escape_quotes_length_le (p : str) :
  (List.length p <= List.length (escape_quotes p))%nat.
Proof.
  induction p as [|d p IH]; [cbn; lia|]. rewrite escape_quotes_cons.
  destruct (d =? 39); cbn [app List.length]; lia.
Qed.

Lemma escape_quotes_length (p : str) :
  In 39 p -> (List.length p < List.length (escape_quotes p))%nat.
Proof.
  induction p as [|c p IH]; [intros []|]. intros Hin. rewrite escape_quotes_cons.
  pose proof (escape_quotes_length_le p).
  destruct (Z.eqb_spec c 39) as [->|Hc].
  - cbn [app List.length]. lia.
  - destruct Hin as [Heq|Hin]; [congruence|]. cbn [app List.length]. specialize (IH Hin). lia.
Qed.

(** X5: [build_tool_command] puts the prompt between double quotes but
    escapes it with [escape_quotes], made for single quotes: for a plain
    tool name and a prompt free of double quotes, backslashes, [$] and [`], bash reads the
    words tool, [--prompt] and [escape_quotes p], which differs from the
    prompt as soon as it contains a single quote. *)
Theorem tool_prompt_words (tool p : str) :
  Forall (fun c => (is_blank c || is_meta c || is_expansion c || (c =? 39) || (c =? 34)
                    || (c =? 92)) = false) tool ->
  Forall (fun c => c <> 34 /\ c <> 92 /\ c <> 36 /\ c <> 96) p ->
  words 3 (build_tool_command tool (Some p) None) =
  Some [tool; s2l "--prompt"; escape_quotes p]
  /\ (In 39 p -> escape_quotes p <> p).
Proof.
  intros Ht Hp. split.
  2:{ intros Hin E. pose proof (escape_quotes_length p Hin) as Hl. rewrite E in Hl. lia. }
  unfold build_tool_command. rewrite app_nil_r.
  change (s2l " --prompt ") with (32 :: s2l "--prompt" ++ [32]).
  unfold words, word. rewrite (read_plain tool) by exact Ht. cbn [app]. rewrite read_blank.
  cbn [prepend app]. rewrite app_nil_r.
  rewrite <- app_assoc. cbn [app].
  rewrite (read_plain (s2l "--prompt")) by plain. rewrite read_blank. cbn [prepend app].
  rewrite read_open_double, read_double_escape_quotes by exact Hp.
  cbn [read prepend]. rewrite !app_nil_r. reflexivity.
Qed.

Lemma tool_prompt_words_witness :
  words 3 (build_tool_command (s2l "mytool") (Some (s2l "it's")) None) =
  Some [s2l "mytool"; s2l "--prompt"; escape_quotes (s2l "it's")]
  /\ (In 39 (s2l "it's") -> escape_quotes (s2l "it's") <> s2l "it's").
Proof.
  apply (tool_prompt_words (s2l "mytool") (s2l "it's")); repeat (constructor || (intro; discriminate)).
Defined.

Module ClaudeCommand.
Import Claude.

Lemma is_blank_ws (c : char) : is_blank c = true -> is_whitespace c = true.
Proof.
  unfold is_blank. intros H. apply orb_true_iff in H as [H|H]; [apply orb_true_iff in H as [H|H]|];
  apply Z.eqb_eq in H; subst; reflexivity.
Qed.

Lemma existsb_false {A} (f : A -> bool) (l : list A) :
  existsb f l = false -> Forall (fun x => f x = false) l.
Proof.
  induction l as [|x l IH]; cbn; [constructor|]. intros H.
  apply orb_false_iff in H as [H1 H2]. constructor; auto.
Qed.

Lemma read_rest_blank (rest : str) :
  (rest = [] \/ exists r, rest = 32 :: r) -> read Unquoted rest = Some ([], rest).
Proof. intros [->|[r ->]]; reflexivity. Qed.

Lemma plain_char (c : char) :
  arg_char_ok c = true -> (34 =? c) = false -> is_whitespace c = false -> (36 =? c) = false ->
  (96 =? c) = false -> (92 =? c) = false ->
  (is_blank c || is_meta c || is_expansion c || (c =? 39) || (c =? 34) || (c =? 92)) = false.
Proof.
  intros Hg H34 Hws H36 H96 H92. unfold arg_char_ok in Hg.
  apply andb_true_iff in Hg as [Hg He]. apply andb_true_iff in Hg as [H39 Hm].
  apply negb_true_iff in H39, Hm.
  rewrite (Z.eqb_sym c 36), (Z.eqb_sym c 96), H36, H96, orb_false_r, orb_false_r in He.
  apply negb_true_iff in He. rewrite (Z.eqb_sym c 34), (Z.eqb_sym c 92), H34, H92.
  destruct (is_blank c) eqn:Hb; [apply is_blank_ws in Hb; congruence|].
  rewrite Hm, He, H39. reflexivity.
Qed.

Lemma escape_arg_word (a rest : str) :
  Forall (fun c => arg_char_ok c = true) a -> (rest = [] \/ exists r, rest = 32 :: r) ->
  word (escape_arg a ++ rest) = Some (a, rest).
Proof.
  intros Ha Hr. unfold escape_arg.
  destruct (contains_char a 34 || existsb is_whitespace a || contains_char a 36
            || contains_char a 96 || contains_char a 92) eqn:E.
  - rewrite <- !app_assoc. unfold word. cbn [app]. rewrite read_open_double, read_double_escape.
    rewrite read_rest_blank by exact Hr. cbn. rewrite app_nil_r. reflexivity.
  - apply orb_false_iff in E as [E E92]. apply orb_false_iff in E as [E E96].
    apply orb_false_iff in E as [E E36]. apply orb_false_iff in E as [E34 Ews].
    unfold contains_char in *. apply existsb_false in E34, Ews, E36, E96, E92.
    unfold word. rewrite read_plain.
    + rewrite read_rest_blank by exact Hr. cbn. rewrite app_nil_r. reflexivity.
    + clear Hr. induction Ha as [|c a Hc _ IH]; [constructor|].
      inversion E34 as [|? ? h34 t34]; inversion Ews as [|? ? hws tws];
      inversion E36 as [|? ? h36 t36]; inversion E96 as [|? ? h96 t96];
      inversion E92 as [|? ? h92 t92]; subst.
      constructor; [|now apply IH]. apply plain_char; assumption.
Qed.

Lemma join_words (l : list str) :
  l <> [] -> Forall (Forall (fun c => arg_char_ok c = true)) l ->
  words (List.length l) (join [32] (map escape_arg l)) = Some l.
Proof.
  induction l as [|x l IH]; [congruence|]. intros _ Hl. inversion Hl as [|? ? Hx Hl']; subst.
  destruct l as [|y l].
  - cbn [map join List.length words]. rewrite <- (app_nil_r (escape_arg x)).
    rewrite escape_arg_word by auto. reflexivity.
  - change (join [32] (map escape_arg (x :: y :: l)))
      with (escape_arg x ++ [32] ++ join [32] (map escape_arg (y :: l))).
    change (List.length (x :: y :: l)) with (S (List.length (y :: l))).
    cbn [words]. rewrite escape_arg_word by (assumption || (right; eexists; reflexivity)).
    cbn [app].     rewrite IH by (discriminate || exact Hl'). reflexivity.
Qed.

Lemma escape_arg_last (a : str) :
  a <> [] -> Forall (fun c => arg_char_ok c = true) a ->
  exists m d, escape_arg a = m ++ [d] /\ is_whitespace d = false.
Proof.
  intros Hne Ha. unfold escape_arg.
  destruct (contains_char a 34 || existsb is_whitespace a || contains_char a 36
            || contains_char a 96 || contains_char a 92) eqn:E.
  - exists ([34] ++ CommandBuilder.escape_for_bash_c a), 34. rewrite <- app_assoc. split; reflexivity.
  - apply orb_false_iff in E as [E _]. apply orb_false_iff in E as [E _].
    apply orb_false_iff in E as [E _]. apply orb_false_iff in E as [_ Ews].
    apply existsb_false in Ews. destruct (exists_last Hne) as [m [d ->]].
    exists m, d. split; [reflexivity|].
    apply Forall_app in Ews as [_ Hd]. now inversion Hd.
Qed.

Lemma join_last (l : list str) :
  l <> [] -> Forall (fun a => a <> [] /\ Forall (fun c => arg_char_ok c = true) a) l ->
  exists m d, join [32] (map escape_arg l) = m ++ [d] /\ is_whitespace d = false.
Proof.
  induction l as [|x l IH]; [congruence|]. intros _ Hl. inversion Hl as [|? ? [Hx Hx'] Hl']; subst.
  destruct l as [|y l].
  - apply escape_arg_last; auto.
  - destruct IH as [m [d [Hj Hd]]]; [discriminate|exact Hl'|].
    exists (escape_arg x ++ 32 :: m), d. split; [|exact Hd].
    cbn [map join]. cbn [map join] in Hj. rewrite Hj, <- app_assoc. reflexivity.
Qed.

End ClaudeCommand.

Import ClaudeCommand.

(** X6: when every argument of [build_args] is non-empty and made of
    characters that [arg_char_ok] accepts, bash splits [build_command]
    into the word [claude] followed by exactly the arguments: [escape_arg]
    and the space-joining undo each other. *)
Theorem claude_command_words (o : Claude.ClaudeBuildOptions.t) :
  Forall (fun a => a <> [] /\ Forall (fun c => arg_char_ok c = true) a) (Claude.build_args o) ->
  words (S (List.length (Claude.build_args o))) (Claude.build_command o) =
  Some (s2l "claude" :: Claude.build_args o).
Proof.
  intros H. unfold Claude.build_command.
  destruct (Claude.build_args o) as [|a l] eqn:E; [reflexivity|].
  destruct (join_last (a :: l)) as [m [d [Hj Hd]]]; [discriminate|exact H|].
  assert (Ht : trim (s2l "claude " ++ m ++ [d]) = s2l "claude " ++ m ++ [d]).
  { replace (s2l "claude " ++ m ++ [d]) with (99 :: (s2l "laude " ++ m) ++ [d])
      by reflexivity.
    apply trim_framed; [reflexivity|exact Hd|constructor]. }
  rewrite Hj, Ht, <- Hj. change (s2l "claude ") with (s2l "claude" ++ [32]).
  rewrite <- app_assoc. cbn [words]. unfold word.
  rewrite (read_plain (s2l "claude")) by plain. cbn [app]. rewrite read_blank. cbn [prepend app].
  rewrite app_nil_r. rewrite join_words.
  - reflexivity.
  - discriminate.
  - eapply Forall_impl; [|exact H]. intros x [_ Hx]. exact Hx.
Qed.

Lemma claude_command_words_witness :
  words (S (List.length (Claude.build_args Samples.claude_options)))
    (Claude.build_command Samples.claude_options) =
  Some (s2l "claude" :: Claude.build_args Samples.claude_options).
Proof.
  apply (claude_command_words Samples.claude_options).
  vm_compute. repeat (constructor || (intro; discriminate)).
Defined.
End QuotingFacts.

Module CliFacts.
Import CliParser ControllerFacts.

Lemma str_eqb_refl (s : str) : str_eqb s s = true.
Proof. apply str_eqb_spec. reflexivity. Qed.

Lemma find_filter {A} (f g : A -> bool) (m : list A) :
  (forall x, f x = true -> g x = true) -> find f (filter g m) = find f m.
Proof.
  intros Hfg. induction m as [|x m IH]; [reflexivity|]. cbn.
  destruct (g x) eqn:Eg; cbn.
  - destruct (f x); [reflexivity|exact IH].
  - destruct (f x) eqn:Ef; [apply Hfg in Ef; congruence|exact IH].
Qed.

Lemma map_get_insert (k v : str) (m : Map) (key : str) :
  map_get (map_insert k v m) key = if str_eqb k key then Some v else map_get m key.
Proof.
  unfold map_get, map_insert. cbn [find fst snd]. destruct (str_eqb k key) eqn:E; [reflexivity|].
  rewrite find_filter; [reflexivity|]. intros [k' v'] H. cbn in *.
  apply str_eqb_spec in H. subst k'. rewrite (proj2 (str_eqb_false key k)); [reflexivity|].
  intros ->. rewrite str_eqb_refl in E. discriminate.
Qed.

Lemma contains_key_insert (k v : str) (m : Map) (key : str) :
  contains_key (map_insert k v m) key = str_eqb k key || contains_key m key.
Proof. unfold contains_key. rewrite map_get_insert. destruct (str_eqb k key); reflexivity. Qed.

Lemma has_flag_from (args : list str) (p : ParsedArgs) (key : str) :
  has_flag (parse_args_from args p) key = has_flag p key || existsb (flag_arg key) args.
Proof.
  remember (List.length args) as n eqn:En. assert (Hn : (List.length args <= n)%nat) by lia.
  clear En. revert args p Hn. induction n as [|n IH]; intros args p Hn.
  - destruct args; [cbn; btauto|cbn in Hn; lia].
  - destruct args as [|a rest]; [cbn; btauto|]. cbn [List.length] in Hn.
    cbn [parse_args_from existsb]. unfold flag_arg at 1.
    destruct (is_prefix dashes a) eqn:Ea; cbn [andb].
    + destruct rest as [|next rest'].
      * rewrite IH by (cbn; lia). unfold has_flag, push_flag. cbn [flags options existsb].
        rewrite existsb_app. cbn [existsb]. btauto.
      * destruct (negb (is_prefix dashes next)) eqn:En.
        -- rewrite IH by (cbn in Hn |- *; lia). unfold has_flag, insert_option.
           cbn [flags options existsb]. rewrite contains_key_insert.
           unfold flag_arg at 2. apply negb_true_iff in En. rewrite En. btauto.
        -- rewrite IH by (cbn in Hn |- *; lia). unfold has_flag, push_flag. cbn [flags options].
           rewrite existsb_app. cbn [existsb]. btauto.
    + rewrite IH by lia. reflexivity.
Qed.

Lemma get_bool_parse (args : list str) (key : str) :
  get_bool (parse_args args) key = existsb (flag_arg key) args.
Proof. unfold get_bool, parse_args. rewrite has_flag_from. reflexivity. Qed.

(** X7: [get_bool] on the result of [parse_args] is true exactly when
    some argument starts with [--] and, its leading dashes trimmed, is the
    key: whether that argument was stored as a flag or, followed by a
    value, as an option. *)
Theorem get_bool_parse_args (args : list str) (key : str) :
  get_bool (parse_args args) key =
  existsb (fun a => is_prefix (s2l "--") a && str_eqb (trim_start_matches a) key) args.
Proof. exact (get_bool_parse args key). Qed.


Lemma parse_cons (arg : str) (rest : list str) (parsed : ParsedArgs) :
  parse_args_from (arg :: rest) parsed =
  if is_prefix dashes arg then
    match rest with
    | next :: rest' =>
        if negb (is_prefix dashes next) then
          parse_args_from rest' (insert_option parsed (trim_start_matches arg) next)
        else parse_args_from rest (push_flag parsed (trim_start_matches arg))
    | [] => parse_args_from rest (push_flag parsed (trim_start_matches arg))
    end
  else parse_args_from rest (push_positional parsed arg).
Proof. reflexivity. Qed.

Lemma parse_reaches (pre : list str) (a : str) (rest : list str) (p : ParsedArgs) :
  is_prefix dashes a = true ->
  exists p', parse_args_from (pre ++ a :: rest) p = parse_args_from (a :: rest) p'.
Proof.
  intros Ha. remember (List.length pre) as n eqn:En.
  assert (Hn : (List.length pre <= n)%nat) by lia. clear En. revert pre p Hn.
  induction n as [|n IH]; intros pre p Hn.
  - destruct pre; [exists p; reflexivity|cbn in Hn; lia].
  - destruct pre as [|x pre]; [exists p; reflexivity|]. cbn [List.length] in Hn.
    cbn [app]. rewrite parse_cons. destruct (is_prefix dashes x) eqn:Ex.
    + destruct pre as [|y pre'].
      * cbn [app]. rewrite Ha. cbn [negb]. exists (push_flag p (trim_start_matches x)). reflexivity.
      * cbn [app]. destruct (negb (is_prefix dashes y)).
        -- apply IH. cbn in Hn. lia.
        -- change (y :: pre' ++ a :: rest) with ((y :: pre') ++ a :: rest). apply IH. lia.
    + apply IH. lia.
Qed.

Ltac not_dash c H :=
  destruct c as [|p|p]; try reflexivity;
  repeat (destruct p as [p|p|]; try reflexivity); exfalso; apply H; reflexivity.

Lemma tsm_other (c : char) (s : str) : c <> 45 -> trim_start_matches (c :: s) = c :: s.
Proof. intros H. not_dash c H. Qed.

Lemma tsm_other2 (d : char) (s : str) : d <> 45 -> trim_start_matches (45 :: d :: s) = 45 :: d :: s.
Proof. intros H. not_dash d H. Qed.

Lemma trim_start_matches_dashes (key : str) :
  is_prefix dashes key = false -> trim_start_matches (dashes ++ key) = key.
Proof.
  intros H. change (dashes ++ key) with (45 :: 45 :: key). cbn [trim_start_matches].
  destruct key as [|c [|d key]]; [reflexivity| |].
  - destruct (Z.eq_dec c 45) as [->|Hc]; [reflexivity|]. now apply tsm_other.
  - destruct (Z.eq_dec c 45) as [->|Hc]; [|now apply tsm_other].
    destruct (Z.eq_dec d 45) as [->|Hd]; [discriminate H|].
    now apply tsm_other2.
Qed.

(** X8: when the arguments end with [--key value], the value not starting
    with [--], [get] returns that value for the key, whatever came before:
    the last occurrence of an option wins. *)
Theorem get_last_option (pre : list str) (key v : str) :
  is_prefix (s2l "--") key = false -> is_prefix (s2l "--") v = false ->
  get (parse_args (pre ++ [s2l "--" ++ key; v])) key = Some v.
Proof.
  intros Hk Hv. unfold parse_args. change (s2l "--") with dashes in *.
  change (@cons (list char)) with (@cons str).
  destruct (parse_reaches pre (dashes ++ key) [v] CliParser.default) as [p' ->]; [reflexivity|].
  rewrite parse_cons.
  replace (is_prefix dashes (dashes ++ key)) with true by reflexivity.
  rewrite Hv. cbn [negb]. unfold get, insert_option. cbn [options parse_args_from].
  rewrite map_get_insert, trim_start_matches_dashes, str_eqb_refl by exact Hk. reflexivity.
Qed.

Lemma get_last_option_witness :
  get (parse_args [s2l "--tool"; s2l "old"; s2l "--dry-run"; s2l "--tool"; s2l "new"]) (s2l "tool")
  = Some (s2l "new").
Proof.
  apply (get_last_option [s2l "--tool"; s2l "old"; s2l "--dry-run"] (s2l "tool") (s2l "new"));
    reflexivity.
Defined.

Lemma flag_in (args : list str) (key : str) :
  In (s2l "--" ++ key) args -> is_prefix (s2l "--") key = false ->
  get_bool (parse_args args) key = true.
Proof.
  intros Hin Hk. rewrite get_bool_parse. apply existsb_exists.
  exists (s2l "--" ++ key). split; [exact Hin|]. unfold flag_arg.
  change (s2l "--") with dashes in *. rewrite trim_start_matches_dashes by exact Hk.
  rewrite str_eqb_refl. reflexivity.
Qed.

Lemma parse_positional (args : list str) (p : ParsedArgs) :
  Forall (fun a => is_prefix dashes a = false) args ->
  parse_args_from args p =
  {| options := options p; flags := flags p; positional := positional p ++ args |}.
Proof.
  intros H. revert p. induction H as [|a args Ha _ IH]; intros p.
  - destruct p as [o f ps]. cbn. rewrite app_nil_r. reflexivity.
  - rewrite parse_cons, Ha, IH. cbn [options flags positional push_positional].
    rewrite <- app_assoc. reflexivity.
Qed.

End CliFacts.

Module CliMainFacts.
Import ControllerFacts CliFacts.

(** X9: when [--help] is among the arguments, start-agent and stop-agent
    print their help and exit with code 0, before any validation, agent
    or process. *)
Theorem help_exits_zero behaviour spawn_error build_agent_command extract_session_id
  (args : list str) (w : World) :
  In (s2l "--help") args ->
  CliParser.start_agent_main behaviour spawn_error build_agent_command extract_session_id args w
    = Some (0, CliParser.show_start_agent_help w)
  /\ CliParser.stop_agent_main behaviour spawn_error extract_session_id args w
    = Some (0, CliParser.show_stop_agent_help w).
Proof.
  intros Hin. assert (H : CliParser.get_bool (CliParser.parse_args args) (s2l "help") = true).
  { apply (flag_in args (s2l "help")); [exact Hin|reflexivity]. }
  split; unfold CliParser.start_agent_main, CliParser.stop_agent_main; cbv zeta;
    unfold CliParser.parse_start_agent_args, CliParser.parse_stop_agent_args; cbv zeta;
    cbn [CliParser.StartAgentOptions.help CliParser.StopAgentOptions.help]; rewrite H; reflexivity.
Qed.

Lemma help_exits_zero_witness :
  CliParser.start_agent_main Scenario.behaviour Scenario.spawn_error Scenario.build_agent_command
    Scenario.extract_session_id [s2l "--tool"; s2l "--help"] Scenario.world
    = Some (0, CliParser.show_start_agent_help Scenario.world)
  /\ CliParser.stop_agent_main Scenario.behaviour Scenario.spawn_error Scenario.extract_session_id
    [s2l "--tool"; s2l "--help"] Scenario.world = Some (0, CliParser.show_stop_agent_help Scenario.world).
Proof.
  apply (help_exits_zero Scenario.behaviour Scenario.spawn_error Scenario.build_agent_command
           Scenario.extract_session_id [s2l "--tool"; s2l "--help"] Scenario.world).
  right; left; reflexivity.
Defined.

(** X10: when no argument starts with [--] (so also for [-h]), the
    arguments are all positional: start-agent reports that [--tool] and
    [--working-directory] are required, stop-agent that [--isolation] is,
    and both exit with code 1. *)
Theorem no_dash_args_invalid behaviour spawn_error build_agent_command extract_session_id
  (args : list str) (w : World) :
  Forall (fun a => is_prefix (s2l "--") a = false) args ->
  CliParser.start_agent_main behaviour spawn_error build_agent_command extract_session_id args w
  = Some (1, CliParser.report_invalid (s2l "start-agent")
          {| CliParser.valid := false;
             CliParser.errors := [s2l "--tool is required"; s2l "--working-directory is required"] |} w)
  /\ CliParser.stop_agent_main behaviour spawn_error extract_session_id args w
  = Some (1, CliParser.report_invalid (s2l "stop-agent")
          {| CliParser.valid := false; CliParser.errors := [s2l "--isolation is required"] |} w).
Proof.
  intros H. unfold CliParser.start_agent_main, CliParser.parse_start_agent_args,
    CliParser.stop_agent_main, CliParser.parse_stop_agent_args, CliParser.parse_args. cbv zeta.
  rewrite parse_positional by exact H. split; reflexivity.
Qed.

Lemma no_dash_args_invalid_witness :
  CliParser.start_agent_main Scenario.behaviour Scenario.spawn_error Scenario.build_agent_command
    Scenario.extract_session_id [s2l "-h"] Scenario.world
  = Some (1, CliParser.report_invalid (s2l "start-agent")
          {| CliParser.valid := false;
             CliParser.errors := [s2l "--tool is required"; s2l "--working-directory is required"] |}
          Scenario.world)
  /\ CliParser.stop_agent_main Scenario.behaviour Scenario.spawn_error Scenario.extract_session_id
    [s2l "-h"] Scenario.world
  = Some (1, CliParser.report_invalid (s2l "stop-agent")
          {| CliParser.valid := false; CliParser.errors := [s2l "--isolation is required"] |}
          Scenario.world).
Proof.
  apply (no_dash_args_invalid Scenario.behaviour Scenario.spawn_error Scenario.build_agent_command
           Scenario.extract_session_id [s2l "-h"] Scenario.world).
  repeat constructor.
Defined.

Lemma report_invalid_spawned (bin : str) (v : CliParser.ValidationResult) (w : World) :
  spawned (CliParser.report_invalid bin v w) = spawned w.
Proof.
  assert (Hf : forall es w0,
             spawned (fold_left (fun w e => eprintln w (s2l "  - " ++ e)) es w0) = spawned w0).
  { induction es as [|e es IH]; intros w0; [reflexivity|]. cbn [fold_left]. rewrite IH. reflexivity. }
  unfold CliParser.report_invalid. cbn [eprintln spawned]. rewrite Hf. reflexivity.
Qed.

Lemma agent_new_no_handle (o : AgentOptions.t) (a : Agent) :
  agent_new o = Ok a -> process_handle a = None.
Proof.
  unfold agent_new. destruct (is_empty _); [discriminate|]. destruct (is_empty _); [discriminate|].
  destruct (_ && _); [discriminate|]. destruct (_ && _); [discriminate|].
  intros H; injection H as <-; reflexivity.
Qed.

Lemma stop_dry_spawned behaviour spawn_error extract_session_id (a : Agent) (w : World) :
  process_handle a = None ->
  exists res, stop behaviour spawn_error extract_session_id a {| AgentStopOptions.dry_run := true |} w
              = Some res /\ spawned (snd res) = spawned w.
Proof.
  intros Hh. unfold stop. cbv zeta. cbn [AgentStopOptions.dry_run].
  destruct (_ || _).
  - destruct (if str_eqb _ _ then _ else _); (eexists; split; [reflexivity|reflexivity]).
  - destruct (_ || _); [rewrite Hh|]; (eexists; split; [reflexivity|reflexivity]).
Qed.

Lemma fold_println_spawned (ls : list str) (w0 : World) :
  spawned (fold_left println ls w0) = spawned w0.
Proof. revert w0; induction ls as [|l ls IH]; intros w0; [reflexivity|]. cbn [fold_left]. rewrite IH. reflexivity. Qed.

Lemma fold_eprintln_spawned (ls : list str) (w0 : World) :
  spawned (fold_left eprintln ls w0) = spawned w0.
Proof. revert w0; induction ls as [|l ls IH]; intros w0; [reflexivity|]. cbn [fold_left]. rewrite IH. reflexivity. Qed.

(** X11: when [--dry-run] is among the arguments, start-agent and
    stop-agent both return, and neither spawns any process, whatever else
    the arguments say. *)
Theorem dry_run_spawns_nothing behaviour spawn_error build_agent_command extract_session_id
  (args : list str) (w : World) :
  In (s2l "--dry-run") args ->
  (exists r, CliParser.start_agent_main behaviour spawn_error build_agent_command extract_session_id
               args w = Some r /\ spawned (snd r) = spawned w)
  /\ (exists r, CliParser.stop_agent_main behaviour spawn_error extract_session_id args w = Some r
                /\ spawned (snd r) = spawned w).
Proof.
  intros Hin. assert (H : CliParser.get_bool (CliParser.parse_args args) (s2l "dry-run") = true).
  { apply (flag_in args (s2l "dry-run")); [exact Hin|reflexivity]. }
  split.
  - unfold CliParser.start_agent_main. cbv zeta.
    assert (Hd : CliParser.StartAgentOptions.dry_run (CliParser.parse_start_agent_args args) = true) by exact H.
    set (o := CliParser.parse_start_agent_args args) in *.
    destruct (CliParser.StartAgentOptions.help o); [eexists; split; reflexivity|].
    destruct (negb (CliParser.valid _)); [eexists; split; [reflexivity|apply report_invalid_spawned]|].
    destruct (agent_new _) as [c|e]; [|eexists; split; reflexivity].
    unfold start. cbv zeta. cbn [AgentStartOptions.dry_run AgentStartOptions.detached].
    rewrite Hd, andb_false_r. eexists; split; reflexivity.
  - unfold CliParser.stop_agent_main. cbv zeta.
    assert (Hd : CliParser.StopAgentOptions.dry_run (CliParser.parse_stop_agent_args args) = true) by exact H.
    set (o := CliParser.parse_stop_agent_args args) in *.
    destruct (CliParser.StopAgentOptions.help o); [eexists; split; reflexivity|].
    destruct (negb (CliParser.valid _)); [eexists; split; [reflexivity|apply report_invalid_spawned]|].
    destruct (agent_new _) as [c|e] eqn:Hn; [|eexists; split; reflexivity]. rewrite Hd.
    apply agent_new_no_handle in Hn.
    destruct (stop_dry_spawned behaviour spawn_error extract_session_id c w) as ([[r c'] w1] & E & Hs);
      [exact Hn|].
    rewrite E. destruct r; (eexists; split; [reflexivity|]); exact Hs.
Qed.

Lemma dry_run_spawns_nothing_witness :
  (exists r, CliParser.start_agent_main Scenario.behaviour Scenario.spawn_error
               Scenario.build_agent_command Scenario.extract_session_id
               (Samples.screen_start_args ++ [s2l "--dry-run"]) Scenario.world = Some r
             /\ spawned (snd r) = spawned Scenario.world)
  /\ (exists r, CliParser.stop_agent_main Scenario.behaviour Scenario.spawn_error
                  Scenario.extract_session_id (Samples.screen_start_args ++ [s2l "--dry-run"])
                  Scenario.world = Some r /\ spawned (snd r) = spawned Scenario.world).
Proof.
  apply (dry_run_spawns_nothing Scenario.behaviour Scenario.spawn_error Scenario.build_agent_command
           Scenario.extract_session_id (Samples.screen_start_args ++ [s2l "--dry-run"])
           Scenario.world).
  apply in_or_app. right. left. reflexivity.
Defined.

(** X12: start-agent with a tool and a working directory, no isolation,
    not detached and not a dry run, spawns the one agent command and then
    drains its pipes.  It never returns when the child stalls its pipes;
    it prints [Error: e] and exits with 1 when reading the child's output
    or waiting for it fails with [e] (for example on output that is not
    UTF-8); otherwise it exits with the process's exit code (1 when it has
    none).  The agent's output is never printed, attached or not. *)
Theorem start_attached_exit_code behaviour spawn_error build_agent_command extract_session_id
  (args : list str) (w : World) (o : CliParser.StartAgentOptions.t) (t d : str) :
  CliParser.parse_start_agent_args args = o ->
  CliParser.StartAgentOptions.help o = false ->
  CliParser.StartAgentOptions.tool o = Some t -> t <> [] ->
  CliParser.StartAgentOptions.working_directory o = Some d -> d <> [] ->
  CliParser.StartAgentOptions.isolation o = s2l "none" ->
  CliParser.StartAgentOptions.detached o = false -> CliParser.StartAgentOptions.dry_run o = false ->
  let cmd := build_agent_command (cli_command_options o t d (s2l "none")) in
  CliParser.start_agent_main behaviour spawn_error build_agent_command extract_session_id args w =
  match spawn_error cmd with
  | Some e => Some (1, eprintln w (s2l "Error: " ++ e))
  | None =>
      if stalls (behaviour cmd) then None
      else
        match read_error (behaviour cmd) with
        | Some e => Some (1, eprintln (record_spawn w cmd) (s2l "Error: " ++ e))
        | None => Some (unwrap_or (status_code (behaviour cmd)) 1, record_spawn w cmd)
        end
  end.
Proof.
  intros Ho Hh Ht Htn Hd Hdn Hi Hdet Hdry cmd. unfold CliParser.start_agent_main. cbv zeta.
  rewrite Ho, Hh.
  replace (CliParser.valid (CliParser.validate_start_agent_options o)) with true
    by (unfold CliParser.validate_start_agent_options; rewrite Ht, Hd, Hi; reflexivity).
  unfold CliParser.start_agent_options. rewrite Ht, Hd, Hi. cbn [unwrap_or negb].
  unfold agent_new at 1. cbn [AgentOptions.tool AgentOptions.working_directory AgentOptions.isolation].
  destruct t as [|c t]; [congruence|]. destruct d as [|e d]; [congruence|].
  cbn [is_empty]. replace (str_eqb (s2l "none") (s2l "screen")) with false by reflexivity.
  replace (str_eqb (s2l "none") (s2l "docker")) with false by reflexivity. cbn [andb].
  unfold start. cbv zeta. cbn [options AgentOptions.json AgentStartOptions.dry_run
    AgentStartOptions.detached AgentOptions.tool AgentOptions.working_directory
    AgentOptions.prompt AgentOptions.system_prompt AgentOptions.model AgentOptions.resume
    AgentOptions.isolation AgentOptions.screen_name AgentOptions.container_name].
  rewrite Hdry, Hdet. fold (cli_command_options o (c :: t) (e :: d) (s2l "none")). fold cmd.
  unfold start_command, spawn. destruct (spawn_error cmd) as [err|]; [reflexivity|].
  unfold stop, wait_for_exit, read_error. cbn [fst snd negb andb set_process_handle options
    process_handle ProcessHandle.new ProcessHandle.exit_code ProcessHandle.child child_command
    AgentOptions.isolation orb].
  replace (str_eqb (s2l "none") (s2l "screen")) with false by reflexivity.
  replace (str_eqb (s2l "none") (s2l "docker")) with false by reflexivity.
  replace (str_eqb (s2l "none") (s2l "none")) with true by reflexivity. cbn [orb].
  destruct (behaviour cmd) as [ol oe el ee st we sc]. cbn [stalls out_error err_error wait_error
    status_code out_lines err_lines].
  destruct st; [reflexivity|].
  destruct oe; [reflexivity|]. destruct ee; [reflexivity|]. destruct we; reflexivity.
Qed.

Lemma start_attached_exit_code_witness :
  let cmd := Scenario.build_agent_command
               (cli_command_options (CliParser.parse_start_agent_args Samples.start_args)
                  (s2l "claude") (s2l "/tmp") (s2l "none")) in
  CliParser.start_agent_main Samples.bad_utf8 Scenario.spawn_error Scenario.build_agent_command
    Scenario.extract_session_id Samples.start_args Scenario.world =
  match Scenario.spawn_error cmd with
  | Some e => Some (1, eprintln Scenario.world (s2l "Error: " ++ e))
  | None =>
      if stalls (Samples.bad_utf8 cmd) then None
      else
        match read_error (Samples.bad_utf8 cmd) with
        | Some e => Some (1, eprintln (record_spawn Scenario.world cmd) (s2l "Error: " ++ e))
        | None => Some (unwrap_or (status_code (Samples.bad_utf8 cmd)) 1, record_spawn Scenario.world cmd)
        end
  end.
Proof.
  apply (start_attached_exit_code Samples.bad_utf8 Scenario.spawn_error Scenario.build_agent_command
           Scenario.extract_session_id Samples.start_args Scenario.world
           (CliParser.parse_start_agent_args Samples.start_args) (s2l "claude") (s2l "/tmp"));
    reflexivity || discriminate.
Defined.

(** The screen quit command as [stop] runs it: attached, so its output is
    printed, and finishing like its drain. *)
Lemma execute_attached_spawned behaviour spawn_error (q : str) (w : World) :
  spawn_error q = None ->
  execute_command behaviour spawn_error q false true w =
  if stalls (behaviour q) then None
  else
    Some (match read_error (behaviour q) with
          | Some e => Err e
          | None => Ok {| ExecutionResult.exit_code := unwrap_or (status_code (behaviour q)) 1;
                          ExecutionResult.stdout := read_lines (out_lines (behaviour q));
                          ExecutionResult.stderr := read_lines (err_lines (behaviour q));
                          ExecutionResult.command := q |}
          end,
          let w1 := fold_left println (out_lines (behaviour q)) (record_spawn w q) in
          match out_error (behaviour q) with
          | Some _ => w1
          | None => fold_left eprintln (err_lines (behaviour q)) w1
          end).
Proof.
  intros Hs. unfold execute_command, spawn, read_error. rewrite Hs. cbn [child_command].
  destruct (behaviour q) as [ol oe el ee st we sc]. cbn [stalls out_error err_error wait_error
    status_code out_lines err_lines].
  destruct st; [reflexivity|].
  destruct oe; [reflexivity|]. destruct ee; [reflexivity|]. destruct we; reflexivity.
Qed.

Lemma drained_spawned (b : ChildBehaviour) (w : World) :
  spawned (let w1 := fold_left println (out_lines b) w in
           match out_error b with Some _ => w1 | None => fold_left eprintln (err_lines b) w1 end)
  = spawned w.
Proof.
  cbv zeta. destruct (out_error b); rewrite ?fold_eprintln_spawned, fold_println_spawned; reflexivity.
Qed.

(** X13: start-agent with screen isolation and a screen name, not
    detached and not a dry run, spawns the agent command and then, since
    [stop] follows, the [screen -S ... -X quit] command.  It never returns
    when the quit command stalls its pipes; otherwise it exits with 1 when
    reading that command's output or waiting for it fails, and with the
    quit command's exit code, not the agent's, when it does not. *)
Theorem start_attached_screen_quits behaviour spawn_error build_agent_command extract_session_id
  (args : list str) (w : World) (o : CliParser.StartAgentOptions.t) (t d n : str) :
  CliParser.parse_start_agent_args args = o ->
  CliParser.StartAgentOptions.help o = false ->
  CliParser.StartAgentOptions.tool o = Some t -> t <> [] ->
  CliParser.StartAgentOptions.working_directory o = Some d -> d <> [] ->
  CliParser.StartAgentOptions.isolation o = s2l "screen" ->
  CliParser.StartAgentOptions.screen_name o = Some n ->
  CliParser.StartAgentOptions.detached o = false -> CliParser.StartAgentOptions.dry_run o = false ->
  let cmd := build_agent_command (cli_command_options o t d (s2l "screen")) in
  let q := build_screen_stop_command n in
  spawn_error cmd = None -> spawn_error q = None ->
  let r := CliParser.start_agent_main behaviour spawn_error build_agent_command
             extract_session_id args w in
  (stalls (behaviour q) = true -> r = None) /\
  (stalls (behaviour q) = false ->
   exists w', r = Some (match read_error (behaviour q) with
                        | Some _ => 1
                        | None => unwrap_or (status_code (behaviour q)) 1
                        end, w')
   /\ spawned w' = spawned w ++ [cmd; q]).
Proof.
  intros Ho Hh Ht Htn Hd Hdn Hi Hn Hdet Hdry cmd q Hs1 Hs2 r. unfold r, CliParser.start_agent_main.
  cbv zeta. rewrite Ho, Hh.
  replace (CliParser.valid (CliParser.validate_start_agent_options o)) with true
    by (unfold CliParser.validate_start_agent_options; rewrite Ht, Hd, Hi, Hn; reflexivity).
  unfold CliParser.start_agent_options. rewrite Ht, Hd, Hi. cbn [unwrap_or negb].
  unfold agent_new. cbn [AgentOptions.tool AgentOptions.working_directory AgentOptions.isolation
    AgentOptions.screen_name].
  destruct t as [|c t]; [congruence|]. destruct d as [|e d]; [congruence|].
  cbn [is_empty]. replace (str_eqb (s2l "screen") (s2l "screen")) with true by reflexivity.
  replace (str_eqb (s2l "screen") (s2l "docker")) with false by reflexivity.
  replace (is_some (CliParser.StartAgentOptions.screen_name o)) with true by (rewrite Hn; reflexivity).
  cbn [andb negb].
  unfold start. cbv zeta. cbn [options AgentOptions.json AgentStartOptions.dry_run
    AgentStartOptions.detached AgentOptions.tool AgentOptions.working_directory
    AgentOptions.prompt AgentOptions.system_prompt AgentOptions.model AgentOptions.resume
    AgentOptions.isolation AgentOptions.screen_name AgentOptions.container_name].
  rewrite Hdry, Hdet. fold (cli_command_options o (c :: t) (e :: d) (s2l "screen")). fold cmd.
  unfold start_command, spawn. rewrite Hs1. cbn [fst snd negb andb].
  unfold stop. cbv zeta. cbn [options set_process_handle AgentOptions.isolation AgentOptions.screen_name].
  cbn [orb]. rewrite Hn.
  replace (str_eqb (s2l "screen") (s2l "screen")) with true by reflexivity. cbn [orb].
  cbn [AgentStopOptions.dry_run]. fold q.
  rewrite (execute_attached_spawned behaviour spawn_error q _ Hs2).
  split; intros Hst; rewrite Hst; [reflexivity|].
  destruct (read_error (behaviour q)); (eexists; split; [reflexivity|]);
    cbn [eprintln spawned]; rewrite drained_spawned; cbn [record_spawn spawned];
    rewrite <- app_assoc; reflexivity.
Qed.

Lemma start_attached_screen_quits_witness :
  let cmd := Scenario.build_agent_command
               (cli_command_options (CliParser.parse_start_agent_args Samples.screen_start_args)
                  (s2l "claude") (s2l "/tmp") (s2l "screen")) in
  let q := build_screen_stop_command (s2l "s1") in
  let r := CliParser.start_agent_main Samples.bad_utf8 Scenario.spawn_error
             Scenario.build_agent_command Scenario.extract_session_id Samples.screen_start_args
             Scenario.world in
  (stalls (Samples.bad_utf8 q) = true -> r = None) /\
  (stalls (Samples.bad_utf8 q) = false ->
   exists w', r = Some (match read_error (Samples.bad_utf8 q) with
                        | Some _ => 1
                        | None => unwrap_or (status_code (Samples.bad_utf8 q)) 1
                        end, w')
   /\ spawned w' = spawned Scenario.world ++ [cmd; q]).
Proof.
  apply (start_attached_screen_quits Samples.bad_utf8 Scenario.spawn_error
           Scenario.build_agent_command Scenario.extract_session_id Samples.screen_start_args
           Scenario.world (CliParser.parse_start_agent_args Samples.screen_start_args)
           (s2l "claude") (s2l "/tmp") (s2l "s1"));
    reflexivity || discriminate.
Defined.

(** X14: stop-agent with screen isolation and a screen name, not a dry
    run, spawns only [screen -S "<name>" -X quit].  It never returns when
    that command stalls its pipes.  When reading its output or waiting for
    it fails with [e], it prints [Error: e] last on stderr and exits with
    1; otherwise it exits with the command's exit code and prints [Agent
    stopped successfully] last, whatever that code is. *)
Theorem stop_agent_screen behaviour spawn_error extract_session_id
  (args : list str) (w : World) (o : CliParser.StopAgentOptions.t) (n : str) :
  CliParser.parse_stop_agent_args args = o ->
  CliParser.StopAgentOptions.help o = false ->
  CliParser.StopAgentOptions.isolation o = Some (s2l "screen") ->
  CliParser.StopAgentOptions.screen_name o = Some n ->
  CliParser.StopAgentOptions.dry_run o = false ->
  let q := build_screen_stop_command n in
  spawn_error q = None ->
  let r := CliParser.stop_agent_main behaviour spawn_error extract_session_id args w in
  (stalls (behaviour q) = true -> r = None) /\
  (stalls (behaviour q) = false ->
   exists w', spawned w' = spawned w ++ [q] /\
   match read_error (behaviour q) with
   | Some e => r = Some (1, w') /\ last (err_log w') [] = s2l "Error: " ++ e
   | None => r = Some (unwrap_or (status_code (behaviour q)) 1, w')
             /\ last (out_log w') [] = s2l "Agent stopped successfully"
   end).
Proof.
  intros Ho Hh Hi Hn Hdry q Hs r. unfold r, CliParser.stop_agent_main. cbv zeta. rewrite Ho, Hh.
  replace (CliParser.valid (CliParser.validate_stop_agent_options o)) with true
    by (unfold CliParser.validate_stop_agent_options; rewrite Hi, Hn; reflexivity).
  unfold CliParser.stop_agent_options. rewrite Hi. cbn [unwrap_or negb].
  unfold agent_new. cbn [AgentOptions.tool AgentOptions.working_directory AgentOptions.isolation
    AgentOptions.screen_name].
  replace (is_empty (s2l "dummy")) with false by reflexivity.
  replace (is_empty (s2l "/tmp")) with false by reflexivity.
  replace (str_eqb (s2l "screen") (s2l "screen")) with true by reflexivity.
  replace (str_eqb (s2l "screen") (s2l "docker")) with false by reflexivity.
  rewrite Hn. cbn [andb negb is_some].
  unfold stop. cbv zeta. cbn [options AgentOptions.isolation AgentOptions.screen_name].
  replace (str_eqb (s2l "screen") (s2l "screen")) with true by reflexivity. cbn [orb].
  cbn [AgentStopOptions.dry_run]. rewrite Hdry. fold q.
  rewrite (execute_attached_spawned behaviour spawn_error q _ Hs).
  split; intros Hst; rewrite Hst; [reflexivity|].
  destruct (read_error (behaviour q)) as [e|]; (eexists; split;
    [|split; [reflexivity|cbn [println eprintln out_log err_log]; apply last_last]]);
    cbn [println eprintln spawned]; rewrite drained_spawned; reflexivity.
Qed.

Lemma stop_agent_screen_witness :
  let q := build_screen_stop_command (s2l "s1") in
  let r := CliParser.stop_agent_main Scenario.behaviour Scenario.spawn_error
             Scenario.extract_session_id Samples.screen_stop_args Scenario.world in
  (stalls (Scenario.behaviour q) = true -> r = None) /\
  (stalls (Scenario.behaviour q) = false ->
   exists w', spawned w' = spawned Scenario.world ++ [q] /\
   match read_error (Scenario.behaviour q) with
   | Some e => r = Some (1, w') /\ last (err_log w') [] = s2l "Error: " ++ e
   | None => r = Some (unwrap_or (status_code (Scenario.behaviour q)) 1, w')
             /\ last (out_log w') [] = s2l "Agent stopped successfully"
   end).
Proof.
  apply (stop_agent_screen Scenario.behaviour Scenario.spawn_error Scenario.extract_session_id
           Samples.screen_stop_args Scenario.world
           (CliParser.parse_stop_agent_args Samples.screen_stop_args) (s2l "s1"));
    reflexivity.
Defined.
End CliMainFacts.

Module InputFacts.
Import Json Ndjson JsonAccess InputStream.

(** X15: [add] appends the message's NDJSON line to [to_string] and grows
    [size] by one, except for [Null], which changes neither. *)
Theorem add_appends_line (st : JsonInputStream) (m : Value) :
  to_string (add st m) = to_string st ++ stringify_ndjson_line m (compact st)
  /\ size (add st m) = (size st + if is_null m then 0 else 1)%nat.
Proof.
  unfold add, to_string, size. destruct (is_null m) eqn:E; cbn [negb compact messages].
  - replace (stringify_ndjson_line m (compact st)) with (@nil char)
      by (unfold stringify_ndjson_line; rewrite E; reflexivity). rewrite app_nil_r. split; [reflexivity|lia].
  - rewrite map_app, concat_app. cbn [map List.concat]. rewrite (app_nil_r (stringify_ndjson_line m _)), length_app.
    split; [reflexivity|cbn; lia].
Qed.

(** X16: in compact mode, parsing [to_string] with [parse_ndjson] gives back
    [get_messages] exactly, when every message is a well-formed object or
    array without [f64] numbers, nested less than 128 levels deep. *)
Theorem compact_stream_roundtrip (st : JsonInputStream) :
  compact st = true ->
  Forall (fun v => is_container v = true /\ wf v /\ JsonSpec.no_float v /\ (depth v < 128)%nat)
    (get_messages st) ->
  parse_ndjson (to_string st) = get_messages st.
Proof.
  intros Hc H. unfold to_string. rewrite Hc. apply NdjsonFacts.compact_lines, H.
Qed.

Lemma compact_stream_roundtrip_witness :
  parse_ndjson (to_string (from_messages [JsonSpec.two_fields; Array [Null]] true))
  = get_messages (from_messages [JsonSpec.two_fields; Array [Null]] true).
Proof.
  apply compact_stream_roundtrip; [reflexivity|].
  repeat constructor; cbn; try lia; try tauto; unfold is_scalar_value, i64_min, u64_max; lia.
Defined.

Lemma str_eqb_compare (a b : str) : str_eqb a b = true <-> str_compare a b = Eq.
Proof.
  revert b. induction a as [|x a IH]; intros [|y b]; cbn; try (split; congruence).
  destruct (Z.compare_spec x y) as [->|H|H].
  - rewrite Z.eqb_refl. cbn. apply IH.
  - apply Z.lt_neq, Z.eqb_neq in H. rewrite H. split; discriminate.
  - apply Z.lt_neq, not_eq_sym, Z.eqb_neq in H. rewrite H. split; discriminate.
Qed.

Lemma str_eqb_sym (a b : str) : str_eqb a b = str_eqb b a.
Proof.
  destruct (str_eqb a b) eqn:E, (str_eqb b a) eqn:E'; try reflexivity;
    apply ControllerFacts.str_eqb_spec in E || apply ControllerFacts.str_eqb_spec in E'; subst;
    [rewrite (proj2 (ControllerFacts.str_eqb_spec b b) eq_refl) in E' |
     rewrite (proj2 (ControllerFacts.str_eqb_spec a a) eq_refl) in E]; congruence.
Qed.


Lemma str_compare_eq (a b : str) : str_compare a b = Eq -> a = b.
Proof. intros H. apply ControllerFacts.str_eqb_spec, str_eqb_compare, H. Qed.

Lemma get_map_insert (k : str) (v : Value) (m : list (str * Value)) (key : str) :
  get (Object (map_insert k v m)) key =
  if str_eqb k key then Some v else get (Object m) key.
Proof.
  induction m as [|[k' v'] m IH]; [cbn; destruct (str_eqb k key); reflexivity|].
  cbn [map_insert]. destruct (str_compare k k') eqn:C.
  - apply str_compare_eq in C. subst k'. unfold get. cbn [find fst snd].
    destruct (str_eqb k key); reflexivity.
  - unfold get. cbn [find fst snd]. destruct (str_eqb k key); reflexivity.
  - unfold get in *. cbn [find fst snd] in *. destruct (str_eqb k' key) eqn:E1.
    + destruct (str_eqb k key) eqn:E2; [|reflexivity].
      apply ControllerFacts.str_eqb_spec in E1, E2. subst.
      assert (str_compare key key = Eq)
        by (apply str_eqb_compare, ControllerFacts.str_eqb_spec; reflexivity).
      congruence.
    + rewrite IH. destruct (str_eqb k key); reflexivity.
Qed.

Lemma get_absent (k : str) (rest : list (str * Value)) :
  Forall (fun k' => str_compare k k' = Lt) (map fst rest) -> get (Object rest) k = None.
Proof.
  induction rest as [|[k' v'] rest IH]; intros H; [reflexivity|]. inversion H as [|? ? Hk Hr]; subst.
  unfold get in *. cbn [find fst snd]. destruct (str_eqb k' k) eqn:E.
  - apply ControllerFacts.str_eqb_spec in E. subst.
    assert (str_compare k k = Eq) by (apply str_eqb_compare, ControllerFacts.str_eqb_spec; reflexivity).
    congruence.
  - apply IH, Hr.
Qed.

Lemma get_fold_insert (cfg m0 : list (str * Value)) (key : str) :
  keys_sorted (map fst cfg) ->
  get (Object (fold_left (fun obj kv => map_insert (fst kv) (snd kv) obj) cfg m0)) key =
  match get (Object cfg) key with Some v => Some v | None => get (Object m0) key end.
Proof.
  revert m0. induction cfg as [|[k v] rest IH]; intros m0 H; [reflexivity|].
  destruct H as [Hk Hs].
  cbn [fold_left fst snd]. rewrite IH by exact Hs. rewrite get_map_insert.
  unfold get at 3. cbn [find fst snd]. destruct (str_eqb k key) eqn:E.
  - apply ControllerFacts.str_eqb_spec in E. subst key. rewrite get_absent by exact Hk. reflexivity.
  - reflexivity.
Qed.

(** X17: [add_config] with an object appends one message whose fields are
    the object's, plus [type] set to [config] unless the object has its
    own [type] field, which then wins. *)
Theorem add_config_fields (st : JsonInputStream) (cfg : list (str * Value)) :
  keys_sorted (map fst cfg) ->
  exists msg,
    messages (add_config st (Object cfg)) = messages st ++ [msg]
    /\ forall key, get msg key =
         match get (Object cfg) key with
         | Some v => Some v
         | None => if str_eqb key (s2l "type") then Some (String (s2l "config")) else None
         end.
Proof.
  intros Hs. eexists. split.
  - unfold add_config, add. cbv zeta. reflexivity.
  - intros key. cbv zeta. rewrite get_fold_insert by exact Hs.
    destruct (get (Object cfg) key); [reflexivity|]. cbn [map_insert]. unfold get. cbn [find fst snd].
    rewrite str_eqb_sym. destruct (str_eqb key (s2l "type")); reflexivity.
Qed.

Lemma add_config_fields_witness :
  exists msg,
    messages (add_config (new true) (Object [(s2l "model", String (s2l "opus")); (s2l "type", Null)]))
    = messages (new true) ++ [msg]
    /\ forall key, get msg key =
         match get (Object [(s2l "model", String (s2l "opus")); (s2l "type", Null)]) key with
         | Some v => Some v
         | None => if str_eqb key (s2l "type") then Some (String (s2l "config")) else None
         end.
Proof.
  apply add_config_fields. vm_compute. repeat constructor.
Defined.

Lemma typed_message_eq (t c : str) :
  typed_message t c = Object [(s2l "content", String c); (s2l "type", String t)].
Proof. reflexivity. Qed.

Lemma scalar_literal (s : String.string) :
  forallb (fun c => (0 <=? c) && (c <=? 1114111) && negb ((55296 <=? c) && (c <=? 57343))) (s2l s)
  = true -> Forall is_scalar_value (s2l s).
Proof.
  intros H. apply Forall_forall. intros c Hc. eapply forallb_forall in H; [|exact Hc].
  apply andb_true_iff in H as [H H3]. apply andb_true_iff in H as [H1 H2].
  apply Z.leb_le in H1, H2. apply negb_true_iff, andb_false_iff in H3.
  unfold is_scalar_value. destruct H3 as [H3|H3]; apply Z.leb_gt in H3; lia.
Qed.

Lemma typed_message_ok (t c : str) :
  Forall is_scalar_value t -> Forall is_scalar_value c ->
  is_container (typed_message t c) = true /\ wf (typed_message t c)
  /\ JsonSpec.no_float (typed_message t c) /\ (depth (typed_message t c) < 128)%nat.
Proof.
  intros Ht Hc. rewrite typed_message_eq. split; [reflexivity|].
  split; [|split; [cbn; tauto|cbn; lia]].
  cbn [wf map fst keys_sorted]. repeat split; try exact I; try assumption.
  - constructor; [reflexivity|constructor].
  - constructor.
  - apply scalar_literal. reflexivity.
  - apply scalar_literal. reflexivity.
Qed.

Lemma messages_fold_add_prompt (cs : list str) (st : JsonInputStream) :
  messages (fold_left add_prompt cs st) = messages st ++ map (typed_message (s2l "user_prompt")) cs
  /\ compact (fold_left add_prompt cs st) = compact st.
Proof.
  revert st. induction cs as [|c cs IH]; intros st; [cbn; rewrite app_nil_r; split; reflexivity|].
  cbn [fold_left map]. destruct (IH (add_prompt st c)) as [H1 H2]. rewrite H1, H2.
  unfold add_prompt, add. rewrite typed_message_eq. cbn [is_null negb compact messages].
  rewrite <- app_assoc. split; reflexivity.
Qed.

(** X18: a compact stream filled by [add_prompt] alone round-trips: parsing
    its [to_string] gives one [{"type": "user_prompt", "content": c}]
    message per prompt, in order, for any prompts of Unicode scalar values. *)
Theorem prompts_roundtrip (cs : list str) :
  Forall (Forall is_scalar_value) cs ->
  parse_ndjson (to_string (fold_left add_prompt cs (new true)))
  = map (typed_message (s2l "user_prompt")) cs.
Proof.
  intros H. unfold to_string. destruct (messages_fold_add_prompt cs (new true)) as [H1 H2].
  rewrite H1, H2. cbn [compact new messages app]. apply NdjsonFacts.compact_lines.
  apply Forall_map. eapply Forall_impl; [|exact H]. intros c Hc.
  apply typed_message_ok; [apply scalar_literal; reflexivity|exact Hc].
Qed.

Lemma prompts_roundtrip_witness :
  parse_ndjson (to_string (fold_left add_prompt [s2l "hi"; s2l "it's"] (new true)))
  = map (typed_message (s2l "user_prompt")) [s2l "hi"; s2l "it's"].
Proof.
  apply prompts_roundtrip.
  constructor; [apply scalar_literal; reflexivity|].
  constructor; [apply scalar_literal; reflexivity|constructor].
Defined.
End InputFacts.

Module StreamNdjsonFacts.
Import Json Ndjson OutputStream StreamFacts.

Lemma trim_start_snoc_ws (x : str) (c : char) :
  is_whitespace c = true ->
  trim_start (x ++ [c]) = trim_start x ++ [c] \/
  (trim_start (x ++ [c]) = [] /\ trim_start x = []).
Proof.
  intros Hc. induction x as [|y x IH].
  - right. cbn. rewrite Hc. split; reflexivity.
  - cbn [app trim_start]. destruct (is_whitespace y); [exact IH|left; reflexivity].
Qed.

Lemma trim_end_snoc_ws (x : str) (c : char) :
  is_whitespace c = true -> trim_end (x ++ [c]) = trim_end x.
Proof. intros Hc. unfold trim_end. rewrite rev_unit. cbn [trim_start]. rewrite Hc. reflexivity. Qed.

Lemma trim_snoc_ws (x : str) (c : char) :
  is_whitespace c = true -> trim (x ++ [c]) = trim x.
Proof.
  intros Hc. unfold trim. destruct (trim_start_snoc_ws x c Hc) as [H|[H1 H2]].
  - rewrite H. apply trim_end_snoc_ws, Hc.
  - rewrite H1, H2. reflexivity.
Qed.

Lemma trim_strip_cr (l : str) : trim (strip_cr l) = trim l.
Proof.
  unfold strip_cr. destruct (rev l) as [|c r] eqn:E; [reflexivity|].
  destruct (Z.eq_dec c 13) as [->|Hc].
  - replace l with (rev r ++ [13]) by (rewrite <- (rev_involutive l), E; reflexivity).
    rewrite trim_snoc_ws by reflexivity.
    reflexivity.
  - destruct c as [|p|p]; try reflexivity.
    repeat (destruct p as [p|p|]; try reflexivity). exfalso; apply Hc; reflexivity.
Qed.

Lemma parse_ndjson_line_strip_cr (l : str) :
  parse_ndjson_line (strip_cr l) = parse_ndjson_line l.
Proof. unfold parse_ndjson_line. rewrite trim_strip_cr. reflexivity. Qed.

Lemma process_lines_msgs (ls : list str) : forall (st : JsonOutputStream),
  snd (process_lines st ls) =
  fold_right (fun l acc => match parse_ndjson_line l with
                           | Some v => v :: acc
                           | None => acc
                           end) [] ls.
Proof.
  induction ls as [|l ls IH]; intros st; [reflexivity|].
  cbn [process_lines fold_right].
  assert (Ho : snd (process_line st l) = parse_ndjson_line l).
  { unfold process_line. destruct (parse_ndjson_line l); [reflexivity|].
    destruct (starts_with 123 (trim l)); reflexivity. }
  destruct (process_line st l) as [st1 o]. cbn [snd] in Ho. subst o.
  specialize (IH st1). destruct (process_lines st1 ls) as [st2 ms]. cbn [snd] in *.
  rewrite IH. destruct (parse_ndjson_line l); reflexivity.
Qed.

Lemma lines_of_msgs (P : list str) :
  P <> [] ->
  fold_right (fun l acc => match parse_ndjson_line l with
                           | Some v => v :: acc
                           | None => acc
                           end) [] (lines_of P) =
  fold_right (fun l acc => match parse_ndjson_line l with
                           | Some v => v :: acc
                           | None => acc
                           end) [] (removelast P)
  ++ option_to_list (parse_ndjson_line (last P [])).
Proof.
  induction P as [|l P IH]; [congruence|]. intros _. destruct P as [|l2 P].
  - cbn [lines_of removelast last fold_right app]. destruct (is_empty l) eqn:E.
    + destruct l; [reflexivity|discriminate].
    + cbn [fold_right]. destruct (parse_ndjson_line l); reflexivity.
  - rewrite NdjsonFacts.lines_of_cons by discriminate.
    change (removelast (l :: l2 :: P)) with (l :: removelast (l2 :: P)).
    change (last (l :: l2 :: P) []) with (last (l2 :: P) []).
    cbn [fold_right]. rewrite IH by discriminate. rewrite parse_ndjson_line_strip_cr.
    destruct (parse_ndjson_line l); reflexivity.
Qed.

Lemma parse_ndjson_line_blank (l : str) :
  is_empty (trim l) = true -> parse_ndjson_line l = None.
Proof. intros H. unfold parse_ndjson_line. rewrite H. reflexivity. Qed.

Lemma flush_msgs (st : JsonOutputStream) :
  messages (fst (flush st)) = messages st ++ option_to_list (parse_ndjson_line (buffer st)).
Proof.
  unfold flush. destruct (is_empty (trim (buffer st))) eqn:E.
  - rewrite parse_ndjson_line_blank by exact E. cbn. rewrite app_nil_r. reflexivity.
  - pose proof (process_line_log (set_buffer st []) (buffer st)) as [Hm _].
    assert (Ho : snd (process_line (set_buffer st []) (buffer st)) = parse_ndjson_line (buffer st)).
    { unfold process_line. destruct (parse_ndjson_line (buffer st)); [reflexivity|].
      destruct (starts_with 123 (trim (buffer st))); reflexivity. }
    destruct (process_line (set_buffer st []) (buffer st)) as [st' o].
    cbn [fst snd] in *. subst o. exact Hm.
Qed.

Lemma stream_messages_parse_ndjson (s : str) :
  get_messages (fst (flush (fst (process new s)))) = parse_ndjson s.
Proof.
  unfold get_messages. rewrite flush_msgs.
  rewrite process_eq. cbn [buffer new app]. rewrite process_lines_set_buffer.
  pose proof (process_lines_log (removelast (split_char 10 s)) new) as [Hm _].
  rewrite process_lines_msgs in Hm. cbn [fst].
  change (messages (set_buffer ?x _)) with (messages x).
  change (buffer (set_buffer _ ?b)) with b.
  rewrite Hm. unfold parse_ndjson, lines.
  rewrite lines_of_msgs by apply split_char_not_nil. reflexivity.
Qed.

(** X19: a new output stream fed a whole text with [process], then
    flushed, holds exactly the messages [parse_ndjson] finds in that text,
    for every text: the stream and the batch parser agree, also on
    [\r\n] line ends and an unterminated last line. *)
Theorem output_stream_matches_parse_ndjson (s : str) :
  get_messages (fst (flush (fst (process new s)))) = parse_ndjson s.
Proof. exact (stream_messages_parse_ndjson s). Qed.

End StreamNdjsonFacts.

Module AgentRunFacts.
Import ControllerFacts.


Lemma start_options spawn_error build_agent_command (a : Agent) so w :
  options (snd (fst (start spawn_error build_agent_command a so w))) = options a.
Proof.
  unfold start. cbv zeta. destruct (AgentOptions.json (options a));
  destruct (AgentStartOptions.dry_run so); [reflexivity| |reflexivity|];
  destruct (AgentStartOptions.detached so).
  all: try (destruct (execute_detached _ _ _) as [[]]; reflexivity).
  all: destruct (start_command _ _ _ _) as [[]]; reflexivity.
Qed.

(** X20: [Agent::new] accepts an isolation mode other than [screen],
    [docker], [none] and the empty one, [start] runs with it, but [stop]
    then always fails with [Unsupported isolation mode], leaving the agent
    and the world as they were: a started process is never waited for. *)
Theorem unsupported_isolation_stop (o : AgentOptions.t) :
  AgentOptions.tool o <> [] -> AgentOptions.working_directory o <> [] ->
  AgentOptions.isolation o <> [] ->
  ~ In (AgentOptions.isolation o) [s2l "screen"; s2l "docker"; s2l "none"] ->
  exists a, agent_new o = Ok a /\
    forall spawn_error build_agent_command so w behaviour extract_session_id so',
      let '(_, a1, w1) := start spawn_error build_agent_command a so w in
      stop behaviour spawn_error extract_session_id a1 so' w1
      = Some (Err (s2l "Unsupported isolation mode: " ++ AgentOptions.isolation o), a1, w1).
Proof.
  intros Ht Hw Hi Hn.
  assert (Hs : str_eqb (AgentOptions.isolation o) (s2l "screen") = false)
    by (apply str_eqb_false; intros E; apply Hn; left; auto).
  assert (Hd : str_eqb (AgentOptions.isolation o) (s2l "docker") = false)
    by (apply str_eqb_false; intros E; apply Hn; right; left; auto).
  assert (Hno : str_eqb (AgentOptions.isolation o) (s2l "none") = false)
    by (apply str_eqb_false; intros E; apply Hn; right; right; left; auto).
  assert (He : is_empty (AgentOptions.isolation o) = false)
    by (destruct (AgentOptions.isolation o); [contradiction|reflexivity]).
  eexists. split.
  - unfold agent_new.
    destruct (is_empty (AgentOptions.tool o)) eqn:Et; [apply is_empty_true in Et; contradiction|].
    destruct (is_empty (AgentOptions.working_directory o)) eqn:Ew;
      [apply is_empty_true in Ew; contradiction|].
    rewrite Hs, Hd. reflexivity.
  - intros spawn_error build_agent_command so w behaviour extract_session_id so'.
    pose proof (start_options spawn_error build_agent_command
      {| options := o; process_handle := None; output_stream := None; session_id := None |} so w)
      as Ho.
    destruct (start _ _ _ _ _) as [[r a1] w1]. cbn [fst snd options] in Ho.
    unfold stop. cbv zeta. rewrite Ho, Hs, Hd, Hno, He. reflexivity.
Qed.

Lemma unsupported_isolation_stop_witness :
  exists a, agent_new Samples.podman_options = Ok a /\
    forall spawn_error build_agent_command so w behaviour extract_session_id so',
      let '(_, a1, w1) := start spawn_error build_agent_command a so w in
      stop behaviour spawn_error extract_session_id a1 so' w1
      = Some (Err (s2l "Unsupported isolation mode: " ++ s2l "podman"), a1, w1).
Proof.
  apply (unsupported_isolation_stop Samples.podman_options); try discriminate.
  cbn. intros [H|[H|[H|[]]]]; discriminate.
Defined.



End AgentRunFacts.

